(** * Salesforce login with session persistence: a model of
      [scripts/salesforce-login.js] and the properties of its flow.

    The script is a single asynchronous [main] that talks to the file
    system, to a browser driven through Playwright and to the console.
    It is embedded here as a state-and-exception monad over an explicit
    [State] (clock, world, files, exit code, output): every awaited call of
    the script is one monadic step, every [try]/[catch] is [try_catch], and
    the two polling loops, which are bounded by [Date.now()], recurse on the
    time that is left. An awaited promise may also never settle (the
    question put to the keyboard when standard input has ended): the
    function then stops where it waits, and no [catch] or [finally] runs.

    A JavaScript string is modelled by its sequence of code units
    ([string]); the model covers the code units below 256, which is all a
    serialized URL contains. *)

From Equations Require Import Equations.
From Equations.Prop Require Import Logic.
From Stdlib Require Import ZArith List Lia String Ascii Bool.
Import ListNotations.
Open Scope string_scope.
Open Scope Z_scope.

Set Implicit Arguments.

(* ===================================================================== *)
(** * JavaScript values the script computes with *)
(* ===================================================================== *)

(** How an evaluation ends: with a value, or abruptly with [e]. *)
Inductive Completed (E A : Type) : Type :=
| Ok (a : A)
| Throw (e : E).
Arguments Ok {E A} a.
Arguments Throw {E A} e.

(** A completed synchronous evaluation, or one call into the browser:
    a value, or a thrown error (the error is represented by its
    message). *)
Abbreviation Outcome := (Completed string).

(** What ends an asynchronous function before its value: an error thrown
    or a promise rejected, which a [catch] clause receives, or an awaited
    promise that never settles, after which nothing more of the function
    runs, neither a [catch] nor a [finally]. *)
Inductive Abrupt : Type :=
| Raised (message : string)
| Pending.

(** The outcome of an awaited computation. *)
Abbreviation Awaited := (Completed Abrupt).

Definition obind {A B} (o : Outcome A) (k : A -> Outcome B) : Outcome B :=
  match o with
  | Ok a => k a
  | Throw e => Throw e
  end.

Notation "'let?' x := c 'in' k" := (obind c (fun x => k))
  (at level 10, x name, c at level 100, k at level 200).

(** Drops a prefix [p] of [s], when [s] starts with it. *)
Fixpoint stripPrefix (p s : string) : option string :=
  match p with
  | EmptyString => Some s
  | String a p' =>
      match s with
      | String b s' => if Ascii.eqb a b then stripPrefix p' s' else None
      | EmptyString => None
      end
  end.

(** [t] is found at the head of [s]. *)
Definition startsWith (s t : string) : bool :=
  match stripPrefix t s with
  | Some _ => true
  | None => false
  end.

(** [s.includes(t)] on strings. *)
Fixpoint includes (s t : string) : bool :=
  if startsWith s t then true
  else match s with
       | EmptyString => false
       | String _ s' => includes s' t
       end.

(** JavaScript white space and line terminators among the code units
    below 256: TAB, LF, VT, FF, CR, SP and NBSP. *)
Definition isWhiteSpace (c : ascii) : bool :=
  let n := nat_of_ascii c in
  (Nat.leb 9 n && Nat.leb n 13) || Nat.eqb n 32 || Nat.eqb n 160.

Fixpoint trimStart (s : string) : string :=
  match s with
  | String c s' => if isWhiteSpace c then trimStart s' else s
  | EmptyString => EmptyString
  end.

Fixpoint trimEnd (s : string) : string :=
  match s with
  | EmptyString => EmptyString
  | String c s' =>
      match trimEnd s' with
      | EmptyString => if isWhiteSpace c then EmptyString else String c EmptyString
      | t => String c t
      end
  end.

(** [s.trim()]. *)
Definition trim (s : string) : string := trimEnd (trimStart s).

(** ASCII case folding, as a regular expression with the [i] flag (and
    without the [u] flag) compares an ASCII pattern with its input. *)
Definition lowerAscii (c : ascii) : ascii :=
  let n := nat_of_ascii c in
  if Nat.leb 65 n && Nat.leb n 90 then ascii_of_nat (n + 32) else c.

Fixpoint toLower (s : string) : string :=
  match s with
  | EmptyString => EmptyString
  | String c s' => String (lowerAscii c) (toLower s')
  end.

(** The class [[a-z0-9]] under the [i] flag. *)
Definition isAlnum (c : ascii) : bool :=
  let n := nat_of_ascii (lowerAscii c) in
  (Nat.leb 97 n && Nat.leb n 122) || (Nat.leb 48 n && Nat.leb n 57).

(** [n] characters of the class at the head of [s]. *)
Fixpoint alnumRun (n : nat) (s : string) : bool :=
  match n with
  | O => true
  | S n' => match s with
            | String c s' => isAlnum c && alnumRun n' s'
            | EmptyString => false
            end
  end.

(** [/salesforce\.com\/[a-z0-9]{15}/i.test(s)], on the folded input. *)
Fixpoint matchesRecordId (s : string) : bool :=
  match stripPrefix "salesforce.com/" s with
  | Some rest => if alnumRun 15 rest then true else
                   match s with
                   | String _ s' => matchesRecordId s'
                   | EmptyString => false
                   end
  | None => match s with
            | String _ s' => matchesRecordId s'
            | EmptyString => false
            end
  end.

Section Script.

(** The numbers of a parsed JSON text are IEEE doubles; the script only
    ever asks whether one is falsy ([0], [-0]) and, in a template string,
    for its decimal rendering. Both are taken as given. *)
Variable num : Type.
Variable num_falsy : num -> bool.
Variable num_toString : num -> string.

(** What [JSON.parse] returns. An object is its list of own properties;
    the first binding of a key is the property's value. *)
#[warnings="-register-all"]
Inductive json : Type :=
| JNull
| JBool (b : bool)
| JNum (n : num)
| JStr (s : string)
| JArr (items : list json)
| JObj (props : list (string * json)).

Fixpoint assoc (key : string) (props : list (string * json)) : option json :=
  match props with
  | [] => None
  | (k, v) :: rest => if String.eqb k key then Some v else assoc key rest
  end.

(** [v.key] for a key that no prototype defines ([cookies], [domain]):
    [None] is [undefined]; reading a property of [null] throws. *)
Definition member (key : string) (v : json) : Outcome (option json) :=
  match v with
  | JNull => Throw "TypeError: Cannot read properties of null"
  | JObj props => Ok (assoc key props)
  | _ => Ok None
  end.

(** ToBoolean. *)
Definition truthy (v : option json) : bool :=
  match v with
  | None => false
  | Some JNull => false
  | Some (JBool b) => b
  | Some (JNum n) => negb (num_falsy n)
  | Some (JStr s) => negb (String.eqb s "")
  | Some (JArr _) => true
  | Some (JObj _) => true
  end.

Definition isStr (t : string) (v : json) : bool :=
  match v with
  | JStr s => String.eqb s t
  | _ => false
  end.

(** [v.includes(t)] for a truthy [v]: strings and arrays have the method,
    anything else throws. *)
Definition js_includes (v : json) (t : string) : Outcome bool :=
  match v with
  | JStr s => Ok (includes s t)
  | JArr items => Ok (existsb (isStr t) items)
  | _ => Throw "TypeError: includes is not a function"
  end.

(** [arr.find(p)] on an array, where the callback may throw. *)
Fixpoint findM (p : json -> Outcome bool) (items : list json)
  : Outcome (option json) :=
  match items with
  | [] => Ok None
  | c :: rest =>
      let? hit := p c in
      if hit then Ok (Some c) else findM p rest
  end.

Definition joinComma (parts : list string) : string :=
  String.concat "," parts.

(** ToString, as a template string applies it. *)
Fixpoint toStringJS (v : json) : string :=
  match v with
  | JNull => "null"
  | JBool true => "true"
  | JBool false => "false"
  | JNum n => num_toString n
  | JStr s => s
  | JArr items =>
      joinComma (map (fun e => match e with
                               | JNull => ""
                               | _ => toStringJS e
                               end) items)
  | JObj _ => "[object Object]"
  end.

(* ===================================================================== *)
(** * The saved session file *)
(* ===================================================================== *)

(** What the file system holds at one path. *)
Inductive FileState : Type :=
| Absent
| Directory
| Unreadable
| Content (raw : string).

Definition FS : Type := string -> FileState.

Definition existsSync (fs : FS) (path : string) : bool :=
  match fs path with
  | Absent => false
  | _ => true
  end.

Definition readFileSync (fs : FS) (path : string) : Outcome string :=
  match fs path with
  | Content raw => Ok raw
  | Absent => Throw "ENOENT: no such file or directory"
  | Directory => Throw "EISDIR: illegal operation on a directory"
  | Unreadable => Throw "EACCES: permission denied"
  end.

Definition writeFile (fs : FS) (path : string) (raw : string) : FS :=
  fun p => if String.eqb p path then Content raw else fs p.

(** [JSON.parse]: [None] is a thrown [SyntaxError]. *)
Variable JSON_parse : string -> option json.

Definition parse (raw : string) : Outcome json :=
  match JSON_parse raw with
  | Some v => Ok v
  | None => Throw "SyntaxError: not valid JSON"
  end.

(** The object [loadStateFile] returns. *)
Record Artifact : Type := mkArtifact {
  cookies : list json;
  lightningBaseUrl : option string
}.

Definition emptyArtifact : Artifact :=
  {| cookies := []; lightningBaseUrl := None |}.

(** The callback of [cookies.find]:
    [c.domain && c.domain.includes('lightning.force.com')]. *)
Definition isLightningCookie (c : json) : Outcome bool :=
  let? d := member "domain" c in
  if truthy d then
    match d with
    | Some dv => js_includes dv "lightning.force.com"
    | None => Ok false
    end
  else Ok false.

(** [lightningCookie && lightningCookie.domain
      ? `https://${lightningCookie.domain}` : null]. *)
Definition baseUrlOf (lightningCookie : option json) : Outcome (option string) :=
  match lightningCookie with
  | None => Ok None
  | Some c =>
      if truthy (Some c) then
        let? d := member "domain" c in
        match d with
        | Some dv => if truthy d
                     then Ok (Some ("https://" ++ toStringJS dv))
                     else Ok None
        | None => Ok None
        end
      else Ok None
  end.

(** The two lines that compute the artifact from the cookie value
    (the spec's [deriveEndpoint] is its second component). *)
Definition deriveArtifact (cookiesValue : json) : Outcome Artifact :=
  match cookiesValue with
  | JArr items =>
      let? lightningCookie := findM isLightningCookie items in
      let? url := baseUrlOf lightningCookie in
      Ok {| cookies := items; lightningBaseUrl := url |}
  | _ => Throw "TypeError: cookies.find is not a function"
  end.

(** The body of the [try] block of [loadStateFile]. *)
Definition loadStateFile_try (fs : FS) (statePath : string) : Outcome Artifact :=
  let? raw := readFileSync fs statePath in
  let? data := parse raw in
  let? c := member "cookies" data in
  let cookiesValue := if truthy c
                      then match c with Some v => v | None => JArr [] end
                      else JArr [] in
  deriveArtifact cookiesValue.

(** [loadStateFile]: the [catch] clause turns every throw into the empty
    artifact. *)
Definition loadStateFile (fs : FS) (statePath : string) : Outcome Artifact :=
  match loadStateFile_try fs statePath with
  | Ok a => Ok a
  | Throw _ => Ok emptyArtifact
  end.

(* ===================================================================== *)
(** * Documents and the function injected into a frame *)
(* ===================================================================== *)

Definition Frame : Type := nat.
Definition Element : Type := nat.

(** What the injected function does to the document, in order. *)
Inductive DomAction : Type :=
| Focus (e : Element)
| SetValue (e : Element) (v : string)
| DispatchEvent (e : Element) (type : string)
| Click (e : Element)
| Submit (e : Element).

(** The part of a document the injected function looks at, and how the
    document answers what the function does to it: [raises done a] is
    the error with which operation [a] throws once the operations [done]
    have been performed, if it throws (setting the value of a file input
    throws [InvalidStateError]; [form.submit()] throws [TypeError] when a
    control named [submit] shadows the method). *)
Record Document : Type := mkDocument {
  querySelector : string -> option Element;
  closest : Element -> string -> option Element;
  raises : list DomAction -> DomAction -> option string
}.

(** The [{ done, message }] object. *)
Record FillResult : Type := mkFillResult {
  done : bool;
  message : string
}.

Definition dq : string := String "034"%char EmptyString.

(** The selector [tag[name="value"]]. *)
Definition attrSel (tag name value : string) : string :=
  tag ++ "[" ++ name ++ "=" ++ dq ++ value ++ dq ++ "]".

(** [a || b] on two element lookups. *)
Definition orElse {A} (a b : option A) : option A :=
  match a with
  | Some _ => a
  | None => b
  end.
Infix "|||" := orElse (at level 50, left associativity).

(** [const u = find('input#username') || ...]. *)
Definition usernameField (document : Document) : option Element :=
  let find := querySelector document in
  find "input#username" ||| find (attrSel "input" "name" "username")
  ||| find "input.username" ||| find (attrSel "input" "type" "email").

(** [const p = find('input#password') || ...]. *)
Definition passwordField (document : Document) : option Element :=
  let find := querySelector document in
  find "input#password" ||| find (attrSel "input" "name" "pw")
  ||| find (attrSel "input" "type" "password").

(** [const btn = find('input#Login') || ...]. *)
Definition submitControl (document : Document) : option Element :=
  let find := querySelector document in
  find "input#Login" ||| find (attrSel "input" "name" "Login")
  ||| find (attrSel "button" "type" "submit")
  ||| find (attrSel "input" "type" "submit").

(** [const form = find('form#login_form') || ... || u.closest('form')]. *)
Definition loginForm (document : Document) (u : Element) : option Element :=
  let find := querySelector document in
  find "form#login_form" ||| find (attrSel "form" "name" "login")
  ||| closest document u "form".

(** The operations [todo] one after the other, after [done]: the first
    error thrown, if any, and the operations performed, the one that
    threw not among them. *)
Fixpoint perform (document : Document) (done todo : list DomAction)
  : option string * list DomAction :=
  match todo with
  | [] => (None, done)
  | a :: rest =>
      match raises document done a with
      | Some e => (Some e, done)
      | None => perform document (done ++ [a])%list rest
      end
  end.

(** The eight statements that fill the two fields. *)
Definition typing (u p : Element) (username password : string)
  : list DomAction :=
  [ Focus u; SetValue u username;
    DispatchEvent u "input"; DispatchEvent u "change";
    Focus p; SetValue p password;
    DispatchEvent p "input"; DispatchEvent p "change" ].

(** The statement that submits, when there is one: [btn.click()], or
    else [form.submit()]. *)
Definition submission (document : Document) (u : Element)
  : option (DomAction * string) :=
  match submitControl document with
  | Some btn => Some (Click btn, "submitted")
  | None =>
      match loginForm document u with
      | Some form => Some (Submit form, "form submitted")
      | None => None
      end
  end.

(** The arrow function passed to [frame.evaluate]: its return value, or
    the error it throws, and the operations it performed on the
    document. *)
Definition loginPageFunction (document : Document) (username password : string)
  : Outcome FillResult * list DomAction :=
  match usernameField document, passwordField document with
  | None, _ => (Ok {| done := false; message := "no username field" |}, [])
  | Some _, None => (Ok {| done := false; message := "no password field" |}, [])
  | Some u, Some p =>
      match perform document [] (typing u p username password) with
      | (Some e, performed) => (Throw e, performed)
      | (None, typed) =>
          match submission document u with
          | Some (submit, said) =>
              match perform document typed [submit] with
              | (Some e, performed) => (Throw e, performed)
              | (None, performed) =>
                  (Ok {| done := true; message := said |}, performed)
              end
          | None => (Ok {| done := true; message := "filled, no button" |}, typed)
          end
      end
  end.

(* ===================================================================== *)
(** * The world outside the script *)
(* ===================================================================== *)

Inductive WaitUntil : Type := Load | DomContentLoaded.

(** The operating system, the browser, the site and the person at the
    keyboard, as a state machine over [W]. Each operation answers from the
    current world and moves it on. A frame is a live object: its URL is
    read from the world at the moment of the call. An evaluation in a
    frame has two halves: the world hands the frame's document to the
    injected function (or rejects), and then reacts to what the function
    did (a click may navigate, and the evaluation may then still reject).
    The two halves and a sleep report how much time they took beyond
    what was asked. The keyboard answers a question with the Enter key,
    or not at all: [enterPressed] is [None] when standard input ends
    before a line was read, and the question's callback is then never
    called. *)
Record Runtime (W : Type) : Type := mkRuntime {
  mkdir : string -> W -> Outcome unit * W;
  launchPersistentContext : option string -> W -> Outcome unit * W;
  addCookies : list json -> W -> Outcome unit * W;
  pages : W -> bool;
  newPage : W -> Outcome unit * W;
  goto : string -> WaitUntil -> Z -> W -> Outcome unit * W;
  url : W -> string;
  frames : W -> list Frame;
  mainFrame : W -> Frame;
  frameUrl : Frame -> W -> string;
  evaluateEnter : Frame -> W -> Outcome Document * N * W;
  evaluateLeave : Frame -> list DomAction -> W -> Outcome unit * N * W;
  sleep : Z -> W -> N * W;
  waitForLoadState : W -> Outcome unit * W;
  waitForSelector : string -> Z -> W -> Outcome unit * W;
  enterPressed : W -> option W;
  storageState : W -> Outcome string * W;
  close : W -> Outcome unit * W
}.

Variable W : Type.
Variable rt : Runtime W.

(** One argument of [console.log]. *)
Inductive Arg : Type :=
| AStr (s : string)
| ANum (n : Z)
| ABool (b : bool).

(** What a run does that can be seen from outside, one event per call. *)
Inductive Event : Type :=
| ConsoleLog (args : list Arg)
| ConsoleError (args : list Arg)
| MkdirSync (path : string)
| Launch (channel : option string)
| AddCookies (count : nat)
| NewPage
| Goto (target : string) (waitUntil : WaitUntil) (timeout : Z)
| Delay (ms : Z)
| Evaluate (frame : Frame)
| WaitForLoadState
| WaitForSelector (selector : string) (timeout : Z)
| WaitForEnter (prompt : string)
| StorageState (path : string)
| ContextClose.

(** The state a run threads through: the clock [Date.now()] reads, the
    world, the files, [process.exitCode], and the events so far (newest
    first). *)
Record State : Type := mkState {
  clock : Z;
  world : W;
  fs : FS;
  exitCode : option Z;
  out : list Event
}.

Definition emitS (e : Event) (st : State) : State :=
  {| clock := clock st; world := world st; fs := fs st;
     exitCode := exitCode st; out := e :: out st |}.

Definition setWorld (w : W) (st : State) : State :=
  {| clock := clock st; world := w; fs := fs st;
     exitCode := exitCode st; out := out st |}.

Definition setFs (f : FS) (st : State) : State :=
  {| clock := clock st; world := world st; fs := f;
     exitCode := exitCode st; out := out st |}.

Definition setExitCode (c : Z) (st : State) : State :=
  {| clock := clock st; world := world st; fs := fs st;
     exitCode := Some c; out := out st |}.

Definition tick (d : Z) (st : State) : State :=
  {| clock := clock st + d; world := world st; fs := fs st;
     exitCode := exitCode st; out := out st |}.

(** The events of a run in the order they happened. *)
Definition history (st : State) : list Event := rev (out st).

(* ===================================================================== *)
(** * The monad of the script *)
(* ===================================================================== *)

Definition M (A : Type) : Type := State -> Awaited A * State.

Definition ret {A} (a : A) : M A := fun st => (Ok a, st).

Definition throw {A} (e : string) : M A := fun st => (Throw (Raised e), st).

Definition bind {A B} (c : M A) (k : A -> M B) : M B :=
  fun st =>
    match c st with
    | (Ok a, st1) => k a st1
    | (Throw e, st1) => (Throw e, st1)
    end.

Notation "x <- c ;; k" := (bind c (fun x => k))
  (at level 61, c at next level, right associativity).
Notation "c ;;; k" := (bind c (fun _ => k))
  (at level 61, right associativity).

(** [try { body } catch (e) { handler e }]: the handler receives an
    error; a body that waits for ever is not caught. *)
Definition try_catch {A} (body : M A) (handler : string -> M A) : M A :=
  fun st =>
    match body st with
    | (Ok a, st1) => (Ok a, st1)
    | (Throw (Raised e), st1) => handler e st1
    | (Throw Pending, st1) => (Throw Pending, st1)
    end.

(** [try { body } finally { cleanup }]: the cleanup runs when the body
    returns and when it throws; when the cleanup ends abruptly, that
    replaces the outcome of the body. A body that waits for ever never
    reaches the cleanup. *)
Definition try_finally {A} (body : M A) (cleanup : M unit) : M A :=
  fun st =>
    match body st with
    | (Throw Pending, st1) => (Throw Pending, st1)
    | (r, st1) =>
        match cleanup st1 with
        | (Ok _, st2) => (r, st2)
        | (Throw e, st2) => (Throw e, st2)
        end
    end.

(** [promise.catch(() => {})]. *)
Definition swallow (c : M unit) : M unit :=
  try_catch c (fun _ => ret tt).

(** The promise of a call into the browser: fulfilled with the value,
    or rejected with the error. *)
Definition settle {A} (r : Outcome A) : Awaited A :=
  match r with
  | Ok a => Ok a
  | Throw e => Throw (Raised e)
  end.

(** A call into the world, recorded as event [e]. *)
Definition call {A} (e : Event) (op : W -> Outcome A * W) : M A :=
  fun st =>
    match op (world st) with
    | (r, w) => (settle r, setWorld w (emitS e st))
    end.

Definition console_log (args : list Arg) : M unit :=
  fun st => (Ok tt, emitS (ConsoleLog args) st).

Definition console_error (args : list Arg) : M unit :=
  fun st => (Ok tt, emitS (ConsoleError args) st).

(** [delay(ms)]: the clock moves by [ms] and by however late the timer
    fires; the world moves on meanwhile. *)
Definition delayS (ms : Z) (st : State) : State :=
  match sleep rt ms (world st) with
  | (late, w) => tick (ms + Z.of_N late) (setWorld w (emitS (Delay ms) st))
  end.

Definition delay (ms : Z) : M unit := fun st => (Ok tt, delayS ms st).

(* ===================================================================== *)
(** * The script: configuration and constants *)
(* ===================================================================== *)

(** What the process is started with: the two environment variables
    ([None] when unset), the flags [--headed] and [--debug], and the
    project root the paths are resolved against. *)
Record Config : Type := mkConfig {
  SF_USERNAME : option string;
  SF_PASSWORD : option string;
  HEADED : bool;
  DEBUG : bool;
  projectRoot : string
}.

Variable cfg : Config.

Definition SALESFORCE_URL : string := "https://test.salesforce.com/".
Definition SALESFORCE_HOME_URL : string :=
  "https://test.salesforce.com/lightning/page/home".
Definition AUTH_DIR : string := projectRoot cfg ++ "/.auth".
Definition BROWSER_PROFILE_DIR : string := AUTH_DIR ++ "/browser-profile".
Definition STATE_FILE : string := AUTH_DIR ++ "/salesforce-auth.json".

(** [log]: prints only under [--debug]. *)
Definition logS (args : list Arg) (st : State) : State :=
  if DEBUG cfg then emitS (ConsoleLog (AStr "[debug]" :: args)) st else st.

Definition log (args : list Arg) : M unit := fun st => (Ok tt, logS args st).

(** [waitForEnter(msg)]: the promise resolves in the callback of
    [rl.question], once the person has pressed Enter; when standard input
    ends first the callback is never called and the promise never
    settles. *)
Definition waitForEnter (msg : string) : M unit :=
  fun st =>
    let st0 := emitS (WaitForEnter msg) st in
    match enterPressed rt (world st) with
    | Some w => (Ok tt, setWorld w st0)
    | None => (Throw Pending, st0)
    end.

Definition page_url : M string := fun st => (Ok (url rt (world st)), st).

(* ===================================================================== *)
(** * Filling the login form *)
(* ===================================================================== *)

(** [fillLoginInFrame]: one evaluation of the injected function in a
    frame. It rejects when the world rejects either half, and with the
    error of the function when the function throws; the world has by then
    seen what the function did before it threw. *)
Definition fillLoginInFrame (frame : Frame) (user pass : string)
  : State -> Outcome FillResult * State :=
  fun st =>
    let st0 := emitS (Evaluate frame) st in
    match evaluateEnter rt frame (world st0) with
    | (Throw e, d, w) => (Throw e, tick (Z.of_N d) (setWorld w st0))
    | (Ok document, d, w) =>
        match loginPageFunction document user pass with
        | (returned, actions) =>
            match evaluateLeave rt frame actions w with
            | (reaction, d', w') =>
                (match returned, reaction with
                 | Throw e, _ => Throw e
                 | Ok _, Throw e => Throw e
                 | Ok result, Ok _ => Ok result
                 end,
                 tick (Z.of_N d + Z.of_N d') (setWorld w' st0))
            end
        end
    end.

(** The [try]/[catch] inside the loop of [waitAndFillFrame]: [Some] is
    the early [return result]. *)
Definition pollOnce (frame : Frame) (user pass : string) (st : State)
  : option FillResult * State :=
  match fillLoginInFrame frame user pass st with
  | (Ok result, st1) =>
      if done result then (Some result, st1)
      else (None, logS [AStr "Form not ready:"; AStr (message result)] st1)
  | (Throw e, st1) => (None, logS [AStr "Frame evaluate error:"; AStr e] st1)
  end.

Lemma clock_logS args st : clock (logS args st) = clock st.
Proof. unfold logS. destruct (DEBUG cfg); reflexivity. Qed.

Lemma clock_delayS ms st : clock st + ms <= clock (delayS ms st).
Proof.
  unfold delayS. destruct (sleep rt ms (world st)) as [late w]. simpl. lia.
Qed.

Lemma clock_fillLoginInFrame frame user pass st :
  clock st <= clock (snd (fillLoginInFrame frame user pass st)).
Proof.
  unfold fillLoginInFrame. simpl.
  destruct (evaluateEnter rt frame (world st)) as [[[document|e] d] w]; simpl.
  - destruct (loginPageFunction document user pass) as [result actions].
    destruct (evaluateLeave rt frame actions w) as [[[u|e] d'] w']; simpl; lia.
  - lia.
Qed.

Lemma clock_pollOnce frame user pass st :
  clock st <= clock (snd (pollOnce frame user pass st)).
Proof.
  unfold pollOnce.
  pose proof (clock_fillLoginInFrame frame user pass st) as H.
  destruct (fillLoginInFrame frame user pass st) as [[result|e] st1]; simpl in *.
  - destruct (done result); simpl; rewrite ?clock_logS; exact H.
  - rewrite clock_logS. exact H.
Qed.

(** The loop of [waitAndFillFrame], entered with [start] already read:
    [while (Date.now() - start < maxWaitMs) { ...; await delay(500); }]
    and the final [return { done: false, message: 'timeout' }]. *)
Equations? waitLoop (frame : Frame) (user pass : string)
  (start maxWaitMs : Z) (st : State) : FillResult * State
  by wf (Z.to_nat (start + maxWaitMs - clock st)) lt :=
waitLoop frame user pass start maxWaitMs st
  with Z_lt_dec (clock st - start) maxWaitMs := {
  | right _ => ({| done := false; message := "timeout" |}, st)
  | left _ with inspect (pollOnce frame user pass st) := {
    | exist _ (Some result, st1) _ => (result, st1)
    | exist _ (None, st1) _ =>
        waitLoop frame user pass start maxWaitMs (delayS 500 st1) } }.
Proof.
  pose proof (clock_pollOnce frame user pass st) as Hp.
  pose proof (clock_delayS 500 st1) as Hd.
  match goal with E : pollOnce _ _ _ _ = _ |- _ => rewrite E in Hp end.
  simpl in Hp. lia.
Qed.

(** [waitAndFillFrame(frame, user, pass, maxWaitMs)]. *)
Definition waitAndFillFrame (frame : Frame) (user pass : string)
  (maxWaitMs : Z) (st : State) : FillResult * State :=
  waitLoop frame user pass (clock st) maxWaitMs st.

Lemma clock_waitLoop frame user pass start maxWaitMs st :
  clock st <= clock (snd (waitLoop frame user pass start maxWaitMs st)).
Proof.
  funelim (waitLoop frame user pass start maxWaitMs st); simpl; try lia.
  all: pose proof (clock_pollOnce frame user pass st) as Hp.
  all: match goal with E : pollOnce _ _ _ _ = _ |- _ => rewrite E in Hp end.
  all: simpl in Hp; try exact Hp.
  pose proof (clock_delayS 500 st1) as Hd.
  match goal with IH : clock _ <= clock (snd (waitLoop _ _ _ _ _ _)) |- _ =>
    lia end.
Qed.

(** [page.frames().find((f) => f.url().includes('sessionserver'))]. *)
Definition hasMarker (w : W) (f : Frame) : bool :=
  includes (frameUrl rt f w) "sessionserver".

Definition findSessionFrame (w : W) : option Frame :=
  find (hasMarker w) (frames rt w).

(** One turn of the first loop of the login branch: [true] is the
    [break] with [loginFilled = true]; otherwise the turn ends with
    [await delay(800)]. *)
Definition pass1Iter (user pass : string) (st : State) : bool * State :=
  match findSessionFrame (world st) with
  | Some sessionFrame =>
      let st1 := logS [AStr "Found sessionserver frame, filling via JS..."] st in
      match waitAndFillFrame sessionFrame user pass 20000 st1 with
      | (result, st2) =>
          if done result
          then (true, logS [AStr "Login filled in sessionserver iframe:";
                            AStr (message result)] st2)
          else (false, delayS 800 st2)
      end
  | None => (false, delayS 800 st)
  end.

Lemma clock_pass1Iter user pass st st1 :
  pass1Iter user pass st = (false, st1) -> clock st + 800 <= clock st1.
Proof.
  unfold pass1Iter, waitAndFillFrame.
  destruct (findSessionFrame (world st)) as [f|].
  - set (st0 := logS _ st).
    pose proof (clock_waitLoop f user pass (clock st0) 20000 st0) as Hw.
    destruct (waitLoop f user pass (clock st0) 20000 st0) as [result st2].
    simpl in Hw. destruct (done result); intros E; inversion E; subst.
    pose proof (clock_delayS 800 st2). unfold st0 in Hw.
    rewrite clock_logS in Hw. lia.
  - intros E; inversion E; subst. apply clock_delayS.
Qed.

(** Pass 1: [while (Date.now() - pollStart < maxWait) { ... }] with
    [maxWait = 35000]; the result is [loginFilled]. *)
Equations? pass1Loop (user pass : string) (pollStart : Z) (st : State)
  : bool * State
  by wf (Z.to_nat (pollStart + 35000 - clock st)) lt :=
pass1Loop user pass pollStart st
  with Z_lt_dec (clock st - pollStart) 35000 := {
  | right _ => (false, st)
  | left _ with inspect (pass1Iter user pass st) := {
    | exist _ (true, st1) _ => (true, st1)
    | exist _ (false, st1) _ => pass1Loop user pass pollStart st1 } }.
Proof.
  match goal with E : pass1Iter _ _ _ = _ |- _ =>
    apply clock_pass1Iter in E end.
  lia.
Qed.

Definition pass1 (user pass : string) (st : State) : bool * State :=
  pass1Loop user pass (clock st) st.

(** Pass 2: the main frame. *)
Definition pass2 (user pass : string) (st : State) : bool * State :=
  let st0 := logS [AStr "Trying main frame..."] st in
  match waitAndFillFrame (mainFrame rt (world st0)) user pass 15000 st0 with
  | (result, st1) =>
      if done result
      then (true, logS [AStr "Login filled in main frame:";
                        AStr (message result)] st1)
      else (false, st1)
  end.

(** The [for (const frame of frames)] of pass 3, over the list read when
    the pass starts; the test that skips a frame reads the main frame and
    the frame's URL when the frame's turn comes. *)
Fixpoint pass3Loop (user pass : string) (remaining : list Frame) (st : State)
  : bool * State :=
  match remaining with
  | [] => (false, st)
  | frame :: rest =>
      if Nat.eqb frame (mainFrame rt (world st)) || hasMarker (world st) frame
      then pass3Loop user pass rest st
      else
        match waitAndFillFrame frame user pass 8000 st with
        | (result, st1) =>
            if done result
            then (true, logS [AStr "Login filled in frame:";
                              AStr (message result)] st1)
            else pass3Loop user pass rest st1
        end
  end.

Definition pass3 (user pass : string) (st : State) : bool * State :=
  pass3Loop user pass (frames rt (world st)) st.

(** The login branch, from the line that announces the credentials to
    the end of pass 3; the result is [loginFilled]. *)
Definition enterCredentials (username password : string) (st : State)
  : bool * State :=
  let st0 := emitS (ConsoleLog [AStr "Entering credentials in UI: username";
                                AStr username; AStr "password"; AStr password]) st in
  match pass1 username password st0 with
  | (true, st1) => (true, st1)
  | (false, st1) =>
      match pass2 username password st1 with
      | (true, st2) => (true, st2)
      | (false, st2) => pass3 username password st2
      end
  end.

(* ===================================================================== *)
(** * Probing for a live session *)
(* ===================================================================== *)

(** The test of the two branches that run when a state file exists. *)
Definition isLoggedInSaved (currentUrl : string) : bool :=
  negb (includes currentUrl "login")
  && (includes currentUrl "lightning" || includes currentUrl "my.salesforce.com").

(** [/lightning|home\.jsp|\.com\/home|Setup|secur\/frontdoor|salesforce\.com\/[a-z0-9]{15}/i.test(currentUrl)]. *)
Definition landingPattern (currentUrl : string) : bool :=
  let folded := toLower currentUrl in
  includes folded "lightning" || includes folded "home.jsp"
  || includes folded ".com/home" || includes folded "setup"
  || includes folded "secur/frontdoor" || matchesRecordId folded.

(** The test of the branch that opens the login page. *)
Definition isLoggedInFresh (currentUrl : string) : bool :=
  landingPattern currentUrl
  || (includes currentUrl "salesforce.com"
      && negb (includes currentUrl "/login")
      && negb (String.eqb currentUrl SALESFORCE_URL)).

Definition when (b : bool) (c : M unit) : M unit := if b then c else ret tt.

Definition navigate (target : string) (waitUntil : WaitUntil) (timeout : Z)
  : M unit :=
  call (Goto target waitUntil timeout) (goto rt target waitUntil timeout).

(** The branch taken when the saved state carries a Lightning URL. *)
Definition probeDashboard (base : string) : M bool :=
  let dashboardUrl := base ++ "/lightning/page/home" in
  console_log [AStr "Loading saved session and opening dashboard..."] ;;;
  log [AStr "Dashboard URL from state:"; AStr dashboardUrl] ;;;
  swallow (navigate dashboardUrl DomContentLoaded 30000) ;;;
  delay 3000 ;;;
  currentUrl <- page_url ;;
  let isLoggedInUrl := isLoggedInSaved currentUrl in
  log [AStr "URL after loading saved state:"; AStr currentUrl;
       AStr "isLoggedInUrl:"; ABool isLoggedInUrl] ;;;
  when isLoggedInUrl (console_log [AStr "Already logged in. Dashboard opened."]) ;;;
  ret isLoggedInUrl.

(** The branch taken when a state file exists without a Lightning URL. *)
Definition probeEntry : M bool :=
  swallow (navigate SALESFORCE_URL DomContentLoaded 30000) ;;;
  delay 3000 ;;;
  currentUrl <- page_url ;;
  let isLoggedInUrl := isLoggedInSaved currentUrl in
  when isLoggedInUrl (console_log [AStr "Already logged in."]) ;;;
  ret isLoggedInUrl.

(** The block under [if (!isLoggedInUrl)] that opens the login page. *)
Definition probeLoginPage : M bool :=
  navigate SALESFORCE_URL Load 60000 ;;;
  u <- page_url ;;
  log [AStr "URL after goto:"; AStr u] ;;;
  delay 5000 ;;;
  currentUrl <- page_url ;;
  let isLoggedInUrl := isLoggedInFresh currentUrl in
  log [AStr "URL after wait:"; AStr currentUrl;
       AStr "isLoggedInUrl:"; ABool isLoggedInUrl] ;;;
  when isLoggedInUrl
    (console_log [AStr "Already logged in. Opening dashboard..."] ;;;
     swallow (navigate SALESFORCE_HOME_URL DomContentLoaded 30000)) ;;;
  ret isLoggedInUrl.

(** [hasSavedState && savedStateData && savedStateData.lightningBaseUrl]:
    the URL when the conjunction is truthy. *)
Definition savedBaseUrl (hasSavedState : bool) (savedStateData : option Artifact)
  : option string :=
  if hasSavedState then
    match savedStateData with
    | Some a => match lightningBaseUrl a with
                | Some base => if String.eqb base "" then None else Some base
                | None => None
                end
    | None => None
    end
  else None.

(** The [if] / [else if] on the saved state; the result is
    [isLoggedInUrl], which starts [false]. *)
Definition probeSaved (hasSavedState : bool) (savedStateData : option Artifact)
  : M bool :=
  match savedBaseUrl hasSavedState savedStateData with
  | Some base => probeDashboard base
  | None => if hasSavedState then probeEntry else ret false
  end.

(** Everything that decides [isLoggedInUrl]. *)
Definition checkSavedSession (hasSavedState : bool)
  (savedStateData : option Artifact) : M bool :=
  isLoggedInUrl <- probeSaved hasSavedState savedStateData ;;
  if negb isLoggedInUrl then probeLoginPage else ret isLoggedInUrl.

(* ===================================================================== *)
(** * Saving the session *)
(* ===================================================================== *)

Definition otpSelectors : string :=
  "input[id*=" ++ dq ++ "otp" ++ dq ++ "], input[name*=" ++ dq ++ "otp" ++ dq
  ++ "], input[placeholder*=" ++ dq ++ "code" ++ dq
  ++ "], #emc, #tlkp_verify, .verify-identity, #smc".

Definition postLoginSelectors : string :=
  "div[id=" ++ dq ++ "content" ++ dq
  ++ "], [data-aura-rendered-by], .slds-global-header, #phHeader, .slds-page-header".

(** [context.storageState({ path })]: the snapshot the browser hands
    over replaces the file. *)
Definition saveStorageState (path : string) : M unit :=
  fun st =>
    match storageState rt (world st) with
    | (Ok snapshot, w) =>
        (Ok tt, setFs (writeFile (fs st) path snapshot)
                      (setWorld w (emitS (StorageState path) st)))
    | (Throw e, w) => (Throw (Raised e), setWorld w (emitS (StorageState path) st))
    end.

(** The [if (loginFilled) ... else if (!isLoggedInUrl) ...] after the
    login branch. *)
Definition persistSession (loginFilled isLoggedInUrl : bool) : M unit :=
  if loginFilled then
    console_log [AStr "Credentials entered from .env. Waiting for next page..."] ;;;
    call WaitForLoadState (waitForLoadState rt) ;;;
    otpVisible <- try_catch
                    (call (WaitForSelector otpSelectors 3000)
                          (waitForSelector rt otpSelectors 3000) ;;; ret true)
                    (fun _ => ret false) ;;
    when otpVisible
      (console_log [AStr "OTP/verification detected. Enter the code in the browser."]) ;;;
    (if HEADED cfg then
       console_log [AStr ""] ;;;
       console_log [AStr ">>> Complete OTP in the browser if asked. When you see the Salesforce dashboard, press Enter to SAVE session. <<<"] ;;;
       console_log [AStr ""] ;;;
       waitForEnter "Press Enter when you see the Salesforce dashboard (to save session for next run)..."
     else
       swallow (call (WaitForSelector postLoginSelectors 120000)
                     (waitForSelector rt postLoginSelectors 120000))) ;;;
    saveStorageState STATE_FILE ;;;
    console_log [AStr "Session saved to"; AStr STATE_FILE]
  else if negb isLoggedInUrl then
    when (DEBUG cfg)
      (u <- page_url ;;
       console_log [AStr "[debug] Login form not detected after checking all frames. URL:";
                    AStr u]) ;;;
    console_log [AStr "Already logged in (session from cookies)."]
  else ret tt.

(* ===================================================================== *)
(** * The flow *)
(* ===================================================================== *)

(** The two flags of the [try] block, as they stand when it ends. *)
Record Flags : Type := mkFlags {
  isLoggedInUrl : bool;
  loginFilled : bool
}.

(** The body of the [try] block. *)
Definition flow (username password : string) (hasSavedState : bool)
  (savedStateData : option Artifact) : M Flags :=
  logged <- checkSavedSession hasSavedState savedStateData ;;
  filled <- (if negb logged
             then fun st => match enterCredentials username password st with
                            | (b, st1) => (Ok b, st1)
                            end
             else ret false) ;;
  persistSession filled logged ;;;
  when (HEADED cfg) (waitForEnter "Press Enter to close the browser...") ;;;
  ret {| isLoggedInUrl := logged; loginFilled := filled |}.

Definition closeContext : M unit := call ContextClose (close rt).

(** [try { ... } catch (err) { console.error(err); process.exitCode = 1; }
     finally { await context.close(); }]. *)
Definition guarded (username password : string) (hasSavedState : bool)
  (savedStateData : option Artifact) : M unit :=
  try_finally
    (try_catch
       (flow username password hasSavedState savedStateData ;;; ret tt)
       (fun err => console_error [AStr err] ;;;
                   fun st => (Ok tt, setExitCode 1 st)))
    closeContext.

(** The launch: the two named channels in turn, each failure swallowed,
    then the bundled browser when no context was obtained. [launchNamed]
    answers whether [context] is set. *)
Fixpoint launchNamed (channels : list string) : M bool :=
  match channels with
  | [] => ret false
  | channel :: rest =>
      try_catch
        (call (Launch (Some channel))
              (launchPersistentContext rt (Some channel)) ;;;
         log [AStr "Using browser channel:"; AStr channel] ;;;
         ret true)
        (fun _ => launchNamed rest)
  end.

Definition launchBrowser : M unit :=
  context <- launchNamed ["chrome"; "msedge"] ;;
  if negb context then
    call (Launch None) (launchPersistentContext rt None) ;;;
    log [AStr "Using browser: bundled Chromium"]
  else ret tt.

Definition mkdirSync (path : string) : M unit :=
  call (MkdirSync path) (mkdir rt path) ;;;
  fun st => (Ok tt, setFs (fun p => if String.eqb p path then Directory
                                    else fs st p) st).

(** The cookies of the saved state are put into the context. *)
Definition seedCookies (hasSavedState : bool) : M (option Artifact) :=
  if hasSavedState then
    fun st =>
      match loadStateFile (fs st) STATE_FILE with
      | Throw e => (Throw (Raised e), st)
      | Ok savedStateData =>
          (when (Nat.ltb 0 (List.length (cookies savedStateData)))
             (call (AddCookies (List.length (cookies savedStateData)))
                   (addCookies rt (cookies savedStateData)) ;;;
              console_log [AStr "Loaded saved session from"; AStr STATE_FILE]) ;;;
           ret (Some savedStateData)) st
      end
  else ret None.

Definition fileExists (path : string) : M bool :=
  fun st => (Ok (existsSync (fs st) path), st).

(** [let page = context.pages()[0]; if (!page) page = await context.newPage();] *)
Definition firstPage : M unit :=
  fun st => if pages rt (world st) then (Ok tt, st)
            else call NewPage (newPage rt) st.

(** From the credentials line to the page, before the [try] block. The
    result is [hasSavedState] and [savedStateData]. *)
Definition prelude (username : string) : M (bool * option Artifact) :=
  console_log [AStr "Using credentials from .env (username length:";
               ANum (Z.of_nat (String.length username)); AStr ")"] ;;;
  authDir <- fileExists AUTH_DIR ;;
  when (negb authDir) (mkdirSync AUTH_DIR) ;;;
  profileDir <- fileExists BROWSER_PROFILE_DIR ;;
  when (negb profileDir) (mkdirSync BROWSER_PROFILE_DIR) ;;;
  hasSavedState <- fileExists STATE_FILE ;;
  launchBrowser ;;;
  savedStateData <- seedCookies hasSavedState ;;
  firstPage ;;;
  ret (hasSavedState, savedStateData).

(** How the process ends: [process.exit(code)], or the promise of
    [main] resolved, rejected, or never settled. *)
Inductive Completion : Type :=
| Exited (code : Z)
| Resolved
| Rejected (e : string)
| Unsettled.

Definition envOrEmpty (v : option string) : string :=
  match v with
  | Some s => s
  | None => ""
  end.

(** [main]. *)
Definition main (st : State) : Completion * State :=
  let username := trim (envOrEmpty (SF_USERNAME cfg)) in
  let password := trim (envOrEmpty (SF_PASSWORD cfg)) in
  if String.eqb username "" || String.eqb password "" then
    (Exited 1,
     emitS (ConsoleError [AStr "Current .env lookup: project root =";
                          AStr (projectRoot cfg)])
       (emitS (ConsoleError
                 [AStr "Set SF_USERNAME and SF_PASSWORD in .env (in the project root)."])
              st))
  else
    match (saved <- prelude username ;;
           guarded username password (fst saved) (snd saved)) st with
    | (Ok _, st1) => (Resolved, st1)
    | (Throw (Raised e), st1) => (Rejected e, st1)
    | (Throw Pending, st1) => (Unsettled, st1)
    end.

(* ===================================================================== *)
(** * Properties: strings and the saved session file *)
(* ===================================================================== *)

(** [t] occurs in [s]. *)
Definition contains (s t : string) : Prop :=
  exists a b, s = a ++ t ++ b.

Lemma stripPrefix_app t : forall s rest,
  stripPrefix t s = Some rest <-> s = t ++ rest.
Proof.
  induction t as [|c t IH]; intros s rest; simpl.
  - split; [intros E; now inversion E | now intros ->].
  - destruct s as [|c' s].
    + split; discriminate.
    + destruct (Ascii.eqb c c') eqn:E.
      * apply Ascii.eqb_eq in E. subst c'. rewrite IH.
        split; [now intros -> | intros H; now inversion H].
      * apply Ascii.eqb_neq in E.
        split; [discriminate | intros H; inversion H; subst; now elim E].
Qed.

Lemma startsWith_app s t : startsWith s t = true <-> exists b, s = t ++ b.
Proof.
  unfold startsWith. destruct (stripPrefix t s) as [rest|] eqn:E.
  - apply stripPrefix_app in E. split; [intros _; now exists rest | reflexivity].
  - split; [discriminate |]. intros [b Hb].
    apply stripPrefix_app in Hb. congruence.
Qed.

Lemma includes_contains s t : includes s t = true <-> contains s t.
Proof.
  induction s as [|c s IH]; simpl.
  - destruct (startsWith "" t) eqn:E.
    + split; [intros _ | reflexivity].
      apply startsWith_app in E. destruct E as [b Hb].
      exists "", b. exact Hb.
    + split; [discriminate |].
      intros [a [b H]]. destruct a; [|discriminate]. simpl in H.
      assert (startsWith "" t = true) by (apply startsWith_app; now exists b).
      congruence.
  - destruct (startsWith (String c s) t) eqn:E.
    + split; [intros _ | reflexivity].
      apply startsWith_app in E. destruct E as [b Hb].
      exists "", b. exact Hb.
    + rewrite IH. split.
      * intros [a [b H]]. exists (String c a), b. simpl. now rewrite H.
      * intros [a [b H]]. destruct a as [|c' a]; simpl in H.
        -- assert (startsWith (String c s) t = true)
             by (apply startsWith_app; now exists b).
           congruence.
        -- inversion H. now exists a, b.
Qed.

Lemma includes_false s t : includes s t = false <-> ~ contains s t.
Proof.
  rewrite <- includes_contains. destruct (includes s t); split; intros H;
    try reflexivity; try discriminate; try (intros H'; discriminate).
  exfalso. now apply H.
Qed.

(** A cookie that [find] passes over without throwing: an object whose
    [domain] is missing, or is a string in which the suffix does not
    occur. *)
Definition passedOver (c : json) : Prop :=
  exists props,
    c = JObj props /\
    (assoc "domain" props = None \/
     exists d, assoc "domain" props = Some (JStr d) /\
               includes d "lightning.force.com" = false).

Lemma isLightningCookie_passedOver c :
  passedOver c -> isLightningCookie c = Ok false.
Proof.
  intros [props [-> [H | [d [H Hd]]]]]; unfold isLightningCookie; simpl;
    rewrite H; simpl.
  - reflexivity.
  - destruct (String.eqb d ""); simpl; [reflexivity | now rewrite Hd].
Qed.

Lemma includes_nonempty d t :
  includes d t = true -> t <> "" -> String.eqb d "" = false.
Proof.
  intros H Ht. destruct d; [|reflexivity].
  simpl in H. destruct t; [contradiction | discriminate].
Qed.

Lemma findM_first before : forall c after,
  Forall passedOver before ->
  isLightningCookie c = Ok true ->
  findM isLightningCookie (before ++ c :: after) = Ok (Some c).
Proof.
  induction before as [|x before IH]; intros c after Hb Hc; simpl.
  - now rewrite Hc.
  - inversion Hb; subst.
    rewrite (isLightningCookie_passedOver H1). simpl. now apply IH.
Qed.

(** The saved state at [path] as the claims about [deriveEndpoint] take
    it: a readable file that parses to an object whose [cookies] is the
    array [items]. *)
Definition holdsCookies (files : FS) (path : string) (items : list json) : Prop :=
  exists raw props,
    files path = Content raw /\
    JSON_parse raw = Some (JObj props) /\
    assoc "cookies" props = Some (JArr items).

Lemma loadStateFile_try_cookies files path items :
  holdsCookies files path items ->
  loadStateFile_try files path = deriveArtifact (JArr items).
Proof.
  intros [raw [props [Hf [Hp Hc]]]].
  unfold loadStateFile_try, readFileSync, parse.
  rewrite Hf. simpl. rewrite Hp. simpl. rewrite Hc. reflexivity.
Qed.

(** C4: for a saved state with an empty cookie list the derived endpoint
    is none; for one whose only cookie has the domain
    [foo.lightning.force.com] it is [https://foo.lightning.force.com]; and
    in general the first cookie whose domain contains
    [lightning.force.com] decides: the endpoint is [https://] followed by
    that domain. In each case the cookies are returned as read. *)
Theorem derived_endpoint_of_cookies :
  forall files path items,
    holdsCookies files path items ->
    (items = [] -> loadStateFile files path = Ok emptyArtifact) /\
    (forall cprops,
        items = [JObj cprops] ->
        assoc "domain" cprops = Some (JStr "foo.lightning.force.com") ->
        loadStateFile files path =
          Ok {| cookies := items;
                lightningBaseUrl := Some "https://foo.lightning.force.com" |}) /\
    (forall before cprops d after,
        items = (before ++ JObj cprops :: after)%list ->
        Forall passedOver before ->
        assoc "domain" cprops = Some (JStr d) ->
        includes d "lightning.force.com" = true ->
        loadStateFile files path =
          Ok {| cookies := items; lightningBaseUrl := Some ("https://" ++ d) |}).
Proof.
  intros files path items Hholds.
  pose proof (loadStateFile_try_cookies Hholds) as Htry.
  assert (Hgen : forall before cprops d after,
             items = (before ++ JObj cprops :: after)%list ->
             Forall passedOver before ->
             assoc "domain" cprops = Some (JStr d) ->
             includes d "lightning.force.com" = true ->
             loadStateFile files path =
               Ok {| cookies := items;
                     lightningBaseUrl := Some ("https://" ++ d) |}).
  { intros before cprops d after Hi Hb Hd Hin.
    assert (Hne : String.eqb d "" = false)
      by (apply (@includes_nonempty d "lightning.force.com" Hin); discriminate).
    assert (Hhit : isLightningCookie (JObj cprops) = Ok true).
    { unfold isLightningCookie. simpl. rewrite Hd. simpl. rewrite Hne. simpl.
      now rewrite Hin. }
    unfold loadStateFile. rewrite Htry. unfold deriveArtifact.
    rewrite Hi at 1. rewrite (@findM_first before _ after Hb Hhit). simpl.
    rewrite Hd. simpl. rewrite Hne. reflexivity. }
  split; [|split].
  - intros ->. unfold loadStateFile. rewrite Htry. reflexivity.
  - intros cprops Hi Hd.
    apply (Hgen [] cprops "foo.lightning.force.com" []); auto.
  - exact Hgen.
Qed.

(** C5: loading the saved state never raises, whatever the path; when the
    file cannot be read or its text cannot be parsed (and on every other
    failure inside the function) the result is the empty artifact, with
    no cookies and no derived endpoint. *)
Theorem load_state_file_never_raises :
  forall files path,
    (exists a, loadStateFile files path = Ok a) /\
    (forall e, readFileSync files path = Throw e ->
               loadStateFile files path = Ok emptyArtifact) /\
    (forall raw, files path = Content raw -> JSON_parse raw = None ->
                 loadStateFile files path = Ok emptyArtifact) /\
    (forall e, loadStateFile_try files path = Throw e ->
               loadStateFile files path = Ok emptyArtifact) /\
    cookies emptyArtifact = [] /\ lightningBaseUrl emptyArtifact = None.
Proof.
  intros files path. repeat split.
  - unfold loadStateFile.
    destruct (loadStateFile_try files path) as [a|e]; eauto.
  - intros e He. unfold loadStateFile, loadStateFile_try. now rewrite He.
  - intros raw Hf Hp. unfold loadStateFile, loadStateFile_try, readFileSync, parse.
    rewrite Hf. simpl. now rewrite Hp.
  - intros e He. unfold loadStateFile. now rewrite He.
Qed.

(* ===================================================================== *)
(** * Reasoning about runs: postconditions *)
(* ===================================================================== *)

(** [post c Q st]: the run of [c] from [st] ends in an outcome and a state
    that satisfy [Q]. Every computation of the monad is total, so this is
    a statement about the one run there is. *)
Definition post {A} (c : M A) (Q : Awaited A -> State -> Prop) (st : State) : Prop :=
  Q (fst (c st)) (snd (c st)).

Lemma post_run {A} (c : M A) Q st r st1 :
  post c Q st -> c st = (r, st1) -> Q r st1.
Proof. unfold post. intros H E. now rewrite E in H. Qed.

Lemma post_conseq {A} (c : M A) (Q Q' : Awaited A -> State -> Prop) st :
  (forall r s, Q r s -> Q' r s) -> post c Q st -> post c Q' st.
Proof. unfold post. auto. Qed.

Lemma post_ret {A} (a : A) Q st : Q (Ok a) st -> post (ret a) Q st.
Proof. exact (fun H => H). Qed.

Lemma post_bind {A B} (c : M A) (k : A -> M B) Q st :
  post c (fun r s => match r with
                     | Ok a => post (k a) Q s
                     | Throw e => Q (Throw e) s
                     end) st ->
  post (bind c k) Q st.
Proof.
  unfold post, bind. destruct (c st) as [[a|e] s]; simpl; auto.
Qed.

Lemma post_try_catch {A} (body : M A) handler Q st :
  post body (fun r s => match r with
                        | Ok a => Q (Ok a) s
                        | Throw (Raised e) => post (handler e) Q s
                        | Throw Pending => Q (Throw Pending) s
                        end) st ->
  post (try_catch body handler) Q st.
Proof.
  unfold post, try_catch. destruct (body st) as [[a|[e|]] s]; simpl; auto.
Qed.

Lemma post_try_finally {A} (body : M A) cleanup Q st :
  post body (fun r s =>
               match r with
               | Throw Pending => Q (Throw Pending) s
               | _ => post cleanup (fun r2 s2 => match r2 with
                                                 | Ok _ => Q r s2
                                                 | Throw e => Q (Throw e) s2
                                                 end) s
               end) st ->
  post (try_finally body cleanup) Q st.
Proof.
  unfold post, try_finally. destruct (body st) as [[a|[e|]] s]; simpl; auto.
  - destruct (cleanup s) as [[u|e] s2]; simpl; auto.
  - destruct (cleanup s) as [[u|e'] s2]; simpl; auto.
Qed.

Lemma post_call {A} e (op : W -> Outcome A * W) Q st :
  (forall r w, op (world st) = (r, w) -> Q (settle r) (setWorld w (emitS e st))) ->
  post (call e op) Q st.
Proof.
  unfold post, call. intros H. destruct (op (world st)) as [r w] eqn:E.
  simpl. now apply H.
Qed.

Lemma post_console_log args Q st :
  Q (Ok tt) (emitS (ConsoleLog args) st) -> post (console_log args) Q st.
Proof. exact (fun H => H). Qed.

Lemma post_console_error args Q st :
  Q (Ok tt) (emitS (ConsoleError args) st) -> post (console_error args) Q st.
Proof. exact (fun H => H). Qed.

Lemma post_log args Q st : Q (Ok tt) (logS args st) -> post (log args) Q st.
Proof. exact (fun H => H). Qed.

Lemma post_delay ms Q st : Q (Ok tt) (delayS ms st) -> post (delay ms) Q st.
Proof. exact (fun H => H). Qed.

Lemma post_page_url Q st : Q (Ok (url rt (world st))) st -> post page_url Q st.
Proof. exact (fun H => H). Qed.

Lemma post_waitForEnter msg Q st :
  (forall w, enterPressed rt (world st) = Some w ->
             Q (Ok tt) (setWorld w (emitS (WaitForEnter msg) st))) ->
  (enterPressed rt (world st) = None ->
   Q (Throw Pending) (emitS (WaitForEnter msg) st)) ->
  post (waitForEnter msg) Q st.
Proof.
  unfold post, waitForEnter. intros Hs Hn.
  destruct (enterPressed rt (world st)) as [w|]; simpl; auto.
Qed.

Lemma post_when (b : bool) c Q st :
  (b = true -> post c Q st) -> (b = false -> Q (Ok tt) st) ->
  post (when b c) Q st.
Proof.
  intros Ht Hf. destruct b; [apply Ht | apply Hf]; reflexivity.
Qed.

(** One step of a postcondition proof, for the steps that do not
    branch on the world. *)
Ltac post_step :=
  first [ apply post_bind | apply post_ret | apply post_console_log
        | apply post_console_error | apply post_log | apply post_delay
        | apply post_page_url | apply post_waitForEnter
        | apply post_try_catch | apply post_try_finally ].

(* ===================================================================== *)
(** * Properties: the probe for a live session *)
(* ===================================================================== *)

Lemma world_logS args st : world (logS args st) = world st.
Proof. unfold logS. destruct (DEBUG cfg); reflexivity. Qed.

Lemma fs_logS args st : fs (logS args st) = fs st.
Proof. unfold logS. destruct (DEBUG cfg); reflexivity. Qed.

Lemma isLoggedInSaved_spec currentUrl :
  isLoggedInSaved currentUrl = true <->
  ~ contains currentUrl "login" /\
  (contains currentUrl "lightning" \/ contains currentUrl "my.salesforce.com").
Proof.
  unfold isLoggedInSaved.
  rewrite andb_true_iff, orb_true_iff, negb_true_iff.
  rewrite includes_false, !includes_contains. reflexivity.
Qed.

(** What both branches establish: no throw, and the answer is the
    classification of the URL the page shows when the branch ends. *)
Definition classifiedSaved (r : Awaited bool) (st1 : State) : Prop :=
  r = Ok (isLoggedInSaved (url rt (world st1))).

Lemma probeDashboard_post base st : post (probeDashboard base) classifiedSaved st.
Proof.
  unfold probeDashboard, swallow, navigate.
  repeat post_step. apply post_call. intros [u|e] w _; repeat post_step.
  all: apply post_when; intros; repeat post_step.
  all: unfold classifiedSaved; simpl; rewrite ?world_logS; reflexivity.
Qed.

Lemma probeEntry_post st : post probeEntry classifiedSaved st.
Proof.
  unfold probeEntry, swallow, navigate.
  repeat post_step. apply post_call. intros [u|e] w _; repeat post_step.
  all: apply post_when; intros; repeat post_step.
  all: unfold classifiedSaved; simpl; rewrite ?world_logS; reflexivity.
Qed.

Lemma probeSaved_post savedStateData st :
  post (probeSaved true savedStateData) classifiedSaved st.
Proof.
  unfold probeSaved. destruct (savedBaseUrl true savedStateData) as [base|].
  - apply probeDashboard_post.
  - apply probeEntry_post.
Qed.

(** C3: in the two probe stages that run when a saved state exists, the
    probe returns without raising, and it classifies the session as
    authenticated exactly when the page's URL does not contain [login]
    and contains [lightning] or [my.salesforce.com]. *)
Theorem saved_state_probe_classification :
  forall savedStateData st,
    exists b st1,
      probeSaved true savedStateData st = (Ok b, st1) /\
      (b = true <->
       ~ contains (url rt (world st1)) "login" /\
       (contains (url rt (world st1)) "lightning" \/
        contains (url rt (world st1)) "my.salesforce.com")).
Proof.
  intros savedStateData st.
  pose proof (probeSaved_post savedStateData st) as H.
  unfold post, classifiedSaved in H.
  destruct (probeSaved true savedStateData st) as [r st1]. simpl in H. subst r.
  exists (isLoggedInSaved (url rt (world st1))), st1.
  split; [reflexivity | apply isLoggedInSaved_spec].
Qed.

(* ===================================================================== *)
(** * Properties: one injection attempt *)
(* ===================================================================== *)

(** The document answers every operation: none throws. *)
Definition answers (document : Document) : Prop :=
  forall done a, raises document done a = None.

Lemma perform_answers document todo : forall done,
  answers document -> perform document done todo = (None, (done ++ todo)%list).
Proof.
  induction todo as [|a rest IH]; intros done H; simpl.
  - now rewrite app_nil_r.
  - rewrite (H done a), (IH _ H), <- app_assoc. reflexivity.
Qed.

(** [perform] stops at the first operation that throws, and has then
    performed the operations before it. *)
Lemma perform_spec document todo : forall done,
  match perform document done todo with
  | (None, performed) => performed = (done ++ todo)%list
  | (Some e, performed) =>
      exists before a after,
        todo = (before ++ a :: after)%list /\
        performed = (done ++ before)%list /\
        raises document performed a = Some e
  end.
Proof.
  induction todo as [|a rest IH]; intros done; simpl.
  - now rewrite app_nil_r.
  - destruct (raises document done a) as [e|] eqn:E.
    + exists [], a, rest. rewrite app_nil_r. auto.
    + specialize (IH (done ++ [a])%list).
      destruct (perform document (done ++ [a]) rest) as [[e|] performed].
      * destruct IH as [before [b [after [Ht [Hp Hr]]]]].
        exists (a :: before), b, after. subst rest.
        rewrite <- app_assoc in Hp. auto.
      * now rewrite <- app_assoc in IH.
Qed.

(** Everything the injected function would do in a document in which it
    found the two fields [u] and [p], and what it would then report. *)
Definition script (document : Document) (u p : Element)
  (username password : string) : list DomAction :=
  (typing u p username password
   ++ match submission document u with
      | Some (submit, _) => [submit]
      | None => []
      end)%list.

Definition said (document : Document) (u : Element) : string :=
  match submission document u with
  | Some (_, m) => m
  | None => "filled, no button"
  end.

(** The injected function, case by case: without both fields it
    touches nothing and reports which one is missing; with both it
    performs its script in order and reports done, or stops at the first
    operation that throws, with that error. *)
Lemma loginPageFunction_cases document username password :
  match usernameField document, passwordField document with
  | None, _ =>
      loginPageFunction document username password
      = (Ok {| done := false; message := "no username field" |}, [])
  | Some _, None =>
      loginPageFunction document username password
      = (Ok {| done := false; message := "no password field" |}, [])
  | Some u, Some p =>
      loginPageFunction document username password
      = (Ok {| done := true; message := said document u |},
         script document u p username password) \/
      exists e before a after,
        script document u p username password = (before ++ a :: after)%list /\
        raises document before a = Some e /\
        loginPageFunction document username password = (Throw e, before)
  end.
Proof.
  unfold loginPageFunction, script, said.
  destruct (usernameField document) as [u|]; [|reflexivity].
  destruct (passwordField document) as [p|]; [|reflexivity].
  pose proof (perform_spec document (typing u p username password) []) as Ht.
  destruct (perform document [] (typing u p username password))
    as [[e|] typed].
  - right. destruct Ht as [before [a [after [Ht [Hp Hr]]]]]. simpl in Hp.
    subst typed. exists e, before, a.
    destruct (submission document u) as [[submit m]|].
    + exists (after ++ [submit])%list. rewrite Ht, <- app_assoc. auto.
    + exists after. rewrite Ht, app_nil_r. auto.
  - simpl in Ht. subst typed.
    destruct (submission document u) as [[submit m]|];
      [|left; now rewrite app_nil_r].
    pose proof (perform_spec document [submit]
                  (typing u p username password)) as Hs.
    destruct (perform document (typing u p username password) [submit])
      as [[e|] performed].
    + right. destruct Hs as [before [a [after [Hs [Hp Hr]]]]].
      destruct before as [|b before]; simpl in Hs.
      * inversion Hs; subst. rewrite app_nil_r in Hr.
        exists e, (typing u p username password), a, []. rewrite app_nil_r.
        auto.
      * inversion Hs. destruct before; discriminate.
    + left. now subst performed.
Qed.

Lemma said_cases document u :
  match submitControl document, loginForm document u with
  | Some _, _ => said document u = "submitted"
  | None, Some _ => said document u = "form submitted"
  | None, None => said document u = "filled, no button"
  end.
Proof.
  unfold said, submission.
  destruct (submitControl document); [reflexivity |].
  destruct (loginForm document u); reflexivity.
Qed.

(** What [fillLoginInFrame] resolves to is what the injected function
    returned in the document the frame showed. *)
Lemma fillLoginInFrame_result frame user pass st result st1 :
  fillLoginInFrame frame user pass st = (Ok result, st1) ->
  exists document d w,
    evaluateEnter rt frame (world st) = (Ok document, d, w) /\
    fst (loginPageFunction document user pass) = Ok result.
Proof.
  unfold fillLoginInFrame. simpl.
  destruct (evaluateEnter rt frame (world st)) as [[[document|e] d] w];
    [|discriminate].
  destruct (loginPageFunction document user pass) as [[r|e] actions] eqn:E;
    destruct (evaluateLeave rt frame actions w) as [[[u|e'] d'] w'];
    try discriminate.
  intros H. inversion H; subst. exists document, d, w.
  split; [reflexivity | now rewrite E].
Qed.


(* ===================================================================== *)
(** * Properties: the launch *)
(* ===================================================================== *)

Definition launchOf (e : Event) : list (option string) :=
  match e with
  | Launch channel => [channel]
  | _ => []
  end.

(** The launches a run has attempted so far, oldest first; [None] is
    the bundled browser. *)
Definition launches (st : State) : list (option string) :=
  flat_map launchOf (history st).

Lemma launches_emitS e st :
  launches (emitS e st) = (launches st ++ launchOf e)%list.
Proof.
  unfold launches, history. simpl. rewrite flat_map_app. simpl.
  now rewrite app_nil_r.
Qed.

Lemma launches_setWorld w st : launches (setWorld w st) = launches st.
Proof. reflexivity. Qed.

Lemma launches_logS args st : launches (logS args st) = launches st.
Proof.
  unfold logS. destruct (DEBUG cfg); [|reflexivity].
  rewrite launches_emitS. simpl. now rewrite app_nil_r.
Qed.

(** C6: the launch tries [chrome], then [msedge], then the bundled
    browser, each only after the one before it failed; a failure of a
    named browser is swallowed; and the launch raises exactly when the
    bundled browser, tried last, fails as well (with that error). The
    worlds [w1], [w2], [w3] are the ones each attempt leaves behind. *)
Theorem launch_falls_back_in_order :
  forall st,
    let '(r1, w1) := launchPersistentContext rt (Some "chrome") (world st) in
    let '(r2, w2) := launchPersistentContext rt (Some "msedge") w1 in
    let '(r3, w3) := launchPersistentContext rt None w2 in
    let '(r, st1) := launchBrowser st in
    match r1, r2, r3 with
    | Ok _, _, _ =>
        r = Ok tt /\ world st1 = w1 /\
        launches st1 = (launches st ++ [Some "chrome"])%list
    | Throw _, Ok _, _ =>
        r = Ok tt /\ world st1 = w2 /\
        launches st1 = (launches st ++ [Some "chrome"; Some "msedge"])%list
    | Throw _, Throw _, Ok _ =>
        r = Ok tt /\ world st1 = w3 /\
        launches st1 = (launches st ++ [Some "chrome"; Some "msedge"; None])%list
    | Throw _, Throw _, Throw e =>
        r = Throw (Raised e) /\ world st1 = w3 /\
        launches st1 = (launches st ++ [Some "chrome"; Some "msedge"; None])%list
    end.
Proof.
  intros st.
  unfold launchBrowser, launchNamed, bind, try_catch, call, settle, log, ret.
  destruct (launchPersistentContext rt (Some "chrome") (world st))
    as [[u1|e1] w1] eqn:E1; simpl.
  - destruct (launchPersistentContext rt (Some "msedge") w1) as [r2 w2].
    destruct (launchPersistentContext rt None w2) as [r3 w3].
    repeat split; rewrite ?world_logS, ?launches_logS; try reflexivity.
    now rewrite launches_setWorld, launches_emitS.
  - destruct (launchPersistentContext rt (Some "msedge") w1)
      as [[u2|e2] w2] eqn:E2; simpl.
    + destruct (launchPersistentContext rt None w2) as [r3 w3].
      repeat split; rewrite ?world_logS, ?launches_logS; try reflexivity.
      rewrite launches_setWorld, launches_emitS, launches_setWorld,
        launches_emitS, <- app_assoc. reflexivity.
    + destruct (launchPersistentContext rt None w2) as [[u3|e3] w3] eqn:E3; simpl.
      all: repeat split; rewrite ?world_logS, ?launches_logS; try reflexivity.
      all: rewrite launches_setWorld, launches_emitS, launches_setWorld,
             launches_emitS, launches_setWorld, launches_emitS, <- !app_assoc;
           reflexivity.
Qed.

(* ===================================================================== *)
(** * Properties: what leaves the saved session file alone *)
(* ===================================================================== *)

Definition isSave (e : Event) : bool :=
  match e with
  | StorageState _ => true
  | _ => false
  end.

(** From [st] to [st1] no file changed and [storageState] was not
    called: the events of [st1] are those of [st] with others, none of
    them a [StorageState], put in front. *)
Definition steady (st st1 : State) : Prop :=
  fs st1 = fs st /\
  exists added, out st1 = (added ++ out st)%list /\
                forallb (fun e => negb (isSave e)) added = true.

Lemma steady_refl st : steady st st.
Proof. split; [reflexivity | exists []; split; reflexivity]. Qed.

Lemma steady_trans st st1 st2 : steady st st1 -> steady st1 st2 -> steady st st2.
Proof.
  intros [F1 [a1 [O1 N1]]] [F2 [a2 [O2 N2]]]. split; [congruence |].
  exists (a2 ++ a1)%list. split.
  - now rewrite O2, O1, app_assoc.
  - now rewrite forallb_app, N1, N2.
Qed.

Lemma steady_emitS e st : isSave e = false -> steady st (emitS e st).
Proof.
  intros H. split; [reflexivity | exists [e]; split; [reflexivity |]].
  simpl. now rewrite H.
Qed.

Lemma steady_setWorld w st : steady st (setWorld w st).
Proof. split; [reflexivity | exists []; split; reflexivity]. Qed.

Lemma steady_tick d st : steady st (tick d st).
Proof. split; [reflexivity | exists []; split; reflexivity]. Qed.

Lemma steady_setExitCode c st : steady st (setExitCode c st).
Proof. split; [reflexivity | exists []; split; reflexivity]. Qed.

(** Strips the outermost state update off the goal [steady st (f ... st')]. *)
Ltac peel :=
  repeat first
    [ apply steady_refl
    | eapply steady_trans; [| apply steady_tick ]
    | eapply steady_trans; [| apply steady_setWorld ]
    | eapply steady_trans; [| apply steady_setExitCode ]
    | eapply steady_trans; [| apply steady_emitS; reflexivity ] ].

Lemma steady_logS args st : steady st (logS args st).
Proof.
  unfold logS. destruct (DEBUG cfg); [now apply steady_emitS | apply steady_refl].
Qed.

Lemma steady_delayS ms st : steady st (delayS ms st).
Proof.
  unfold delayS. destruct (sleep rt ms (world st)) as [late w]. peel.
Qed.

(** A computation that is steady from wherever it starts. *)
Definition Quiet {A} (c : M A) : Prop :=
  forall st0 st, steady st0 st -> post c (fun _ s => steady st0 s) st.

(** The same for the loops, which return a value and a state. *)
Definition QuietS {X} (f : State -> X * State) : Prop :=
  forall st0 st, steady st0 st -> steady st0 (snd (f st)).

Lemma Quiet_ret {A} (a : A) : Quiet (ret a).
Proof. intros st0 st H. exact H. Qed.

Lemma Quiet_bind {A B} (c : M A) (k : A -> M B) :
  Quiet c -> (forall a, Quiet (k a)) -> Quiet (bind c k).
Proof.
  intros Hc Hk st0 st H. apply post_bind.
  eapply post_conseq; [|apply (Hc st0 st H)].
  intros [a|e] s Hs; [now apply Hk | exact Hs].
Qed.

Lemma Quiet_try_catch {A} (body : M A) handler :
  Quiet body -> (forall e, Quiet (handler e)) -> Quiet (try_catch body handler).
Proof.
  intros Hb Hh st0 st H. apply post_try_catch.
  eapply post_conseq; [|apply (Hb st0 st H)].
  intros [a|[e|]] s Hs; [exact Hs | now apply Hh | exact Hs].
Qed.

Lemma Quiet_call {A} e (op : W -> Outcome A * W) :
  isSave e = false -> Quiet (call e op).
Proof.
  intros He st0 st H. apply post_call. intros r w _.
  eapply steady_trans; [exact H |].
  eapply steady_trans; [| apply steady_setWorld]. now apply steady_emitS.
Qed.

Lemma Quiet_state (f : State -> State) :
  (forall st, steady st (f st)) -> Quiet (fun st => (Ok tt, f st)).
Proof.
  intros Hf st0 st H. unfold post. simpl.
  eapply steady_trans; [exact H | apply Hf].
Qed.

Lemma Quiet_console_log args : Quiet (console_log args).
Proof. apply Quiet_state. intros st. now apply steady_emitS. Qed.

Lemma Quiet_console_error args : Quiet (console_error args).
Proof. apply Quiet_state. intros st. now apply steady_emitS. Qed.

Lemma Quiet_log args : Quiet (log args).
Proof. apply Quiet_state. apply steady_logS. Qed.

Lemma Quiet_delay ms : Quiet (delay ms).
Proof. apply Quiet_state. apply steady_delayS. Qed.

Lemma Quiet_page_url : Quiet page_url.
Proof. intros st0 st H. exact H. Qed.

Lemma Quiet_waitForEnter msg : Quiet (waitForEnter msg).
Proof.
  intros st0 st H. apply post_waitForEnter; intros; 
    (eapply steady_trans; [exact H |]); peel.
Qed.

Lemma Quiet_when b c : Quiet c -> Quiet (when b c).
Proof. intros H. destruct b; [exact H | apply Quiet_ret]. Qed.

Lemma Quiet_navigate target waitUntil timeout :
  Quiet (navigate target waitUntil timeout).
Proof. now apply Quiet_call. Qed.

Lemma Quiet_swallow c : Quiet c -> Quiet (swallow c).
Proof. intros H. apply Quiet_try_catch; [exact H | intros; apply Quiet_ret]. Qed.

Ltac quiet :=
  repeat first
    [ apply Quiet_bind; [|intros ?] | apply Quiet_ret | apply Quiet_console_log
    | apply Quiet_console_error | apply Quiet_log | apply Quiet_delay
    | apply Quiet_page_url | apply Quiet_waitForEnter | apply Quiet_when
    | apply Quiet_swallow | apply Quiet_navigate
    | apply Quiet_call; reflexivity ].

Lemma Quiet_probeSaved hasSavedState savedStateData :
  Quiet (probeSaved hasSavedState savedStateData).
Proof.
  unfold probeSaved.
  destruct (savedBaseUrl hasSavedState savedStateData) as [base|].
  - unfold probeDashboard. quiet.
  - destruct hasSavedState; [unfold probeEntry; quiet | apply Quiet_ret].
Qed.

Lemma Quiet_probeLoginPage : Quiet probeLoginPage.
Proof. unfold probeLoginPage. quiet. Qed.

Lemma Quiet_checkSavedSession hasSavedState savedStateData :
  Quiet (checkSavedSession hasSavedState savedStateData).
Proof.
  unfold checkSavedSession. apply Quiet_bind; [apply Quiet_probeSaved |].
  intros [|]; [apply Quiet_ret | apply Quiet_probeLoginPage].
Qed.

Lemma steady_fillLoginInFrame frame user pass st :
  steady st (snd (fillLoginInFrame frame user pass st)).
Proof.
  unfold fillLoginInFrame.
  destruct (evaluateEnter rt frame (world (emitS (Evaluate frame) st)))
    as [[[document|e] d] w].
  - destruct (loginPageFunction document user pass) as [result actions].
    destruct (evaluateLeave rt frame actions w) as [[[u|e] d'] w']; simpl.
    all: peel.
  - simpl. peel.
Qed.

Lemma steady_pollOnce frame user pass st :
  steady st (snd (pollOnce frame user pass st)).
Proof.
  unfold pollOnce. pose proof (steady_fillLoginInFrame frame user pass st) as H.
  destruct (fillLoginInFrame frame user pass st) as [[result|e] st1]; simpl in *.
  - destruct (done result); simpl; [exact H |].
    eapply steady_trans; [exact H | apply steady_logS].
  - eapply steady_trans; [exact H | apply steady_logS].
Qed.

Lemma steady_waitLoop frame user pass start maxWaitMs st :
  steady st (snd (waitLoop frame user pass start maxWaitMs st)).
Proof.
  funelim (waitLoop frame user pass start maxWaitMs st); simpl;
    try apply steady_refl.
  all: pose proof (steady_pollOnce frame user pass st) as Hp.
  all: match goal with E : pollOnce _ _ _ _ = _ |- _ => rewrite E in Hp end.
  all: simpl in Hp; try exact Hp.
  eapply steady_trans; [exact Hp |].
  eapply steady_trans; [apply steady_delayS |].
  match goal with IH : steady _ (snd (waitLoop _ _ _ _ _ _)) |- _ => exact IH end.
Qed.

Lemma steady_waitAndFillFrame frame user pass maxWaitMs st :
  steady st (snd (waitAndFillFrame frame user pass maxWaitMs st)).
Proof. apply steady_waitLoop. Qed.

Lemma steady_pass1Iter user pass st : steady st (snd (pass1Iter user pass st)).
Proof.
  unfold pass1Iter. destruct (findSessionFrame (world st)) as [f|]; simpl.
  - set (st0 := logS _ st).
    pose proof (steady_waitAndFillFrame f user pass 20000 st0) as Hw.
    destruct (waitAndFillFrame f user pass 20000 st0) as [result st2].
    simpl in Hw.
    assert (H0 : steady st st2)
      by (eapply steady_trans; [apply steady_logS | exact Hw]).
    destruct (done result); simpl.
    + eapply steady_trans; [exact H0 | apply steady_logS].
    + eapply steady_trans; [exact H0 | apply steady_delayS].
  - apply steady_delayS.
Qed.

Lemma steady_pass1Loop user pass pollStart st :
  steady st (snd (pass1Loop user pass pollStart st)).
Proof.
  funelim (pass1Loop user pass pollStart st); simpl; try apply steady_refl.
  all: pose proof (steady_pass1Iter user pass st) as Hp.
  all: match goal with E : pass1Iter _ _ _ = _ |- _ => rewrite E in Hp end.
  all: simpl in Hp; try exact Hp.
  eapply steady_trans; [exact Hp |].
  match goal with IH : steady _ (snd (pass1Loop _ _ _ _)) |- _ => exact IH end.
Qed.

Lemma steady_pass2 user pass st : steady st (snd (pass2 user pass st)).
Proof.
  unfold pass2. set (st0 := logS _ st).
  pose proof (steady_waitAndFillFrame (mainFrame rt (world st0)) user pass 15000 st0)
    as Hw.
  destruct (waitAndFillFrame (mainFrame rt (world st0)) user pass 15000 st0)
    as [result st1].
  simpl in Hw.
  assert (H0 : steady st st1)
    by (eapply steady_trans; [apply steady_logS | exact Hw]).
  destruct (done result); simpl; [|exact H0].
  eapply steady_trans; [exact H0 | apply steady_logS].
Qed.

Lemma steady_pass3Loop user pass remaining : forall st,
  steady st (snd (pass3Loop user pass remaining st)).
Proof.
  induction remaining as [|frame rest IH]; intros st; simpl.
  - apply steady_refl.
  - destruct (Nat.eqb frame (mainFrame rt (world st)) || hasMarker (world st) frame).
    + apply IH.
    + pose proof (steady_waitAndFillFrame frame user pass 8000 st) as Hw.
      destruct (waitAndFillFrame frame user pass 8000 st) as [result st1].
      simpl in Hw. destruct (done result); simpl.
      * eapply steady_trans; [exact Hw | apply steady_logS].
      * eapply steady_trans; [exact Hw | apply IH].
Qed.

(** The login branch is steady from its first line on. *)
Lemma steady_enterCredentials_announced username password st :
  steady (emitS (ConsoleLog [AStr "Entering credentials in UI: username";
                             AStr username; AStr "password"; AStr password]) st)
         (snd (enterCredentials username password st)).
Proof.
  unfold enterCredentials, pass1, pass3.
  set (st0 := emitS _ st).
  pose proof (steady_pass1Loop username password (clock st0) st0) as H1.
  destruct (pass1Loop username password (clock st0) st0) as [[|] st1];
    simpl in H1; [exact H1 |].
  pose proof (steady_pass2 username password st1) as H2.
  destruct (pass2 username password st1) as [[|] st2]; simpl in *.
  - eapply steady_trans; eassumption.
  - eapply steady_trans; [exact H1 |].
    eapply steady_trans; [exact H2 | apply steady_pass3Loop].
Qed.

Lemma steady_enterCredentials username password st :
  steady st (snd (enterCredentials username password st)).
Proof.
  eapply steady_trans; [|apply steady_enterCredentials_announced].
  now apply steady_emitS.
Qed.

Lemma Quiet_persistSession_unfilled isLoggedIn :
  Quiet (persistSession false isLoggedIn).
Proof. unfold persistSession. destruct isLoggedIn; simpl; quiet. Qed.

(** A computation that, when it throws or stops at a wait, has left
    every file as it was. *)
Definition ThrowKeeps {A} (c : M A) : Prop :=
  forall st0 st, fs st = fs st0 ->
    post c (fun r s => match r with
                       | Ok _ => True
                       | Throw _ => fs s = fs st0
                       end) st.

Lemma ThrowKeeps_bind {A B} (c : M A) (k : A -> M B) :
  Quiet c -> (forall a, ThrowKeeps (k a)) -> ThrowKeeps (bind c k).
Proof.
  intros Hc Hk st0 st H. apply post_bind.
  eapply post_conseq; [|apply (Hc st st (steady_refl st))].
  intros [a|e] s [Hs _]; simpl in *.
  - apply Hk. congruence.
  - congruence.
Qed.

Lemma ThrowKeeps_save path args :
  ThrowKeeps (saveStorageState path ;;; console_log args).
Proof.
  intros st0 st H. unfold post, bind, saveStorageState, console_log.
  destruct (storageState rt (world st)) as [[snapshot|e] w]; simpl;
    [exact I | exact H].
Qed.

(** When credentials were submitted, the file changes only if the block
    reaches the call of [storageState] and that call succeeds: a throw
    leaves every file as it was, and so does the keyboard wait before the
    call when it never returns. *)
Lemma ThrowKeeps_persistSession_filled isLoggedIn :
  ThrowKeeps (persistSession true isLoggedIn).
Proof.
  unfold persistSession.
  apply ThrowKeeps_bind; [quiet | intros ?].
  apply ThrowKeeps_bind; [quiet | intros ?].
  apply ThrowKeeps_bind;
    [apply Quiet_try_catch; [|intros ?]; quiet | intros otpVisible].
  apply ThrowKeeps_bind; [quiet | intros ?].
  apply ThrowKeeps_bind; [destruct (HEADED cfg); quiet | intros ?].
  apply ThrowKeeps_save.
Qed.

Lemma steady_fs st st1 : steady st st1 -> fs st1 = fs st.
Proof. now intros [H _]. Qed.

(** The end of the [try] block, from the block that saves the session
    on. *)
Lemma flow_tail_post filled logged st0 s :
  steady st0 s ->
  post (persistSession filled logged ;;;
        when (HEADED cfg) (waitForEnter "Press Enter to close the browser...") ;;;
        ret {| isLoggedInUrl := logged; loginFilled := filled |})
       (fun r s1 => match r with
                    | Ok flags => flags = {| isLoggedInUrl := logged;
                                             loginFilled := filled |} /\
                                  (filled = false -> steady st0 s1)
                    | Throw (Raised _) => fs s1 = fs st0
                    | Throw Pending => filled = false -> steady st0 s1
                    end) s.
Proof.
  intros Hs. destruct filled.
  - apply post_bind.
    eapply post_conseq;
      [|apply (@ThrowKeeps_persistSession_filled logged st0 s (steady_fs Hs))].
    intros [u|[e|]] s2 H2; simpl; [|exact H2 | discriminate].
    apply post_bind. destruct (HEADED cfg); simpl.
    + apply post_waitForEnter; simpl; [intros w _ |]; try discriminate.
      split; [reflexivity | discriminate].
    + apply post_ret. simpl. split; [reflexivity | discriminate].
  - apply post_bind.
    eapply post_conseq;
      [|apply (@Quiet_persistSession_unfilled logged st0 s Hs)].
    intros [u|[e|]] s2 H2; simpl; [|now apply steady_fs | now intros _].
    apply post_bind. destruct (HEADED cfg); simpl.
    + apply post_waitForEnter; simpl.
      * intros w _. split; [reflexivity | intros _].
        eapply steady_trans; [exact H2 | peel].
      * intros _ _. eapply steady_trans; [exact H2 | peel].
    + apply post_ret. simpl. split; [reflexivity | now intros _].
Qed.

(** The probe of the [try] block answered that no session is alive,
    and the login branch then ended with [loginFilled] true. *)
Definition submitted (username password : string) (hasSavedState : bool)
  (savedStateData : option Artifact) (st : State) : Prop :=
  exists s,
    checkSavedSession hasSavedState savedStateData st = (Ok false, s) /\
    fst (enterCredentials username password s) = true.

(** The [try] block: whenever it ends with [loginFilled] false, no file
    has changed and [storageState] was never called; when it throws, no
    file has changed either; and when it stops at a keyboard wait that
    never returns, the same holds unless credentials had been
    submitted. *)
Lemma flow_writes_only_after_submission :
  forall username password hasSavedState savedStateData st r st1,
    flow username password hasSavedState savedStateData st = (r, st1) ->
    match r with
    | Ok flags =>
        (isLoggedInUrl flags = true -> loginFilled flags = false) /\
        (forall s, checkSavedSession hasSavedState savedStateData st = (Ok false, s) ->
                   loginFilled flags = fst (enterCredentials username password s)) /\
        (loginFilled flags = false -> steady st st1)
    | Throw (Raised _) => fs st1 = fs st
    | Throw Pending =>
        submitted username password hasSavedState savedStateData st \/
        steady st st1
    end.
Proof.
  intros username password hasSavedState savedStateData st r st1 Hrun.
  unfold flow in Hrun. unfold bind at 1 in Hrun.
  pose proof (@Quiet_checkSavedSession hasSavedState savedStateData st st
                (steady_refl st))
    as Hprobe.
  unfold post in Hprobe.
  destruct (checkSavedSession hasSavedState savedStateData st)
    as [[logged|e] s] eqn:Eprobe; simpl in Hprobe.
  2: { inversion Hrun; subst. destruct e; [now apply steady_fs | now right]. }
  unfold bind at 1 in Hrun. destruct logged; simpl in Hrun.
  - pose proof (@post_run _ _ _ _ _ _ (flow_tail_post false true Hprobe) Hrun) as Hq.
    destruct r as [flags|[e|]]; [|exact Hq | right; now apply Hq].
    destruct Hq as [-> Hq]. simpl. split; [reflexivity | split; [|exact Hq]].
    intros s' Hs'. discriminate.
  - pose proof (steady_enterCredentials username password s) as Henter.
    destruct (enterCredentials username password s) as [filled s2] eqn:Eenter.
    simpl in Henter.
    assert (Hs2 : steady st s2) by (eapply steady_trans; eassumption).
    pose proof (@post_run _ _ _ _ _ _ (flow_tail_post filled false Hs2) Hrun) as Hq.
    destruct r as [flags|[e|]]; [|exact Hq |].
    + destruct Hq as [-> Hq]. simpl. split; [discriminate | split; [|exact Hq]].
      intros s' Hs'. inversion Hs'; subst. now rewrite Eenter.
    + destruct filled; [left | right; now apply Hq].
      exists s. split; [exact Eprobe | now rewrite Eenter].
Qed.

Lemma Quiet_fileExists path : Quiet (fileExists path).
Proof. intros st0 st H. exact H. Qed.

Lemma Quiet_launchNamed channels : Quiet (launchNamed channels).
Proof.
  induction channels as [|channel rest IH]; simpl; [apply Quiet_ret |].
  apply Quiet_try_catch; [quiet | intros _; exact IH].
Qed.

Lemma Quiet_launchBrowser : Quiet launchBrowser.
Proof.
  unfold launchBrowser. apply Quiet_bind; [apply Quiet_launchNamed |].
  intros [|]; simpl; quiet.
Qed.

Lemma Quiet_seedCookies hasSavedState : Quiet (seedCookies hasSavedState).
Proof.
  unfold seedCookies. destruct hasSavedState; [|apply Quiet_ret].
  intros st0 st H. unfold post.
  destruct (loadStateFile (fs st) STATE_FILE) as [savedStateData|e]; [|exact H].
  assert (Hq : Quiet
    (when (Nat.ltb 0 (List.length (cookies savedStateData)))
       (call (AddCookies (List.length (cookies savedStateData)))
             (addCookies rt (cookies savedStateData)) ;;;
        console_log [AStr "Loaded saved session from"; AStr STATE_FILE]) ;;;
     ret (Some savedStateData))) by quiet.
  exact (Hq st0 st H).
Qed.

Lemma Quiet_firstPage : Quiet firstPage.
Proof.
  intros st0 st H. unfold firstPage, post.
  destruct (pages rt (world st)); [exact H |].
  assert (Hq : Quiet (call NewPage (newPage rt))) by quiet.
  exact (Hq st0 st H).
Qed.

Lemma string_length_append a b :
  String.length (a ++ b) = (String.length a + String.length b)%nat.
Proof. induction a as [|c a IH]; simpl; [reflexivity | now rewrite IH]. Qed.

Lemma append_cancel_l a b c : a ++ b = a ++ c -> b = c.
Proof.
  induction a as [|x a IH]; simpl; intros H; [exact H |].
  inversion H. now apply IH.
Qed.

Lemma STATE_FILE_not_AUTH_DIR : String.eqb STATE_FILE AUTH_DIR = false.
Proof.
  apply String.eqb_neq. unfold STATE_FILE. intros H.
  apply (f_equal String.length) in H. rewrite string_length_append in H.
  simpl in H. lia.
Qed.

Lemma STATE_FILE_not_BROWSER_PROFILE_DIR :
  String.eqb STATE_FILE BROWSER_PROFILE_DIR = false.
Proof.
  apply String.eqb_neq. unfold STATE_FILE, BROWSER_PROFILE_DIR. intros H.
  apply append_cancel_l in H. discriminate H.
Qed.

(** A computation that leaves what is at the state file's path as it
    was. *)
Definition KeepsStateFile {A} (c : M A) : Prop :=
  forall st0 st, fs st STATE_FILE = fs st0 STATE_FILE ->
    post c (fun _ s => fs s STATE_FILE = fs st0 STATE_FILE) st.

Lemma Quiet_KeepsStateFile {A} (c : M A) : Quiet c -> KeepsStateFile c.
Proof.
  intros Hq st0 st H.
  eapply post_conseq; [|apply (Hq st st (steady_refl st))].
  intros r s [Hfs _]. simpl. now rewrite Hfs.
Qed.

Lemma KeepsStateFile_bind {A B} (c : M A) (k : A -> M B) :
  KeepsStateFile c -> (forall a, KeepsStateFile (k a)) ->
  KeepsStateFile (bind c k).
Proof.
  intros Hc Hk st0 st H. apply post_bind.
  eapply post_conseq; [|apply (Hc st0 st H)].
  intros [a|e] s Hs; [now apply Hk | exact Hs].
Qed.

Lemma KeepsStateFile_mkdirSync path :
  String.eqb STATE_FILE path = false -> KeepsStateFile (mkdirSync path).
Proof.
  intros Hne. unfold mkdirSync. apply KeepsStateFile_bind.
  - apply Quiet_KeepsStateFile. quiet.
  - intros _ st0 st H. unfold post. simpl. now rewrite Hne.
Qed.

Lemma KeepsStateFile_when b c : KeepsStateFile c -> KeepsStateFile (when b c).
Proof.
  intros H. destruct b; [exact H | apply Quiet_KeepsStateFile, Quiet_ret].
Qed.

Lemma KeepsStateFile_prelude username : KeepsStateFile (prelude username).
Proof.
  unfold prelude.
  apply KeepsStateFile_bind; [apply Quiet_KeepsStateFile; quiet | intros _].
  apply KeepsStateFile_bind;
    [apply Quiet_KeepsStateFile, Quiet_fileExists | intros authDir].
  apply KeepsStateFile_bind; [| intros _].
  { apply KeepsStateFile_when, KeepsStateFile_mkdirSync, STATE_FILE_not_AUTH_DIR. }
  apply KeepsStateFile_bind;
    [apply Quiet_KeepsStateFile, Quiet_fileExists | intros profileDir].
  apply KeepsStateFile_bind; [| intros _].
  { apply KeepsStateFile_when, KeepsStateFile_mkdirSync,
      STATE_FILE_not_BROWSER_PROFILE_DIR. }
  apply KeepsStateFile_bind;
    [apply Quiet_KeepsStateFile, Quiet_fileExists | intros hasSavedState].
  apply KeepsStateFile_bind;
    [apply Quiet_KeepsStateFile, Quiet_launchBrowser | intros _].
  apply KeepsStateFile_bind;
    [apply Quiet_KeepsStateFile, Quiet_seedCookies | intros savedStateData].
  apply KeepsStateFile_bind;
    [apply Quiet_KeepsStateFile, Quiet_firstPage | intros _].
  apply Quiet_KeepsStateFile, Quiet_ret.
Qed.

(** The [catch] and the [finally] leave the files as the block they
    guard left them. *)
Lemma guarded_keeps_files username password hasSavedState savedStateData st :
  fs (snd (guarded username password hasSavedState savedStateData st))
  = fs (snd (flow username password hasSavedState savedStateData st)).
Proof.
  unfold guarded, try_finally, try_catch, bind, ret, console_error,
    closeContext, call.
  destruct (flow username password hasSavedState savedStateData st)
    as [[flags|[e|]] s0]; simpl.
  - destruct (close rt (world s0)) as [[[]|e] w]; reflexivity.
  - destruct (close rt (world s0)) as [[[]|e'] w]; reflexivity.
  - reflexivity.
Qed.

(** C9: the saved session file is written only on the path where
    credentials were submitted. In the [try] block, whenever it ends with
    [loginFilled] false, which is the case when the probe classified the
    session as authenticated and when the three passes (the run of
    [enterCredentials] after the probe) all reported not-done, no file
    has changed and [storageState] was never called, and when the block
    throws no file has changed either; when the block stops at a
    keyboard wait that never returns, the same holds unless the probe
    had answered unauthenticated and the passes had ended with
    [loginFilled] true. For the whole of [main]: when the state file
    differs after the run, the run got past the steps before the [try]
    block, the probe answered unauthenticated and the login branch ended
    with [loginFilled] true, the block ending with these two flags or
    stopping at the keyboard wait that follows the save. *)
Theorem session_file_written_only_after_submission :
  (forall username password hasSavedState savedStateData st r st1,
      flow username password hasSavedState savedStateData st = (r, st1) ->
      match r with
      | Ok flags =>
          (isLoggedInUrl flags = true -> loginFilled flags = false) /\
          (forall s, checkSavedSession hasSavedState savedStateData st = (Ok false, s) ->
                     loginFilled flags = fst (enterCredentials username password s)) /\
          (loginFilled flags = false -> steady st st1)
      | Throw (Raised _) => fs st1 = fs st
      | Throw Pending =>
          submitted username password hasSavedState savedStateData st \/
          steady st st1
      end) /\
  (forall st completion st1,
      main st = (completion, st1) ->
      fs st1 STATE_FILE <> fs st STATE_FILE ->
      exists hasSavedState savedStateData s0 s1,
        prelude (trim (envOrEmpty (SF_USERNAME cfg))) st
        = (Ok (hasSavedState, savedStateData), s0) /\
        submitted (trim (envOrEmpty (SF_USERNAME cfg)))
                  (trim (envOrEmpty (SF_PASSWORD cfg)))
                  hasSavedState savedStateData s0 /\
        (flow (trim (envOrEmpty (SF_USERNAME cfg)))
              (trim (envOrEmpty (SF_PASSWORD cfg)))
              hasSavedState savedStateData s0
         = (Ok {| isLoggedInUrl := false; loginFilled := true |}, s1) \/
         flow (trim (envOrEmpty (SF_USERNAME cfg)))
              (trim (envOrEmpty (SF_PASSWORD cfg)))
              hasSavedState savedStateData s0
         = (Throw Pending, s1))).
Proof.
  split; [exact flow_writes_only_after_submission |].
  intros st completion st1 Hmain Hdiff. unfold main in Hmain.
  set (username := trim (envOrEmpty (SF_USERNAME cfg))) in *.
  set (password := trim (envOrEmpty (SF_PASSWORD cfg))) in *.
  destruct (String.eqb username "" || String.eqb password "").
  { inversion Hmain; subst. now elim Hdiff. }
  unfold bind in Hmain.
  pose proof (@KeepsStateFile_prelude username st st eq_refl) as Hpre.
  unfold post in Hpre.
  destruct (prelude username st) as [[[hasSavedState savedStateData]|e] s0] eqn:Ep;
    simpl in Hpre.
  2: { destruct e; inversion Hmain; subst; now elim Hdiff. }
  simpl in Hmain.
  pose proof (guarded_keeps_files username password hasSavedState savedStateData s0)
    as Hg.
  assert (Hst1 : fs st1 = fs (snd (flow username password hasSavedState savedStateData s0))).
  { rewrite <- Hg.
    destruct (guarded username password hasSavedState savedStateData s0)
      as [[u|[e|]] s2]; inversion Hmain; reflexivity. }
  destruct (flow username password hasSavedState savedStateData s0)
    as [r s1] eqn:Ef.
  simpl in Hst1.
  pose proof (flow_writes_only_after_submission _ _ _ _ _ Ef) as Hflow.
  destruct r as [[logged filled]|[e|]]; simpl in Hflow.
  - destruct Hflow as [H1 [H2 H3]].
    destruct filled.
    + destruct logged; [specialize (H1 eq_refl); discriminate |].
      exists hasSavedState, savedStateData, s0, s1.
      split; [reflexivity | split; [|now left]].
      unfold flow in Ef. unfold bind at 1 in Ef.
      destruct (checkSavedSession hasSavedState savedStateData s0)
        as [[logged|e] s] eqn:Eprobe; [|discriminate].
      destruct logged.
      * exfalso.
        pose proof (@post_run _ _ _ _ _ _
                      (flow_tail_post false true (steady_refl s)) Ef) as Hq.
        destruct Hq as [Hq _]. discriminate Hq.
      * exists s. split; [exact Eprobe |]. symmetry.
        first [exact (H2 s Eprobe) | exact (H2 s eq_refl)].
    + elim Hdiff. rewrite Hst1, (steady_fs (H3 eq_refl)). exact Hpre.
  - elim Hdiff. rewrite Hst1, Hflow. exact Hpre.
  - destruct Hflow as [Hsub | Hsteady].
    + exists hasSavedState, savedStateData, s0, s1.
      split; [reflexivity | split; [exact Hsub | now right]].
    + elim Hdiff. rewrite Hst1, (steady_fs Hsteady). exact Hpre.
Qed.


(* ===================================================================== *)
(** * Properties: a state file that cannot be used *)
(* ===================================================================== *)

Definition isNavigation (e : Event) : bool :=
  match e with
  | Goto _ _ _ => true
  | Delay _ => true
  | _ => false
  end.

(** The navigations and settle delays of a run so far, oldest first. *)
Definition navigation (st : State) : list Event :=
  filter isNavigation (history st).

Lemma navigation_emitS e st :
  navigation (emitS e st)
  = (navigation st ++ (if isNavigation e then [e] else []))%list.
Proof.
  unfold navigation, history. simpl. rewrite filter_app. simpl.
  now destruct (isNavigation e).
Qed.

Lemma navigation_logS args st : navigation (logS args st) = navigation st.
Proof.
  unfold logS. destruct (DEBUG cfg); [|reflexivity].
  rewrite navigation_emitS. simpl. now rewrite app_nil_r.
Qed.

Lemma navigation_delayS ms st :
  navigation (delayS ms st) = (navigation st ++ [Delay ms])%list.
Proof.
  unfold delayS. destruct (sleep rt ms (world st)) as [late w].
  change (navigation (emitS (Delay ms) st) = (navigation st ++ [Delay ms])%list).
  now rewrite navigation_emitS.
Qed.

(** A state file that exists and yields nothing: it cannot be read, or
    its text does not parse. *)
Definition unusable (f : FileState) : Prop :=
  f = Unreadable \/ f = Directory \/
  exists raw, f = Content raw /\ JSON_parse raw = None.

Lemma unusable_exists files path :
  unusable (files path) -> existsSync files path = true.
Proof.
  unfold existsSync. intros [H | [H | [raw [H _]]]]; now rewrite H.
Qed.

Lemma unusable_load files path :
  unusable (files path) -> loadStateFile files path = Ok emptyArtifact.
Proof.
  unfold loadStateFile, loadStateFile_try, readFileSync, parse.
  intros [H | [H | [raw [H Hp]]]]; rewrite H; simpl; [reflexivity .. |].
  now rewrite Hp.
Qed.

(** The entry probe: one navigation to the entry URL, failures
    swallowed, a 3000 ms settle delay, and the classification of the
    saved-state branches. *)
Lemma probeEntry_navigation st :
  post probeEntry
       (fun r s1 =>
          r = Ok (isLoggedInSaved (url rt (world s1))) /\
          navigation s1
          = (navigation st ++ [Goto SALESFORCE_URL DomContentLoaded 30000;
                               Delay 3000])%list) st.
Proof.
  unfold probeEntry, swallow, navigate.
  repeat post_step. apply post_call. intros [u|e] w _; repeat post_step.
  all: apply post_when; intros; repeat post_step.
  all: split; [reflexivity |].
  all: simpl; rewrite ?navigation_emitS; simpl; rewrite ?app_nil_r;
    rewrite navigation_delayS;
    change (navigation (setWorld w (emitS (Goto SALESFORCE_URL DomContentLoaded 30000) st)))
      with (navigation (emitS (Goto SALESFORCE_URL DomContentLoaded 30000) st));
    rewrite navigation_emitS; simpl; now rewrite <- app_assoc.
Qed.

(** C1, as the script has it: when the state file exists but cannot be
    read or parsed, it is taken to exist ([hasSavedState] is true), the
    empty artifact is what [loadStateFile] yields and no cookie is put
    into the context; the probe then first runs the entry probe of the
    saved-state branch (entry URL, 3000 ms, the saved-state
    classification), and only when that answers unauthenticated does it
    go on exactly as a run with no state file does from there. *)
Theorem unusable_state_file_probes_entry_first :
  forall st,
    unusable (fs st STATE_FILE) ->
    existsSync (fs st) STATE_FILE = true /\
    seedCookies true st = (Ok (Some emptyArtifact), st) /\
    (exists s1,
        probeEntry st = (Ok (isLoggedInSaved (url rt (world s1))), s1) /\
        navigation s1
        = (navigation st ++ [Goto SALESFORCE_URL DomContentLoaded 30000;
                             Delay 3000])%list /\
        checkSavedSession true (Some emptyArtifact) st
        = if isLoggedInSaved (url rt (world s1))
          then (Ok true, s1)
          else checkSavedSession false None s1) /\
    (forall s, checkSavedSession false None s = probeLoginPage s).
Proof.
  intros st Hu. split; [now apply unusable_exists |]. split; [|split].
  - unfold seedCookies. rewrite (unusable_load _ _ Hu). reflexivity.
  - pose proof (probeEntry_navigation st) as H. unfold post in H.
    destruct (probeEntry st) as [r s1] eqn:E. simpl in H. destruct H as [-> Hn].
    exists s1. split; [reflexivity | split; [exact Hn |]].
    unfold checkSavedSession at 1.
    change (probeSaved true (Some emptyArtifact)) with probeEntry.
    unfold bind. rewrite E.
    destruct (isLoggedInSaved (url rt (world s1))); reflexivity.
  - intros s. reflexivity.
Qed.

(* ===================================================================== *)
(** * Properties: the three passes *)
(* ===================================================================== *)

(** The passes in the words of the spec: a list of attempts tried in
    order, stopping at the first that reports done. *)
Fixpoint firstDone (attempts : list (State -> bool * State)) (st : State)
  : bool * State :=
  match attempts with
  | [] => (false, st)
  | a :: rest =>
      match a st with
      | (true, st1) => (true, st1)
      | (false, st1) => firstDone rest st1
      end
  end.

(** One bounded attempt at a frame; [label] is what the debug line says
    when it succeeds. *)
Definition attempt (label : string) (maxWaitMs : Z) (user pass : string)
  (frame : Frame) (st : State) : bool * State :=
  match waitAndFillFrame frame user pass maxWaitMs st with
  | (result, st1) =>
      if done result
      then (true, logS [AStr label; AStr (message result)] st1)
      else (false, st1)
  end.

(** The turn of one frame in pass 3: passed over when, at its turn, it
    is the main frame or its URL contains the marker. *)
Definition otherFrame (user pass : string) (frame : Frame) (st : State)
  : bool * State :=
  if Nat.eqb frame (mainFrame rt (world st)) || hasMarker (world st) frame
  then (false, st)
  else attempt "Login filled in frame:" 8000 user pass frame st.

Lemma pass3Loop_firstDone user pass remaining : forall st,
  pass3Loop user pass remaining st
  = firstDone (map (otherFrame user pass) remaining) st.
Proof.
  induction remaining as [|frame rest IH]; intros st; simpl; [reflexivity |].
  unfold otherFrame at 1, attempt.
  destruct (Nat.eqb frame (mainFrame rt (world st)) || hasMarker (world st) frame).
  - apply IH.
  - destruct (waitAndFillFrame frame user pass 8000 st) as [result st1].
    destruct (done result); [reflexivity | apply IH].
Qed.

(** The frames in which a run has evaluated the injected function so
    far, oldest first. *)
Definition evaluated (st : State) : list Frame :=
  flat_map (fun e => match e with Evaluate f => [f] | _ => [] end) (history st).

Lemma evaluated_emitS e st :
  evaluated (emitS e st)
  = (evaluated st ++ match e with Evaluate f => [f] | _ => [] end)%list.
Proof.
  unfold evaluated, history. simpl. rewrite flat_map_app. simpl.
  now rewrite app_nil_r.
Qed.

Lemma evaluated_logS args st : evaluated (logS args st) = evaluated st.
Proof.
  unfold logS. destruct (DEBUG cfg); [|reflexivity].
  rewrite evaluated_emitS. now rewrite app_nil_r.
Qed.

Lemma evaluated_delayS ms st : evaluated (delayS ms st) = evaluated st.
Proof.
  unfold delayS. destruct (sleep rt ms (world st)) as [late w].
  change (evaluated (emitS (Delay ms) st) = evaluated st).
  rewrite evaluated_emitS. now rewrite app_nil_r.
Qed.

(** From [st] to [st1] the function was evaluated in [frame] only. *)
Definition onlyIn (frame : Frame) (st st1 : State) : Prop :=
  exists n, evaluated st1 = (evaluated st ++ repeat frame n)%list.

Lemma onlyIn_refl frame st : onlyIn frame st st.
Proof. exists 0%nat. simpl. now rewrite app_nil_r. Qed.

Lemma onlyIn_trans frame st st1 st2 :
  onlyIn frame st st1 -> onlyIn frame st1 st2 -> onlyIn frame st st2.
Proof.
  intros [n Hn] [m Hm]. exists (n + m)%nat.
  now rewrite Hm, Hn, repeat_app, app_assoc.
Qed.

Lemma onlyIn_same frame st st1 :
  evaluated st1 = evaluated st -> onlyIn frame st st1.
Proof. intros H. exists 0%nat. simpl. now rewrite app_nil_r. Qed.

Lemma onlyIn_fillLoginInFrame frame user pass st :
  onlyIn frame st (snd (fillLoginInFrame frame user pass st)).
Proof.
  exists 1%nat. unfold fillLoginInFrame.
  destruct (evaluateEnter rt frame (world (emitS (Evaluate frame) st)))
    as [[[document|e] d] w].
  - destruct (loginPageFunction document user pass) as [result actions].
    destruct (evaluateLeave rt frame actions w) as [[[u|e] d'] w']; simpl;
      apply (evaluated_emitS (Evaluate frame) st).
  - simpl. apply (evaluated_emitS (Evaluate frame) st).
Qed.

Lemma onlyIn_pollOnce frame user pass st :
  onlyIn frame st (snd (pollOnce frame user pass st)).
Proof.
  unfold pollOnce. pose proof (onlyIn_fillLoginInFrame frame user pass st) as H.
  destruct (fillLoginInFrame frame user pass st) as [[result|e] st1]; simpl in *.
  - destruct (done result); simpl; [exact H |].
    eapply onlyIn_trans; [exact H | apply onlyIn_same, evaluated_logS].
  - eapply onlyIn_trans; [exact H | apply onlyIn_same, evaluated_logS].
Qed.

Lemma onlyIn_waitLoop frame user pass start maxWaitMs st :
  onlyIn frame st (snd (waitLoop frame user pass start maxWaitMs st)).
Proof.
  funelim (waitLoop frame user pass start maxWaitMs st); simpl;
    try apply onlyIn_refl.
  all: pose proof (onlyIn_pollOnce frame user pass st) as Hp.
  all: match goal with E : pollOnce _ _ _ _ = _ |- _ => rewrite E in Hp end.
  all: simpl in Hp; try exact Hp.
  eapply onlyIn_trans; [exact Hp |].
  eapply onlyIn_trans; [apply onlyIn_same, evaluated_delayS |].
  match goal with IH : onlyIn _ _ (snd (waitLoop _ _ _ _ _ _)) |- _ => exact IH end.
Qed.

Lemma onlyIn_attempt label maxWaitMs user pass frame st :
  onlyIn frame st (snd (attempt label maxWaitMs user pass frame st)).
Proof.
  unfold attempt, waitAndFillFrame.
  pose proof (onlyIn_waitLoop frame user pass (clock st) maxWaitMs st) as H.
  destruct (waitLoop frame user pass (clock st) maxWaitMs st) as [result st1].
  simpl in H. destruct (done result); simpl; [|exact H].
  eapply onlyIn_trans; [exact H | apply onlyIn_same, evaluated_logS].
Qed.

Lemma pass2_attempt user pass st :
  pass2 user pass st
  = attempt "Login filled in main frame:" 15000 user pass
      (mainFrame rt (world st)) (logS [AStr "Trying main frame..."] st).
Proof. unfold pass2, attempt. now rewrite world_logS. Qed.

(** One turn of the poll of pass 1, in the words of the spec: look for
    the first frame whose URL contains the marker and, when there is
    one, attempt it; without success, wait 800 ms. *)
Lemma pass1Iter_attempt user pass st :
  pass1Iter user pass st
  = match findSessionFrame (world st) with
    | Some sessionFrame =>
        match attempt "Login filled in sessionserver iframe:" 20000 user pass
                sessionFrame
                (logS [AStr "Found sessionserver frame, filling via JS..."] st) with
        | (true, st1) => (true, st1)
        | (false, st1) => (false, delayS 800 st1)
        end
    | None => (false, delayS 800 st)
    end.
Proof.
  unfold pass1Iter, attempt.
  destruct (findSessionFrame (world st)) as [f|]; [|reflexivity].
  destruct (waitAndFillFrame f user pass 20000 _) as [result st2].
  now destruct (done result).
Qed.

Lemma pass1Loop_step user pass pollStart st :
  pass1Loop user pass pollStart st
  = if Z.ltb (clock st - pollStart) 35000
    then match pass1Iter user pass st with
         | (true, st1) => (true, st1)
         | (false, st1) => pass1Loop user pass pollStart st1
         end
    else (false, st).
Proof.
  funelim (pass1Loop user pass pollStart st).
  - destruct (Z.ltb_spec (clock st - pollStart) 35000); [lia | reflexivity].
  - destruct (Z.ltb_spec (clock st - pollStart) 35000); [|lia].
    match goal with E : pass1Iter _ _ _ = _ |- _ => rewrite E end.
    congruence.
  - destruct (Z.ltb_spec (clock st - pollStart) 35000); [|lia].
    match goal with E : pass1Iter _ _ _ = _ |- _ => rewrite E end.
    congruence.
Qed.

(** [find] answers with the first element that passes the test. *)
Lemma find_first {A} (p : A -> bool) (l : list A) x :
  find p l = Some x ->
  exists before after,
    l = (before ++ x :: after)%list /\ p x = true /\
    Forall (fun y => p y = false) before.
Proof.
  induction l as [|y l IH]; simpl; [discriminate |].
  destruct (p y) eqn:E.
  - intros H. inversion H; subst. exists [], l. repeat split; auto.
  - intros H. destruct (IH H) as [before [after [-> [Hx Hb]]]].
    exists (y :: before), after. repeat split; auto.
Qed.

Lemma findSessionFrame_first w f :
  findSessionFrame w = Some f ->
  exists before after,
    frames rt w = (before ++ f :: after)%list /\
    includes (frameUrl rt f w) "sessionserver" = true /\
    Forall (fun g => includes (frameUrl rt g w) "sessionserver" = false) before.
Proof. unfold findSessionFrame. exact (@find_first Frame (hasMarker w) _ f). Qed.

Lemma findSessionFrame_none w :
  findSessionFrame w = None ->
  Forall (fun g => includes (frameUrl rt g w) "sessionserver" = false)
         (frames rt w).
Proof.
  unfold findSessionFrame. intros H. apply Forall_forall. intros g Hg.
  exact (find_none _ _ H g Hg).
Qed.

(** The three passes as the script has them: after announcing the
    credentials the login branch runs pass 1, pass 2 and pass 3 in this
    order and stops at the first that reports done, so that no form is
    reported found exactly when all three report not-done. Pass 1 polls,
    for 35000 ms from its start, for the first frame in the page's list
    whose URL contains [sessionserver] and attempts that frame (20000 ms),
    waiting 800 ms between polls; pass 2 attempts the main frame
    (15000 ms); pass 3 goes through the frames
    listed when it starts and attempts (8000 ms) each one that, at its
    turn, is not the main frame and whose URL does not contain
    [sessionserver]. An attempt evaluates in its own frame only. *)
Theorem three_passes_in_order :
  forall username password st,
    let st0 := emitS (ConsoleLog [AStr "Entering credentials in UI: username";
                                  AStr username; AStr "password";
                                  AStr password]) st in
    let p1 := pass1 username password st0 in
    let p2 := pass2 username password (snd p1) in
    let p3 := pass3 username password (snd p2) in
    enterCredentials username password st
    = firstDone [pass1 username password; pass2 username password;
                 pass3 username password] st0 /\
    enterCredentials username password st
    = (if fst p1 then p1 else if fst p2 then p2 else p3) /\
    (fst (enterCredentials username password st) = false <->
     fst p1 = false /\ fst p2 = false /\ fst p3 = false) /\
    (forall s,
        pass1Loop username password (clock st0) s
        = if Z.ltb (clock s - clock st0) 35000
          then match findSessionFrame (world s) with
               | Some sessionFrame =>
                   match attempt "Login filled in sessionserver iframe:" 20000
                           username password sessionFrame
                           (logS [AStr "Found sessionserver frame, filling via JS..."] s) with
                   | (true, s1) => (true, s1)
                   | (false, s1) =>
                       pass1Loop username password (clock st0) (delayS 800 s1)
                   end
               | None => pass1Loop username password (clock st0) (delayS 800 s)
               end
          else (false, s)) /\
    (forall s f,
        findSessionFrame (world s) = Some f ->
        exists before after,
          frames rt (world s) = (before ++ f :: after)%list /\
          includes (frameUrl rt f (world s)) "sessionserver" = true /\
          Forall (fun g => includes (frameUrl rt g (world s)) "sessionserver" = false)
                 before) /\
    (forall s,
        findSessionFrame (world s) = None ->
        Forall (fun g => includes (frameUrl rt g (world s)) "sessionserver" = false)
               (frames rt (world s))) /\
    (forall s,
        pass2 username password s
        = attempt "Login filled in main frame:" 15000 username password
            (mainFrame rt (world s)) (logS [AStr "Trying main frame..."] s)) /\
    (forall s,
        pass3 username password s
        = firstDone (map (otherFrame username password) (frames rt (world s))) s) /\
    (forall label maxWaitMs frame s,
        onlyIn frame s (snd (attempt label maxWaitMs username password frame s))).
Proof.
  intros username password st st0 p1 p2 p3.
  assert (Hcases : enterCredentials username password st
                   = (if fst p1 then p1 else if fst p2 then p2 else p3)).
  { unfold enterCredentials. fold st0. unfold p3, p2, p1.
    destruct (pass1 username password st0) as [[|] s1]; simpl; [reflexivity |].
    destruct (pass2 username password s1) as [[|] s2]; simpl; [reflexivity |].
    reflexivity. }
  split; [|split; [exact Hcases | split; [|split; [|split; [|split; [|split; [|split]]]]]]].
  - unfold enterCredentials. fold st0. simpl.
    destruct (pass1 username password st0) as [[|] s1]; [reflexivity |].
    destruct (pass2 username password s1) as [[|] s2]; [reflexivity |].
    now destruct (pass3 username password s2) as [[|] s3].
  - rewrite Hcases. unfold p3, p2.
    destruct p1 as [[|] s1]; simpl.
    + split; [discriminate | intros [H _]; discriminate].
    + destruct (pass2 username password s1) as [[|] s2]; simpl.
      * split; [discriminate | intros [_ [H _]]; discriminate].
      * split; [now intros -> | now intros [_ [_ ->]]].
  - intros s. rewrite pass1Loop_step at 1. rewrite pass1Iter_attempt.
    destruct (Z.ltb (clock s - clock st0) 35000); [|reflexivity].
    destruct (findSessionFrame (world s)) as [f|]; [|reflexivity].
    now destruct (attempt _ _ _ _ _ _) as [[|] s1].
  - intros s f. apply findSessionFrame_first.
  - intros s. apply findSessionFrame_none.
  - intros s. apply pass2_attempt.
  - intros s. apply pass3Loop_firstDone.
  - intros label maxWaitMs frame s. apply onlyIn_attempt.
Qed.

(* ===================================================================== *)
(** * Properties: the guarded block *)
(* ===================================================================== *)

(** What the [try]/[catch]/[finally] does with the outcome of the block
    it guards: the context is closed when the block returns and when it
    throws; on a throw the error has been printed and the exit code set
    to 1 before that, and the outcome of [guarded] is that of the close.
    When the block stops at a wait that never returns, nothing more
    happens. *)
Lemma guarded_closes_context username password hasSavedState savedStateData st :
  let '(r0, s0) := flow username password hasSavedState savedStateData st in
  let '(r, st1) := guarded username password hasSavedState savedStateData st in
  match r0 with
  | Ok _ =>
      out st1 = ContextClose :: out s0 /\ exitCode st1 = exitCode s0 /\
      r = fst (closeContext s0)
  | Throw (Raised e) =>
      out st1 = ContextClose :: ConsoleError [AStr e] :: out s0 /\
      exitCode st1 = Some 1 /\
      r = fst (closeContext (setExitCode 1 (emitS (ConsoleError [AStr e]) s0)))
  | Throw Pending => r = Throw Pending /\ st1 = s0
  end.
Proof.
  unfold guarded, try_finally, try_catch, bind, ret, console_error,
    closeContext, call.
  destruct (flow username password hasSavedState savedStateData st)
    as [[flags|[e|]] s0]; simpl.
  - destruct (close rt (world s0)) as [[[]|e] w]; simpl; auto.
  - destruct (close rt (world s0)) as [[[]|e'] w]; simpl; auto.
  - auto.
Qed.

(* ===================================================================== *)
(** * Properties: what is printed *)
(* ===================================================================== *)

Definition isConsole (e : Event) : bool :=
  match e with
  | ConsoleLog _ => true
  | ConsoleError _ => true
  | _ => false
  end.

(** What a run has printed so far, oldest first. *)
Definition console (st : State) : list Event := filter isConsole (history st).

(** Whether the run has closed the context. *)
Definition contextClosed (st : State) : bool :=
  existsb (fun e => match e with ContextClose => true | _ => false end) (out st).

(** The line that announces the credentials carries the password as it
    is, and stays in the output of the login branch. *)
Lemma enterCredentials_prints_password username password st :
  In (ConsoleLog [AStr "Entering credentials in UI: username"; AStr username;
                  AStr "password"; AStr password])
     (console (snd (enterCredentials username password st))).
Proof.
  destruct (steady_enterCredentials_announced username password st)
    as [_ [added [Hout _]]].
  unfold console, history. apply filter_In. split; [|reflexivity].
  rewrite <- in_rev, Hout. apply in_or_app. right. now left.
Qed.

(* ===================================================================== *)
(** * More properties: the credentials check *)
(* ===================================================================== *)

(** [tauto] over the propositions of the goal only: the parameters of
    the model are functions, not implications to reason with. *)
Ltac taut :=
  try clear JSON_parse; try clear num_toString; try clear num_falsy; tauto.

(** Every character of [s] is white space. *)
Fixpoint allSpace (s : string) : bool :=
  match s with
  | EmptyString => true
  | String c s' => isWhiteSpace c && allSpace s'
  end.

Lemma trimStart_blank s : trimStart s = "" <-> allSpace s = true.
Proof.
  induction s as [|c s IH]; simpl; [taut |].
  destruct (isWhiteSpace c); simpl; [exact IH |].
  split; discriminate.
Qed.

Lemma allSpace_trimStart s : allSpace (trimStart s) = allSpace s.
Proof.
  induction s as [|c s IH]; simpl; [reflexivity |].
  destruct (isWhiteSpace c) eqn:E; simpl; [exact IH | now rewrite E].
Qed.

Lemma trimEnd_blank s : trimEnd s = "" <-> allSpace s = true.
Proof.
  induction s as [|c s IH]; simpl; [taut |].
  destruct (trimEnd s) as [|c' t] eqn:E.
  - destruct (isWhiteSpace c); simpl.
    + split; [intros _; now apply IH | reflexivity].
    + split; discriminate.
  - split; [discriminate |]. intros H. apply andb_true_iff in H.
    destruct H as [_ H]. apply IH in H. discriminate.
Qed.

Lemma trim_blank s : trim s = "" <-> allSpace s = true.
Proof.
  unfold trim. rewrite trimEnd_blank, allSpace_trimStart. reflexivity.
Qed.

(** A credential as [main] reads it is unusable: the variable is unset,
    empty, or holds white space only. *)
Definition blank (v : option string) : Prop :=
  match v with
  | None => True
  | Some s => allSpace s = true
  end.

Lemma blank_trim v : String.eqb (trim (envOrEmpty v)) "" = true <-> blank v.
Proof.
  rewrite String.eqb_eq, trim_blank. destruct v; simpl; [reflexivity | taut].
Qed.

(** [main] ends by [process.exit(1)] exactly when [SF_USERNAME] or
    [SF_PASSWORD] is unset or all white space. It has then printed its
    two error lines and done nothing else: no directory made, no browser
    launched, the clock, the world, the files and the exit code field as
    they were. *)
Theorem main_exits_iff_credentials_blank :
  forall st,
    ((blank (SF_USERNAME cfg) \/ blank (SF_PASSWORD cfg)) <->
     exists code, fst (main st) = Exited code) /\
    (forall code, fst (main st) = Exited code ->
       code = 1 /\
       out (snd (main st))
       = ConsoleError [AStr "Current .env lookup: project root =";
                       AStr (projectRoot cfg)]
         :: ConsoleError
              [AStr "Set SF_USERNAME and SF_PASSWORD in .env (in the project root)."]
         :: out st /\
       clock (snd (main st)) = clock st /\
       world (snd (main st)) = world st /\
       fs (snd (main st)) = fs st /\
       exitCode (snd (main st)) = exitCode st).
Proof.
  intros st. unfold main.
  pose proof (blank_trim (SF_USERNAME cfg)) as Hu.
  pose proof (blank_trim (SF_PASSWORD cfg)) as Hp.
  destruct (String.eqb (trim (envOrEmpty (SF_USERNAME cfg))) "") eqn:Eu;
    destruct (String.eqb (trim (envOrEmpty (SF_PASSWORD cfg))) "") eqn:Ep;
    simpl.
  1-3: split; [split; [intros _; now exists 1 | intros _; taut] |];
       intros code H; inversion H; repeat split.
  split.
  - split.
    + intros [H | H]; [apply Hu in H | apply Hp in H]; discriminate.
    + intros [code H].
      destruct (bind _ _ st) as [[u|[e|]] s1]; discriminate.
  - intros code H. destruct (bind _ _ st) as [[u|[e|]] s1]; discriminate.
Qed.

(* ===================================================================== *)
(** * More properties: what a state file yields *)
(* ===================================================================== *)

Lemma findM_passedOver items :
  Forall passedOver items -> findM isLightningCookie items = Ok None.
Proof.
  induction 1 as [|c rest Hc _ IH]; simpl; [reflexivity |].
  now rewrite (isLightningCookie_passedOver Hc).
Qed.

(** A state file whose cookies all lack a Lightning domain keeps its
    cookies and yields no base URL. *)
Theorem cookies_without_lightning_domain :
  forall files path items,
    holdsCookies files path items ->
    Forall passedOver items ->
    loadStateFile files path
    = Ok {| cookies := items; lightningBaseUrl := None |}.
Proof.
  intros files path items Hholds Hall.
  unfold loadStateFile. rewrite (loadStateFile_try_cookies Hholds).
  unfold deriveArtifact. now rewrite (findM_passedOver Hall).
Qed.

(** An entry on which the callback of [find] throws: [null], or an
    object whose [domain] is truthy and is neither a string nor an
    array. *)
Definition voids (c : json) : Prop :=
  c = JNull \/
  exists props d,
    c = JObj props /\ assoc "domain" props = Some d /\
    truthy (Some d) = true /\
    match d with
    | JStr _ => False
    | JArr _ => False
    | _ => True
    end.

Lemma isLightningCookie_voids c :
  voids c -> exists e, isLightningCookie c = Throw e.
Proof.
  intros [-> | [props [d [-> [Hd [Ht Hshape]]]]]]; unfold isLightningCookie; simpl.
  - eauto.
  - rewrite Hd.
    destruct d; simpl in *; try contradiction; try discriminate;
      rewrite ?Ht; simpl; eauto.
Qed.

Lemma findM_voids before : forall c after,
  Forall passedOver before -> voids c ->
  exists e, findM isLightningCookie (before ++ c :: after) = Throw e.
Proof.
  induction before as [|x before IH]; intros c after Hb Hc; simpl.
  - destruct (isLightningCookie_voids Hc) as [e He]. rewrite He. simpl. eauto.
  - inversion Hb; subst.
    rewrite (isLightningCookie_passedOver H1). simpl. now apply IH.
Qed.

(** One entry that makes the callback throw, met before any Lightning
    cookie, voids the whole file: the empty artifact is returned, with
    none of the cookies of the file, whatever follows the entry. *)
Theorem malformed_cookie_voids_state_file :
  forall files path before c after,
    holdsCookies files path (before ++ c :: after)%list ->
    Forall passedOver before ->
    voids c ->
    loadStateFile files path = Ok emptyArtifact.
Proof.
  intros files path before c after Hholds Hb Hc.
  unfold loadStateFile. rewrite (loadStateFile_try_cookies Hholds).
  unfold deriveArtifact.
  destruct (@findM_voids before c after Hb Hc) as [e He]. now rewrite He.
Qed.

Lemma deriveArtifact_cookies v a :
  deriveArtifact v = Ok a -> v = JArr (cookies a).
Proof.
  unfold deriveArtifact. destruct v; try discriminate.
  destruct (findM isLightningCookie items) as [lc|e]; simpl; [|discriminate].
  destruct (baseUrlOf lc) as [u|e]; simpl; [|discriminate].
  intros H. inversion H. reflexivity.
Qed.

(** Cookies are only ever taken from an array found under the key
    [cookies] of a parsed object: whenever [loadStateFile] returns any
    cookie, the file is readable, its text parses to an object, and the
    cookies returned are that object's [cookies] array. *)
Theorem cookies_come_from_the_cookies_array :
  forall files path a,
    loadStateFile files path = Ok a ->
    cookies a <> [] ->
    holdsCookies files path (cookies a).
Proof.
  intros files path a Hload Hne. unfold loadStateFile in Hload.
  destruct (loadStateFile_try files path) as [a'|e] eqn:Etry.
  2: { inversion Hload; subst. now elim Hne. }
  inversion Hload; subst a'. clear Hload.
  unfold loadStateFile_try, readFileSync, parse in Etry.
  destruct (files path) as [| | |raw] eqn:Ef; simpl in Etry; try discriminate.
  destruct (JSON_parse raw) as [data|] eqn:Ep; simpl in Etry; [|discriminate].
  assert (Hfallback : deriveArtifact (JArr []) = Ok a -> False).
  { intros H. apply deriveArtifact_cookies in H. inversion H as [E].
    apply Hne. now rewrite <- E. }
  destruct data as [|b|n|s|items|props]; simpl in Etry; try discriminate;
    try (now elim Hfallback).
  destruct (assoc "cookies" props) as [v|] eqn:Ec; [|now elim Hfallback].
  destruct (truthy (Some v)) eqn:Et; [|now elim Hfallback].
  apply deriveArtifact_cookies in Etry. subst v.
  exists raw, props. auto.
Qed.

Lemma findM_some p : forall items c,
  findM p items = Ok (Some c) -> In c items /\ p c = Ok true.
Proof.
  induction items as [|x items IH]; simpl; intros c H; [discriminate |].
  destruct (p x) as [[|]|e] eqn:E; simpl in H; try discriminate.
  - inversion H; subst. auto.
  - destruct (IH c H). auto.
Qed.

(** Whenever [loadStateFile] yields a base URL, the URL starts with
    [https://], so it is never empty and the dashboard branch of the
    probe is the one taken; it was built from a cookie of the file on
    which the callback of [find] answered true, so the file's cookie list
    is not empty and the cookies are put into the context before the
    dashboard is opened. *)
Theorem base_url_shape :
  forall files path a base,
    loadStateFile files path = Ok a ->
    lightningBaseUrl a = Some base ->
    startsWith base "https://" = true /\
    savedBaseUrl true (Some a) = Some base /\
    (exists c, In c (cookies a) /\ isLightningCookie c = Ok true) /\
    Nat.ltb 0 (List.length (cookies a)) = true.
Proof.
  intros files path a base Hload Hbase. unfold loadStateFile in Hload.
  destruct (loadStateFile_try files path) as [a'|e] eqn:Etry.
  2: { inversion Hload; subst. discriminate. }
  inversion Hload; subst a'. clear Hload.
  assert (Hd : exists v, deriveArtifact v = Ok a).
  { unfold loadStateFile_try in Etry.
    destruct (readFileSync files path); simpl in Etry; [|discriminate].
    destruct (parse a0); simpl in Etry; [|discriminate].
    destruct (member "cookies" a1); simpl in Etry; [|discriminate].
    eauto. }
  destruct Hd as [v Hd]. unfold deriveArtifact in Hd.
  destruct v as [| | | |items|]; try discriminate.
  destruct (findM isLightningCookie items) as [lc|e] eqn:Efind; simpl in Hd;
    [|discriminate].
  destruct (baseUrlOf lc) as [u|e] eqn:Eurl; simpl in Hd; [|discriminate].
  inversion Hd; subst a. simpl in *. subst u.
  destruct lc as [c|]; [|discriminate].
  destruct (findM_some _ _ Efind) as [Hin Hhit].
  assert (Hshape : exists rest, base = "https://" ++ rest).
  { unfold baseUrlOf in Eurl. destruct (truthy (Some c)); [|discriminate].
    destruct (member "domain" c) as [[dv|]|e]; unfold obind in Eurl;
      cbv beta iota in Eurl; try discriminate.
    destruct (truthy (Some dv)); inversion Eurl.
    exists (toStringJS dv). reflexivity. }
  destruct Hshape as [rest ->].
  split; [apply startsWith_app; eauto |]. split; [reflexivity |].
  split; [eauto |]. destruct items; [contradiction | reflexivity].
Qed.

(* ===================================================================== *)
(** * More properties: the two classifications *)
(* ===================================================================== *)

Lemma toLower_app a b : toLower (a ++ b) = toLower a ++ toLower b.
Proof. induction a as [|c a IH]; simpl; [reflexivity | now rewrite IH]. Qed.

Lemma contains_toLower s t :
  contains s t -> contains (toLower s) (toLower t).
Proof.
  intros [a [b ->]]. exists (toLower a), (toLower b).
  now rewrite !toLower_app.
Qed.

Lemma string_append_assoc a b c : (a ++ b) ++ c = a ++ b ++ c.
Proof. induction a as [|x a IH]; simpl; [reflexivity | now rewrite IH]. Qed.

Lemma contains_widen s pre t post :
  contains s (pre ++ t ++ post) -> contains s t.
Proof.
  intros [a [b ->]]. exists (a ++ pre), (post ++ b).
  now rewrite !string_append_assoc.
Qed.

(** Whatever the saved-state test classifies as authenticated, the test
    of the login-page branch classifies as authenticated too: the second
    test is the broader of the two on every URL. *)
Theorem saved_classification_implies_fresh :
  forall currentUrl,
    isLoggedInSaved currentUrl = true -> isLoggedInFresh currentUrl = true.
Proof.
  intros u H. apply isLoggedInSaved_spec in H. destruct H as [Hlogin [Hl | Hm]].
  - unfold isLoggedInFresh, landingPattern.
    apply contains_toLower in Hl. apply includes_contains in Hl.
    change (toLower "lightning") with "lightning" in Hl.
    now rewrite Hl.
  - unfold isLoggedInFresh. apply orb_true_iff. right.
    assert (H1 : includes u "salesforce.com" = true).
    { apply includes_contains.
      apply (@contains_widen u "my." "salesforce.com" ""). exact Hm. }
    assert (H2 : includes u "/login" = false).
    { apply includes_false. intros Hc. apply Hlogin.
      apply (@contains_widen u "/" "login" ""). exact Hc. }
    assert (H3 : String.eqb u SALESFORCE_URL = false).
    { apply String.eqb_neq. intros ->.
      apply includes_contains in Hm. vm_compute in Hm. discriminate. }
    now rewrite H1, H2, H3.
Qed.

(** Every character of [s] is in the class [[a-z0-9]], letter case
    ignored. *)
Fixpoint allAlnum (s : string) : bool :=
  match s with
  | EmptyString => true
  | String c s' => isAlnum c && allAlnum s'
  end.

Lemma alnumRun_spec n : forall s,
  alnumRun n s = true <->
  exists run rest, s = run ++ rest /\ String.length run = n /\ allAlnum run = true.
Proof.
  induction n as [|n IH]; intros s; simpl.
  - split; [intros _; exists "", s; auto |reflexivity].
  - destruct s as [|c s].
    + split; [discriminate |].
      intros [run [rest [H [Hlen _]]]]. destruct run; discriminate.
    + rewrite andb_true_iff, IH. split.
      * intros [Hc [run [rest [-> [Hlen Hall]]]]].
        exists (String c run), rest. simpl. rewrite Hc, Hall. auto.
      * intros [run [rest [H [Hlen Hall]]]].
        destruct run as [|c' run]; [discriminate |].
        simpl in *. inversion H; subst. apply andb_true_iff in Hall.
        destruct Hall as [Hc Hall]. split; [exact Hc |].
        exists run, rest. auto.
Qed.

(** Somewhere in [s] stands [salesforce.com/] followed by fifteen
    characters of the class. *)
Definition hasRecordId (s : string) : Prop :=
  exists before run rest,
    s = before ++ "salesforce.com/" ++ run ++ rest /\
    String.length run = 15%nat /\ allAlnum run = true.

Lemma matchesRecordId_here s :
  (exists run rest, s = "salesforce.com/" ++ run ++ rest /\
                    String.length run = 15%nat /\ allAlnum run = true) <->
  exists tail, stripPrefix "salesforce.com/" s = Some tail /\
               alnumRun 15 tail = true.
Proof.
  split.
  - intros [run [rest [-> [Hlen Hall]]]]. exists (run ++ rest). split.
    + now apply stripPrefix_app.
    + apply alnumRun_spec. now exists run, rest.
  - intros [tail [Hs Hrun]]. apply stripPrefix_app in Hs.
    apply alnumRun_spec in Hrun. destruct Hrun as [run [rest [-> [Hlen Hall]]]].
    now exists run, rest.
Qed.

Lemma matchesRecordId_step s :
  matchesRecordId s =
  match stripPrefix "salesforce.com/" s with
  | Some tail => if alnumRun 15 tail then true else
                   match s with
                   | String _ s' => matchesRecordId s'
                   | EmptyString => false
                   end
  | None => match s with
            | String _ s' => matchesRecordId s'
            | EmptyString => false
            end
  end.
Proof. destruct s; reflexivity. Qed.

Lemma matchesRecordId_spec s : matchesRecordId s = true <-> hasRecordId s.
Proof.
  induction s as [|c s IH].
  - split.
    + intros H. vm_compute in H. discriminate.
    + intros [before [run [rest [H _]]]].
      destruct before; discriminate.
  - rewrite matchesRecordId_step.
    pose proof (matchesRecordId_here (String c s)) as Hhere.
    split.
    + intros H.
      destruct (stripPrefix "salesforce.com/" (String c s)) as [tail|] eqn:Es.
      * destruct (alnumRun 15 tail) eqn:Er.
        -- destruct (proj2 Hhere) as [run [rest [E [Hlen Hall]]]];
             [now exists tail |].
           exists "", run, rest. auto.
        -- apply IH in H. destruct H as [before [run [rest [-> [Hlen Hall]]]]].
           exists (String c before), run, rest. auto.
      * apply IH in H. destruct H as [before [run [rest [-> [Hlen Hall]]]]].
        exists (String c before), run, rest. auto.
    + intros [before [run [rest [E [Hlen Hall]]]]].
      destruct before as [|c' before].
      * destruct (proj1 Hhere) as [tail [Hs Hr]]; [now exists run, rest |].
        now rewrite Hs, Hr.
      * simpl in E. inversion E; subst.
        assert (Hrec : matchesRecordId (before ++ "salesforce.com/" ++ run ++ rest) = true)
          by (apply IH; now exists before, run, rest).
        destruct (stripPrefix _ _) as [tail|]; [|exact Hrec].
        destruct (alnumRun 15 tail); [reflexivity | exact Hrec].
Qed.

(** The pattern test of the login-page branch answers true exactly when
    the URL, letter case of A to Z ignored, contains one of [lightning],
    [home.jsp], [.com/home], [setup], [secur/frontdoor], or
    [salesforce.com/] followed by fifteen letters or digits. *)
Theorem landing_pattern_matches :
  forall currentUrl,
    landingPattern currentUrl = true <->
    contains (toLower currentUrl) "lightning" \/
    contains (toLower currentUrl) "home.jsp" \/
    contains (toLower currentUrl) ".com/home" \/
    contains (toLower currentUrl) "setup" \/
    contains (toLower currentUrl) "secur/frontdoor" \/
    hasRecordId (toLower currentUrl).
Proof.
  intros u. unfold landingPattern.
  rewrite !orb_true_iff, !includes_contains, matchesRecordId_spec. taut.
Qed.

(* ===================================================================== *)
(** * More properties: the bounded wait on one frame *)
(* ===================================================================== *)

(** The three messages the injected function gives with [done = true]. *)
Definition filledMessage (m : string) : Prop :=
  m = "submitted" \/ m = "form submitted" \/ m = "filled, no button".

Lemma loginPageFunction_done document username password result :
  fst (loginPageFunction document username password) = Ok result ->
  done result = true ->
  filledMessage (message result).
Proof.
  intros Hr Hd. unfold filledMessage.
  pose proof (loginPageFunction_cases document username password) as Hc.
  destruct (usernameField document) as [u|];
    [destruct (passwordField document) as [p|] |].
  - pose proof (said_cases document u) as Hs.
    destruct Hc as [Hc | [e [before [a [after [_ [_ Hc]]]]]]];
      rewrite Hc in Hr; [|discriminate].
    inversion Hr; subst. simpl.
    destruct (submitControl document); [auto |].
    destruct (loginForm document u); auto.
  - rewrite Hc in Hr. inversion Hr; subst. discriminate.
  - rewrite Hc in Hr. inversion Hr; subst. discriminate.
Qed.

Lemma pollOnce_some frame user pass st result st1 :
  pollOnce frame user pass st = (Some result, st1) ->
  done result = true /\ filledMessage (message result).
Proof.
  unfold pollOnce.
  destruct (fillLoginInFrame frame user pass st) as [[r|e] s] eqn:E;
    [|discriminate].
  destruct (done r) eqn:Ed; [|discriminate].
  intros H. inversion H; subst. split; [exact Ed |].
  destruct (fillLoginInFrame_result _ _ _ _ E) as [document [d [w [_ Hr]]]].
  exact (loginPageFunction_done _ _ _ Hr Ed).
Qed.

(** What the loop can answer, and when. *)
Lemma waitLoop_result frame user pass start maxWaitMs st :
  let result := fst (waitLoop frame user pass start maxWaitMs st) in
  let st1 := snd (waitLoop frame user pass start maxWaitMs st) in
  (done result = true /\ filledMessage (message result)) \/
  (result = {| done := false; message := "timeout" |} /\
   maxWaitMs <= clock st1 - start).
Proof.
  funelim (waitLoop frame user pass start maxWaitMs st); simpl.
  - right. split; [reflexivity | lia].
  - left. match goal with E : pollOnce _ _ _ _ = _ |- _ =>
            exact (pollOnce_some _ _ _ _ E) end.
  - match goal with IH : _ \/ _ |- _ => exact IH end.
Qed.

(** [waitAndFillFrame] answers [done = true] only with one of the three
    messages of a filled form, and otherwise only [timeout], and that
    only once [maxWaitMs] have gone by since it was called: the "not
    ready" answers of single evaluations and their errors never come
    out. *)
Theorem waitAndFillFrame_result :
  forall frame user pass maxWaitMs st,
    let result := fst (waitAndFillFrame frame user pass maxWaitMs st) in
    let st1 := snd (waitAndFillFrame frame user pass maxWaitMs st) in
    (done result = true /\ filledMessage (message result)) \/
    (result = {| done := false; message := "timeout" |} /\
     clock st + maxWaitMs <= clock st1).
Proof.
  intros frame user pass maxWaitMs st. unfold waitAndFillFrame.
  destruct (waitLoop_result frame user pass (clock st) maxWaitMs st)
    as [H | [H1 H2]]; [now left | right].
  split; [exact H1 | lia].
Qed.

Lemma evaluated_pollOnce frame user pass st :
  evaluated (snd (pollOnce frame user pass st)) = (evaluated st ++ [frame])%list.
Proof.
  unfold pollOnce, fillLoginInFrame.
  destruct (evaluateEnter rt frame (world (emitS (Evaluate frame) st)))
    as [[[document|e] d] w].
  - destruct (loginPageFunction document user pass) as [[result|e0] actions];
      destruct (evaluateLeave rt frame actions w) as [[[u|e] d'] w']; simpl.
    + destruct (done result); simpl; rewrite ?evaluated_logS;
        apply (evaluated_emitS (Evaluate frame) st).
    + rewrite evaluated_logS. apply (evaluated_emitS (Evaluate frame) st).
    + rewrite evaluated_logS. apply (evaluated_emitS (Evaluate frame) st).
    + rewrite evaluated_logS. apply (evaluated_emitS (Evaluate frame) st).
  - simpl. rewrite evaluated_logS. apply (evaluated_emitS (Evaluate frame) st).
Qed.

Lemma waitLoop_evaluations frame user pass start maxWaitMs st :
  exists n,
    evaluated (snd (waitLoop frame user pass start maxWaitMs st))
    = (evaluated st ++ repeat frame n)%list /\
    500 * Z.of_nat n < Z.max 0 (start + maxWaitMs - clock st) + 500 /\
    (clock st - start < maxWaitMs -> (1 <= n)%nat).
Proof.
  funelim (waitLoop frame user pass start maxWaitMs st); cbn [fst snd].
  - exists 0%nat. cbn [repeat]. rewrite app_nil_r. repeat split; lia.
  - exists 1%nat.
    pose proof (evaluated_pollOnce frame user pass st) as Hp.
    match goal with E : pollOnce _ _ _ _ = _ |- _ => rewrite E in Hp end.
    cbn [fst snd] in Hp. repeat split; [exact Hp | lia | lia].
  - pose proof (evaluated_pollOnce frame user pass st) as Hp.
    pose proof (clock_pollOnce frame user pass st) as Hc.
    pose proof (clock_delayS 500 st1) as Hd.
    match goal with E : pollOnce _ _ _ _ = _ |- _ =>
      rewrite E in Hp; rewrite E in Hc end.
    cbn [fst snd] in Hp, Hc.
    match goal with IH : exists _, _ |- _ => destruct IH as [n [Hn [Hb _]]] end.
    exists (S n). rewrite Hn, evaluated_delayS, Hp, <- app_assoc.
    split; [reflexivity | split; lia].
Qed.

(** [waitAndFillFrame] evaluates in its frame only, at least once when
    [maxWaitMs] is positive and at most once per 500 ms of [maxWaitMs],
    rounded up: with [n] evaluations, [500 * (n - 1) < maxWaitMs]. *)
Theorem waitAndFillFrame_evaluations :
  forall frame user pass maxWaitMs st,
    exists n,
      evaluated (snd (waitAndFillFrame frame user pass maxWaitMs st))
      = (evaluated st ++ repeat frame n)%list /\
      500 * Z.of_nat n < Z.max 0 maxWaitMs + 500 /\
      (0 < maxWaitMs -> (1 <= n)%nat).
Proof.
  intros frame user pass maxWaitMs st. unfold waitAndFillFrame.
  destruct (waitLoop_evaluations frame user pass (clock st) maxWaitMs st)
    as [n [Hn [Hb Hpos]]].
  exists n. repeat split; [exact Hn | | intros H; apply Hpos; lia].
  replace (clock st + maxWaitMs - clock st) with maxWaitMs in Hb by lia.
  exact Hb.
Qed.

Lemma pass1Loop_false user pass pollStart st :
  fst (pass1Loop user pass pollStart st) = false ->
  pollStart + 35000 <= clock (snd (pass1Loop user pass pollStart st)).
Proof.
  funelim (pass1Loop user pass pollStart st); simpl.
  - intros _. lia.
  - discriminate.
  - match goal with IH : _ -> _ <= _ |- _ => exact IH end.
Qed.

Lemma clock_waitAndFillFrame frame user pass maxWaitMs st :
  clock st <= clock (snd (waitAndFillFrame frame user pass maxWaitMs st)).
Proof. apply clock_waitLoop. Qed.

Lemma clock_pass3Loop user pass remaining : forall st,
  clock st <= clock (snd (pass3Loop user pass remaining st)).
Proof.
  induction remaining as [|frame rest IH]; intros st; simpl; [lia |].
  destruct (Nat.eqb frame (mainFrame rt (world st)) || hasMarker (world st) frame);
    [apply IH |].
  pose proof (clock_waitAndFillFrame frame user pass 8000 st) as Hw.
  destruct (waitAndFillFrame frame user pass 8000 st) as [result st1].
  simpl in Hw. destruct (done result); simpl.
  - rewrite clock_logS. exact Hw.
  - specialize (IH st1). lia.
Qed.

Lemma pass2_false user pass st :
  fst (pass2 user pass st) = false ->
  clock st + 15000 <= clock (snd (pass2 user pass st)).
Proof.
  unfold pass2, waitAndFillFrame. set (st0 := logS _ st).
  pose proof (waitLoop_result (mainFrame rt (world st0)) user pass (clock st0)
                15000 st0) as Hr.
  simpl in Hr.
  destruct (waitLoop (mainFrame rt (world st0)) user pass (clock st0) 15000 st0)
    as [result st1].
  simpl in Hr. destruct Hr as [[Hd _] | [-> Hc]].
  - rewrite Hd. discriminate.
  - simpl. intros _. unfold st0 in Hc. rewrite clock_logS in Hc. lia.
Qed.

(** The login branch reports that no form was found only after at
    least 50 seconds of waiting: the 35000 ms of pass 1 and the 15000 ms
    of pass 2 have both run out. *)
Theorem no_form_takes_fifty_seconds :
  forall username password st,
    fst (enterCredentials username password st) = false ->
    clock st + 50000 <= clock (snd (enterCredentials username password st)).
Proof.
  intros username password st. unfold enterCredentials, pass1, pass3.
  set (st0 := emitS _ st).
  pose proof (pass1Loop_false username password (clock st0) st0) as H1.
  destruct (pass1Loop username password (clock st0) st0) as [[|] s1];
    simpl in *; [discriminate |].
  pose proof (pass2_false username password s1) as H2.
  destruct (pass2 username password s1) as [[|] s2]; simpl in *;
    [discriminate |].
  intros _.
  pose proof (clock_pass3Loop username password (frames rt (world s2)) s2) as H3.
  specialize (H1 eq_refl). specialize (H2 eq_refl).
  change (clock st0) with (clock st) in H1. lia.
Qed.

(* ===================================================================== *)
(** * More properties: what a run can do at all *)
(* ===================================================================== *)

(** A printed line that carries the debug tag. *)
Definition debugLine (args : list Arg) : bool :=
  match args with
  | AStr s :: _ => startsWith s "[debug]"
  | _ => false
  end.

(** A printed line that opens like the line announcing the credentials. *)
Definition announces (args : list Arg) : bool :=
  match args with
  | AStr s :: _ => String.eqb s "Entering credentials in UI: username"
  | _ => false
  end.

(** A line that may be printed under the flags of this run: debug
    lines need [--debug]. *)
Definition printable (args : list Arg) : Prop :=
  debugLine args = true -> DEBUG cfg = true.

(** From [st] to [st1] events were only added, and each added event
    satisfies [P]. *)
Definition grows (P : Event -> Prop) (st st1 : State) : Prop :=
  exists added, out st1 = (added ++ out st)%list /\ Forall P added.

Lemma grows_refl P st : grows P st st.
Proof. exists []. split; [reflexivity | constructor]. Qed.

Lemma grows_trans P st st1 st2 :
  grows P st st1 -> grows P st1 st2 -> grows P st st2.
Proof.
  intros [a1 [O1 F1]] [a2 [O2 F2]]. exists (a2 ++ a1)%list. split.
  - now rewrite O2, O1, app_assoc.
  - apply Forall_app. auto.
Qed.

Lemma grows_weaken (P Q : Event -> Prop) st st1 :
  (forall e, P e -> Q e) -> grows P st st1 -> grows Q st st1.
Proof.
  intros H [added [O F]]. exists added. split; [exact O |].
  eapply Forall_impl; eassumption.
Qed.

Lemma grows_emitS (P : Event -> Prop) e st : P e -> grows P st (emitS e st).
Proof. intros H. exists [e]. split; [reflexivity | auto]. Qed.

Lemma grows_same P st st1 : out st1 = out st -> grows P st st1.
Proof. intros H. exists []. split; [exact H | constructor]. Qed.

(** Debug lines are within [P] whenever [--debug] is on. *)
Definition debugOk (P : Event -> Prop) : Prop :=
  forall args, DEBUG cfg = true -> P (ConsoleLog (AStr "[debug]" :: args)).

Lemma grows_logS P args st : debugOk P -> grows P st (logS args st).
Proof.
  intros H. unfold logS. destruct (DEBUG cfg) eqn:E.
  - apply grows_emitS. now apply H.
  - apply grows_refl.
Qed.

Lemma grows_delayS (P : Event -> Prop) ms st :
  P (Delay ms) -> grows P st (delayS ms st).
Proof.
  intros H. unfold delayS. destruct (sleep rt ms (world st)) as [late w].
  destruct (grows_emitS P (Delay ms) st H) as [added [O F]].
  exists added. split; [exact O | exact F].
Qed.

(** A computation that only adds events within [P]. *)
Definition Adds {A} (P : Event -> Prop) (c : M A) : Prop :=
  forall st0 st, grows P st0 st -> post c (fun _ s => grows P st0 s) st.

Lemma Adds_ret {A} P (a : A) : Adds P (ret a).
Proof. intros st0 st H. exact H. Qed.

Lemma Adds_bind {A B} P (c : M A) (k : A -> M B) :
  Adds P c -> (forall a, Adds P (k a)) -> Adds P (bind c k).
Proof.
  intros Hc Hk st0 st H. apply post_bind.
  eapply post_conseq; [|apply (Hc st0 st H)].
  intros [a|e] s Hs; [now apply Hk | exact Hs].
Qed.

Lemma Adds_try_catch {A} P (body : M A) handler :
  Adds P body -> (forall e, Adds P (handler e)) -> Adds P (try_catch body handler).
Proof.
  intros Hb Hh st0 st H. apply post_try_catch.
  eapply post_conseq; [|apply (Hb st0 st H)].
  intros [a|[e|]] s Hs; [exact Hs | now apply Hh | exact Hs].
Qed.

Lemma Adds_weaken {A} (P Q : Event -> Prop) (c : M A) :
  (forall e, P e -> Q e) -> Adds P c ->
  forall st, post c (fun _ s => grows Q st s) st.
Proof.
  intros HPQ Hc st.
  eapply post_conseq; [|apply (Hc st st (grows_refl P st))].
  intros r s Hs. eapply grows_weaken; eassumption.
Qed.

Lemma Adds_state P (f : State -> State) :
  (forall st, grows P st (f st)) -> Adds P (fun st => (Ok tt, f st)).
Proof.
  intros Hf st0 st H. unfold post. simpl.
  eapply grows_trans; [exact H | apply Hf].
Qed.

Lemma Adds_call {A} (P : Event -> Prop) e (op : W -> Outcome A * W) :
  P e -> Adds P (call e op).
Proof.
  intros He st0 st H. apply post_call. intros r w _.
  eapply grows_trans; [exact H |].
  destruct (grows_emitS P e st He) as [added [O F]].
  exists added. split; [exact O | exact F].
Qed.

Lemma Adds_console_log (P : Event -> Prop) args :
  P (ConsoleLog args) -> Adds P (console_log args).
Proof. intros H. apply Adds_state. intros st. now apply grows_emitS. Qed.

Lemma Adds_console_error (P : Event -> Prop) args :
  P (ConsoleError args) -> Adds P (console_error args).
Proof. intros H. apply Adds_state. intros st. now apply grows_emitS. Qed.

Lemma Adds_log P args : debugOk P -> Adds P (log args).
Proof. intros H. apply Adds_state. intros st. now apply grows_logS. Qed.

Lemma Adds_delay (P : Event -> Prop) ms : P (Delay ms) -> Adds P (delay ms).
Proof. intros H. apply Adds_state. intros st. now apply grows_delayS. Qed.

Lemma Adds_page_url P : Adds P page_url.
Proof. intros st0 st H. exact H. Qed.

Lemma Adds_waitForEnter (P : Event -> Prop) msg :
  P (WaitForEnter msg) -> Adds P (waitForEnter msg).
Proof.
  intros H st0 st Hg. apply post_waitForEnter; intros;
    (eapply grows_trans; [exact Hg |]);
    destruct (grows_emitS P (WaitForEnter msg) st H) as [added [O F]];
    exists added; (split; [exact O | exact F]).
Qed.

Lemma Adds_when P (b : bool) c : (b = true -> Adds P c) -> Adds P (when b c).
Proof. intros H. destruct b; [now apply H | apply Adds_ret]. Qed.

Lemma Adds_swallow P c : Adds P c -> Adds P (swallow c).
Proof. intros H. apply Adds_try_catch; [exact H | intros; apply Adds_ret]. Qed.

Lemma Adds_navigate (P : Event -> Prop) target waitUntil timeout :
  P (Goto target waitUntil timeout) -> Adds P (navigate target waitUntil timeout).
Proof. apply Adds_call. Qed.

(** Breaks a computation down to its calls; what is left to show is
    that each event is within the alphabet. *)
Ltac adds :=
  repeat first
    [ apply Adds_bind; [|intros ?] | apply Adds_ret | apply Adds_page_url
    | apply Adds_console_log | apply Adds_console_error | apply Adds_log
    | apply Adds_delay | apply Adds_waitForEnter | apply Adds_swallow
    | apply Adds_navigate | apply Adds_call
    | apply Adds_when; intros ? ].

(** Settles that a given event is within an alphabet given by cases. *)
Ltac within :=
  cbn; unfold printable;
  repeat match goal with |- _ /\ _ => split end;
  try reflexivity;
  try (let H := fresh in intros H; vm_compute in H; discriminate H);
  try assumption; try taut; eauto.

(** ** The alphabets of the three phases of the [try] block *)

(** What the probe can do: print, navigate to the entry URL, the home
    URL or the dashboard of the saved base URL, and settle for 3000 or
    5000 ms. *)
Definition probeEvent (dashboard : option string) (e : Event) : Prop :=
  match e with
  | ConsoleLog args => printable args /\ announces args = false
  | Goto target _ _ =>
      target = SALESFORCE_URL \/ target = SALESFORCE_HOME_URL \/
      exists base, dashboard = Some base /\ target = base ++ "/lightning/page/home"
  | Delay ms => ms = 3000 \/ ms = 5000
  | _ => False
  end.

(** What the login branch can do: print its line with the credentials
    and debug lines, evaluate in frames, and wait 500 or 800 ms. *)
Definition fillEvent (username password : string) (e : Event) : Prop :=
  match e with
  | ConsoleLog args =>
      printable args /\
      (announces args = true ->
       args = [AStr "Entering credentials in UI: username"; AStr username;
               AStr "password"; AStr password])
  | Evaluate _ => True
  | Delay ms => ms = 500 \/ ms = 800
  | _ => False
  end.

(** What the end of the block can do: print, wait for the page and for
    the two selector lists, wait for the keyboard under [--headed] only,
    and write the state file. *)
Definition tailEvent (e : Event) : Prop :=
  match e with
  | ConsoleLog args => printable args /\ announces args = false
  | WaitForLoadState => True
  | WaitForSelector selector timeout =>
      (selector = otpSelectors /\ timeout = 3000) \/
      (selector = postLoginSelectors /\ timeout = 120000 /\ HEADED cfg = false)
  | WaitForEnter _ => HEADED cfg = true
  | StorageState path => path = STATE_FILE
  | _ => False
  end.

Lemma debugOk_probeEvent dashboard : debugOk (probeEvent dashboard).
Proof. intros args H. within. Qed.

Lemma debugOk_fillEvent username password : debugOk (fillEvent username password).
Proof. intros args H. within. Qed.

Lemma debugOk_tailEvent : debugOk tailEvent.
Proof. intros args H. within. Qed.

Lemma Adds_probeSaved hasSavedState savedStateData :
  Adds (probeEvent (savedBaseUrl hasSavedState savedStateData))
       (probeSaved hasSavedState savedStateData).
Proof.
  unfold probeSaved.
  destruct (savedBaseUrl hasSavedState savedStateData) as [base|] eqn:E.
  - unfold probeDashboard. adds.
    all: try apply debugOk_probeEvent.
    all: within.
  - destruct hasSavedState; [unfold probeEntry; adds; within | apply Adds_ret].
Qed.

Lemma Adds_probeLoginPage dashboard : Adds (probeEvent dashboard) probeLoginPage.
Proof.
  unfold probeLoginPage. adds.
  all: try apply debugOk_probeEvent.
  all: within.
Qed.

Lemma Adds_checkSavedSession hasSavedState savedStateData :
  Adds (probeEvent (savedBaseUrl hasSavedState savedStateData))
       (checkSavedSession hasSavedState savedStateData).
Proof.
  unfold checkSavedSession. apply Adds_bind; [apply Adds_probeSaved |].
  intros [|]; [apply Adds_ret | apply Adds_probeLoginPage].
Qed.

(** What the loops of the login branch need of an alphabet. *)
Definition fillOk (P : Event -> Prop) : Prop :=
  (forall f, P (Evaluate f)) /\ P (Delay 500) /\ P (Delay 800) /\ debugOk P.

Lemma grows_fillLoginInFrame (P : Event -> Prop) frame user pass st :
  P (Evaluate frame) -> grows P st (snd (fillLoginInFrame frame user pass st)).
Proof.
  intros H. destruct (grows_emitS P (Evaluate frame) st H) as [added [O F]].
  exists added. split; [|exact F]. unfold fillLoginInFrame.
  destruct (evaluateEnter rt frame (world (emitS (Evaluate frame) st)))
    as [[[document|e] d] w]; [|exact O].
  destruct (loginPageFunction document user pass) as [result actions].
  destruct (evaluateLeave rt frame actions w) as [[[u|e] d'] w']; exact O.
Qed.

Lemma grows_pollOnce P frame user pass st :
  fillOk P -> grows P st (snd (pollOnce frame user pass st)).
Proof.
  intros [He [_ [_ Hd]]]. unfold pollOnce.
  pose proof (grows_fillLoginInFrame P frame user pass st (He frame)) as H.
  destruct (fillLoginInFrame frame user pass st) as [[result|e] st1]; simpl in *.
  - destruct (done result); simpl; [exact H |].
    eapply grows_trans; [exact H | now apply grows_logS].
  - eapply grows_trans; [exact H | now apply grows_logS].
Qed.

Lemma grows_waitLoop P frame user pass start maxWaitMs st :
  fillOk P -> grows P st (snd (waitLoop frame user pass start maxWaitMs st)).
Proof.
  intros Hok. funelim (waitLoop frame user pass start maxWaitMs st); simpl;
    try apply grows_refl.
  all: pose proof (grows_pollOnce frame user pass st Hok) as Hp.
  all: match goal with E : pollOnce _ _ _ _ = _ |- _ => rewrite E in Hp end.
  all: simpl in Hp; try exact Hp.
  eapply grows_trans; [exact Hp |].
  eapply grows_trans; [apply (@grows_delayS P 500 st1); apply Hok |].
  match goal with IH : context [waitLoop] |- _ =>
    first [exact IH | exact (IH Hok) | exact (IH P Hok)] end.
Qed.

Lemma grows_waitAndFillFrame P frame user pass maxWaitMs st :
  fillOk P -> grows P st (snd (waitAndFillFrame frame user pass maxWaitMs st)).
Proof. apply grows_waitLoop. Qed.

Lemma grows_pass1Iter P user pass st :
  fillOk P -> grows P st (snd (pass1Iter user pass st)).
Proof.
  intros Hok. unfold pass1Iter.
  destruct (findSessionFrame (world st)) as [f|]; simpl.
  - set (st0 := logS _ st).
    pose proof (grows_waitAndFillFrame f user pass 20000 st0 Hok) as Hw.
    destruct (waitAndFillFrame f user pass 20000 st0) as [result st2].
    simpl in Hw.
    assert (H0 : grows P st st2)
      by (eapply grows_trans; [apply grows_logS; apply Hok | exact Hw]).
    destruct (done result); simpl.
    + eapply grows_trans; [exact H0 | apply grows_logS; apply Hok].
    + eapply grows_trans; [exact H0 | apply grows_delayS; apply Hok].
  - apply grows_delayS. apply Hok.
Qed.

Lemma grows_pass1Loop P user pass pollStart st :
  fillOk P -> grows P st (snd (pass1Loop user pass pollStart st)).
Proof.
  intros Hok. funelim (pass1Loop user pass pollStart st); simpl;
    try apply grows_refl.
  all: pose proof (grows_pass1Iter user pass st Hok) as Hp.
  all: match goal with E : pass1Iter _ _ _ = _ |- _ => rewrite E in Hp end.
  all: simpl in Hp; try exact Hp.
  eapply grows_trans; [exact Hp |].
  match goal with IH : context [pass1Loop] |- _ =>
    first [exact IH | exact (IH Hok) | exact (IH P Hok)] end.
Qed.

Lemma grows_pass2 P user pass st :
  fillOk P -> grows P st (snd (pass2 user pass st)).
Proof.
  intros Hok. unfold pass2. set (st0 := logS _ st).
  pose proof (grows_waitAndFillFrame (mainFrame rt (world st0)) user pass 15000
                st0 Hok) as Hw.
  destruct (waitAndFillFrame (mainFrame rt (world st0)) user pass 15000 st0)
    as [result st1].
  simpl in Hw.
  assert (H0 : grows P st st1)
    by (eapply grows_trans; [apply grows_logS; apply Hok | exact Hw]).
  destruct (done result); simpl; [|exact H0].
  eapply grows_trans; [exact H0 | apply grows_logS; apply Hok].
Qed.

Lemma grows_pass3Loop P user pass remaining : forall st,
  fillOk P -> grows P st (snd (pass3Loop user pass remaining st)).
Proof.
  induction remaining as [|frame rest IH]; intros st Hok; simpl.
  - apply grows_refl.
  - destruct (Nat.eqb frame (mainFrame rt (world st)) || hasMarker (world st) frame).
    + now apply IH.
    + pose proof (grows_waitAndFillFrame frame user pass 8000 st Hok) as Hw.
      destruct (waitAndFillFrame frame user pass 8000 st) as [result st1].
      simpl in Hw. destruct (done result); simpl.
      * eapply grows_trans; [exact Hw | apply grows_logS; apply Hok].
      * eapply grows_trans; [exact Hw | now apply IH].
Qed.

Lemma fillOk_fillEvent username password : fillOk (fillEvent username password).
Proof.
  unfold fillOk. split; [intros f; exact I |].
  split; [left; reflexivity |]. split; [right; reflexivity |].
  apply debugOk_fillEvent.
Qed.

Lemma grows_enterCredentials username password st :
  grows (fillEvent username password) st
        (snd (enterCredentials username password st)).
Proof.
  pose proof (fillOk_fillEvent username password) as Hok.
  unfold enterCredentials, pass1, pass3.
  set (st0 := emitS _ st).
  assert (H0 : grows (fillEvent username password) st st0)
    by (apply grows_emitS; within).
  pose proof (grows_pass1Loop username password (clock st0) st0 Hok) as H1.
  destruct (pass1Loop username password (clock st0) st0) as [[|] st1];
    simpl in H1.
  - simpl. eapply grows_trans; eassumption.
  - pose proof (grows_pass2 username password st1 Hok) as H2.
    destruct (pass2 username password st1) as [[|] st2]; simpl in *.
    + eapply grows_trans; [exact H0 |]. eapply grows_trans; eassumption.
    + eapply grows_trans; [exact H0 |].
      eapply grows_trans; [exact H1 |].
      eapply grows_trans; [exact H2 | now apply grows_pass3Loop].
Qed.

Lemma Adds_saveStorageState : Adds tailEvent (saveStorageState STATE_FILE).
Proof.
  intros st0 st H. unfold post, saveStorageState.
  assert (Hg : grows tailEvent st (emitS (StorageState STATE_FILE) st))
    by (apply grows_emitS; within).
  destruct (storageState rt (world st)) as [[snapshot|e] w]; simpl;
    eapply grows_trans; try exact H;
    destruct Hg as [added [O F]]; exists added; split; auto.
Qed.

Lemma Adds_persistSession loginFilled isLoggedIn :
  Adds tailEvent (persistSession loginFilled isLoggedIn).
Proof.
  unfold persistSession. destruct loginFilled.
  - apply Adds_bind; [adds; within | intros _].
    apply Adds_bind; [adds; within | intros _].
    apply Adds_bind; [apply Adds_try_catch; [|intros ?]; adds; within
                     | intros otpVisible].
    apply Adds_bind; [adds; within | intros _].
    apply Adds_bind; [| intros _].
    { destruct (HEADED cfg) eqn:Eh; adds; within. }
    apply Adds_bind; [apply Adds_saveStorageState | intros _].
    adds; within.
  - destruct isLoggedIn; simpl; [apply Adds_ret |].
    adds; within.
Qed.

(** The alphabet of the whole [try] block. *)
Definition flowEvent (dashboard : option string) (username password : string)
  (e : Event) : Prop :=
  probeEvent dashboard e \/ fillEvent username password e \/ tailEvent e.

(** What the block adds when the probe finds the session alive: events
    of the probe and of the end of the block only. *)
Definition aliveEvent (dashboard : option string) (e : Event) : Prop :=
  probeEvent dashboard e \/ tailEvent e.

Lemma Adds_flow_tail P filled logged :
  (forall e, tailEvent e -> P e) ->
  forall st0 st, grows P st0 st ->
    post (persistSession filled logged ;;;
          when (HEADED cfg) (waitForEnter "Press Enter to close the browser...") ;;;
          ret {| isLoggedInUrl := logged; loginFilled := filled |})
         (fun _ s => grows P st0 s) st.
Proof.
  intros HP st0 st H.
  assert (Ht : Adds tailEvent
                 (persistSession filled logged ;;;
                  when (HEADED cfg)
                       (waitForEnter "Press Enter to close the browser...") ;;;
                  ret {| isLoggedInUrl := logged; loginFilled := filled |})).
  { apply Adds_bind; [apply Adds_persistSession | intros _].
    adds; within. }
  eapply post_conseq; [|apply (Ht st st (grows_refl tailEvent st))].
  intros r s Hs. eapply grows_trans; [exact H |].
  eapply grows_weaken; eassumption.
Qed.

(** Every event the [try] block adds is within its alphabet; and when
    the block ends with the session found alive by the probe, within the
    alphabet of the probe and of the end of the block. *)
Lemma flow_alphabet username password hasSavedState savedStateData st r st1 :
  flow username password hasSavedState savedStateData st = (r, st1) ->
  grows (flowEvent (savedBaseUrl hasSavedState savedStateData) username password)
        st st1 /\
  (forall flags, r = Ok flags -> isLoggedInUrl flags = true ->
                 grows (aliveEvent (savedBaseUrl hasSavedState savedStateData))
                       st st1).
Proof.
  set (dashboard := savedBaseUrl hasSavedState savedStateData).
  intros Hrun. unfold flow in Hrun. unfold bind at 1 in Hrun.
  pose proof (@Adds_checkSavedSession hasSavedState savedStateData st st
                (grows_refl _ st)) as Hprobe.
  fold dashboard in Hprobe. unfold post in Hprobe.
  destruct (checkSavedSession hasSavedState savedStateData st)
    as [[logged|e] s] eqn:Eprobe; simpl in Hprobe.
  2: { inversion Hrun; subst. split; [|discriminate].
       eapply grows_weaken; [|exact Hprobe]. unfold flowEvent. taut. }
  unfold bind at 1 in Hrun. destruct logged; simpl in Hrun.
  - assert (Ha : grows (aliveEvent dashboard) st s)
      by (eapply grows_weaken; [|exact Hprobe]; unfold aliveEvent; taut).
    pose proof (@post_run _ _ _ _ _ _
                  (@Adds_flow_tail (aliveEvent dashboard) false true
                     (fun e H => or_intror H) st s Ha) Hrun) as Ht.
    simpl in Ht. split; [|intros _ _ _; exact Ht].
    eapply grows_weaken; [|exact Ht]. unfold flowEvent, aliveEvent. taut.
  - pose proof (grows_enterCredentials username password s) as Henter.
    destruct (enterCredentials username password s) as [filled s2] eqn:Eenter.
    simpl in Henter.
    assert (Hs2 : grows (flowEvent dashboard username password) st s2).
    { eapply grows_trans.
      - eapply grows_weaken; [|exact Hprobe]. unfold flowEvent. taut.
      - eapply grows_weaken; [|exact Henter]. unfold flowEvent. taut. }
    pose proof (@post_run _ _ _ _ _ _
                  (@Adds_flow_tail (flowEvent dashboard username password)
                     filled false (fun e H => or_intror (or_intror H)) st s2 Hs2)
                  Hrun) as Ht.
    simpl in Ht. split; [exact Ht |].
    intros flags Hr Hlogged. exfalso. subst r.
    unfold bind in Hrun.
    destruct (persistSession filled false s2) as [[u|e] s3]; [|discriminate].
    destruct (when (HEADED cfg) _ s3) as [[u'|e] s4]; [|discriminate].
    inversion Hrun; subst. discriminate.
Qed.

(** What the steps before the [try] block can do. *)
Definition preludeEvent (e : Event) : Prop :=
  match e with
  | ConsoleLog args => printable args /\ announces args = false
  | MkdirSync path => path = AUTH_DIR \/ path = BROWSER_PROFILE_DIR
  | Launch channel =>
      channel = Some "chrome" \/ channel = Some "msedge" \/ channel = None
  | AddCookies count => (0 < count)%nat
  | NewPage => True
  | _ => False
  end.

Lemma debugOk_preludeEvent : debugOk preludeEvent.
Proof. intros args H. within. Qed.

Lemma Adds_launchBrowser : Adds preludeEvent launchBrowser.
Proof.
  unfold launchBrowser, launchNamed.
  apply Adds_bind.
  - apply Adds_try_catch; [adds; try apply debugOk_preludeEvent; within |].
    intros _.
    apply Adds_try_catch; [adds; try apply debugOk_preludeEvent; within |].
    intros _. apply Adds_ret.
  - intros [|]; simpl; adds; try apply debugOk_preludeEvent; within.
Qed.

Lemma Adds_mkdirSync path :
  path = AUTH_DIR \/ path = BROWSER_PROFILE_DIR -> Adds preludeEvent (mkdirSync path).
Proof.
  intros Hp. unfold mkdirSync. apply Adds_bind; [adds; exact Hp | intros _].
  intros st0 st H. exact H.
Qed.

Lemma Adds_seedCookies hasSavedState : Adds preludeEvent (seedCookies hasSavedState).
Proof.
  unfold seedCookies. destruct hasSavedState; [|apply Adds_ret].
  intros st0 st H. unfold post.
  destruct (loadStateFile (fs st) STATE_FILE) as [savedStateData|e]; [|exact H].
  assert (Hq : Adds preludeEvent
    (when (Nat.ltb 0 (List.length (cookies savedStateData)))
       (call (AddCookies (List.length (cookies savedStateData)))
             (addCookies rt (cookies savedStateData)) ;;;
        console_log [AStr "Loaded saved session from"; AStr STATE_FILE]) ;;;
     ret (Some savedStateData))).
  { adds; [|within]. cbn. now apply Nat.ltb_lt. }
  exact (Hq st0 st H).
Qed.

Lemma Adds_firstPage : Adds preludeEvent firstPage.
Proof.
  intros st0 st H. unfold firstPage, post.
  destruct (pages rt (world st)); [exact H |].
  assert (Hq : Adds preludeEvent (call NewPage (newPage rt)))
    by (adds; exact I).
  exact (Hq st0 st H).
Qed.

Lemma Adds_prelude username : Adds preludeEvent (prelude username).
Proof.
  unfold prelude.
  apply Adds_bind; [adds; within | intros _].
  apply Adds_bind; [intros st0 st H; exact H | intros authDir].
  apply Adds_bind; [apply Adds_when; intros _; apply Adds_mkdirSync; auto
                   | intros _].
  apply Adds_bind; [intros st0 st H; exact H | intros profileDir].
  apply Adds_bind; [apply Adds_when; intros _; apply Adds_mkdirSync; auto
                   | intros _].
  apply Adds_bind; [intros st0 st H; exact H | intros hasSavedState].
  apply Adds_bind; [apply Adds_launchBrowser | intros _].
  apply Adds_bind; [apply Adds_seedCookies | intros savedStateData].
  apply Adds_bind; [apply Adds_firstPage | intros _].
  apply Adds_ret.
Qed.

(** What the [catch] and the [finally] can do, and the branch that ends
    the process for want of credentials. *)
Definition closingEvent (e : Event) : Prop :=
  match e with
  | ConsoleError _ => True
  | ContextClose => True
  | _ => False
  end.

(** The alphabet of [main]. *)
Definition mainEvent (e : Event) : Prop :=
  preludeEvent e \/
  (exists dashboard,
      flowEvent dashboard (trim (envOrEmpty (SF_USERNAME cfg)))
                (trim (envOrEmpty (SF_PASSWORD cfg))) e) \/
  closingEvent e.

Lemma grows_guarded username password hasSavedState savedStateData st :
  grows (fun e => flowEvent (savedBaseUrl hasSavedState savedStateData)
                            username password e \/ closingEvent e)
        st (snd (guarded username password hasSavedState savedStateData st)).
Proof.
  pose proof (guarded_closes_context username password hasSavedState
                savedStateData st) as Hg.
  destruct (flow username password hasSavedState savedStateData st)
    as [r0 s0] eqn:Ef.
  destruct (flow_alphabet _ _ _ _ _ Ef) as [[added [O F]] _].
  destruct (guarded username password hasSavedState savedStateData st)
    as [r st1].
  simpl. destruct r0 as [flags|[e|]].
  - destruct Hg as [Hout _]. exists (ContextClose :: added). split.
    + rewrite Hout, O. reflexivity.
    + constructor; [right; exact I |].
      eapply Forall_impl; [|exact F]. intros e He. now left.
  - destruct Hg as [Hout _].
    exists (ContextClose :: ConsoleError [AStr e] :: added). split.
    + rewrite Hout, O. reflexivity.
    + constructor; [right; exact I |]. constructor; [right; exact I |].
      eapply Forall_impl; [|exact F]. intros e' He. now left.
  - destruct Hg as [_ ->]. exists added. split; [exact O |].
    eapply Forall_impl; [|exact F]. intros e He. now left.
Qed.

(** Every event a run of [main] adds is within the alphabet of [main]. *)
Lemma main_alphabet st : grows mainEvent st (snd (main st)).
Proof.
  unfold main.
  set (username := trim (envOrEmpty (SF_USERNAME cfg))).
  set (password := trim (envOrEmpty (SF_PASSWORD cfg))).
  destruct (String.eqb username "" || String.eqb password "").
  { simpl. eapply grows_trans; apply grows_emitS; right; right; exact I. }
  unfold bind.
  pose proof (@Adds_prelude username st st (grows_refl _ st)) as Hpre.
  unfold post in Hpre.
  destruct (prelude username st) as [[[hasSavedState savedStateData]|e] s0];
    simpl in Hpre.
  2: { destruct e; simpl; (eapply grows_weaken; [|exact Hpre]);
       intros e' He; now left. }
  simpl.
  pose proof (grows_guarded username password hasSavedState savedStateData s0)
    as Hg.
  destruct (guarded username password hasSavedState savedStateData s0)
    as [[u|[e|]] s1]; simpl in *.
  all: eapply grows_trans;
    [eapply grows_weaken; [|exact Hpre]; intros e' He; now left |].
  all: eapply grows_weaken; [|exact Hg].
  all: intros e' [He | He]; [right; left; eexists; exact He | right; right; exact He].
Qed.

(** A run of [main] waits for the Enter key only when it was started
    with [--headed]: without the flag it never stops for the keyboard. *)
Theorem keyboard_wait_only_when_headed :
  forall st,
    exists added,
      out (snd (main st)) = (added ++ out st)%list /\
      forall prompt, In (WaitForEnter prompt) added -> HEADED cfg = true.
Proof.
  intros st. destruct (main_alphabet st) as [added [O F]].
  exists added. split; [exact O |]. intros prompt Hin.
  rewrite Forall_forall in F. specialize (F _ Hin).
  destruct F as [F | [[d [F | [F | F]]] | F]]; simpl in F;
    try contradiction; exact F.
Qed.

(** A run of [main] prints a line tagged [[debug]] only when it was
    started with [--debug]. *)
Theorem debug_lines_only_under_debug :
  forall st,
    exists added,
      out (snd (main st)) = (added ++ out st)%list /\
      forall args, In (ConsoleLog args) added ->
                   debugLine args = true -> DEBUG cfg = true.
Proof.
  intros st. destruct (main_alphabet st) as [added [O F]].
  exists added. split; [exact O |]. intros args Hin.
  rewrite Forall_forall in F. specialize (F _ Hin).
  destruct F as [F | [[d [F | [F | F]]] | F]]; simpl in F;
    try contradiction; apply F.
Qed.

(** The [try] block navigates only to the entry URL, to the home URL,
    or to [/lightning/page/home] under the base URL of the saved state;
    the last only when the saved state has a base URL. *)
Theorem flow_navigates_to_known_urls_only :
  forall username password hasSavedState savedStateData st r st1,
    flow username password hasSavedState savedStateData st = (r, st1) ->
    exists added,
      out st1 = (added ++ out st)%list /\
      forall target waitUntil timeout,
        In (Goto target waitUntil timeout) added ->
        target = SALESFORCE_URL \/ target = SALESFORCE_HOME_URL \/
        exists base,
          savedBaseUrl hasSavedState savedStateData = Some base /\
          target = base ++ "/lightning/page/home".
Proof.
  intros username password hasSavedState savedStateData st r st1 Hrun.
  destruct (flow_alphabet _ _ _ _ _ Hrun) as [[added [O F]] _].
  exists added. split; [exact O |]. intros target waitUntil timeout Hin.
  rewrite Forall_forall in F. specialize (F _ Hin).
  destruct F as [F | [F | F]]; simpl in F; try contradiction; exact F.
Qed.


(* ===================================================================== *)
(** * More properties: closing the context, the directories, the save *)
(* ===================================================================== *)

Lemma not_close_preludeEvent e : preludeEvent e -> e <> ContextClose.
Proof. intros H ->. exact H. Qed.

Lemma not_close_flowEvent dashboard username password e :
  flowEvent dashboard username password e -> e <> ContextClose.
Proof. intros [H | [H | H]] ->; exact H. Qed.

Lemma Forall_not_In {A} (x : A) l : Forall (fun y => y <> x) l -> ~ In x l.
Proof. intros F Hin. rewrite Forall_forall in F. exact (F _ Hin eq_refl). Qed.

(** A run of [main] closes the context at most once, and when it does,
    that is the last thing it does. It does so exactly when it reaches
    the [try] block and the block comes to an end, by returning or by
    throwing: the credentials are there, the steps before the block (the
    directories, the launch, the cookies, the page) all succeeded, and
    the block did not stop at a keyboard wait that never returns. *)
Theorem context_closed_once_and_last :
  forall st,
    exists added,
      out (snd (main st)) = (added ++ out st)%list /\
      (In ContextClose added ->
       exists rest, added = ContextClose :: rest /\ ~ In ContextClose rest) /\
      (In ContextClose added <->
       (~ (exists code, fst (main st) = Exited code)) /\
       exists saved s0,
         prelude (trim (envOrEmpty (SF_USERNAME cfg))) st = (Ok saved, s0) /\
         fst (flow (trim (envOrEmpty (SF_USERNAME cfg)))
                   (trim (envOrEmpty (SF_PASSWORD cfg)))
                   (fst saved) (snd saved) s0)
         <> Throw Pending).
Proof.
  intros st. unfold main.
  set (username := trim (envOrEmpty (SF_USERNAME cfg))).
  set (password := trim (envOrEmpty (SF_PASSWORD cfg))).
  destruct (String.eqb username "" || String.eqb password "").
  { eexists [_; _]. simpl. split; [reflexivity |]. split.
    - intros [H | [H | []]]; discriminate.
    - split.
      + intros [H | [H | []]]; discriminate.
      + intros [H _]. elim H. eauto. }
  unfold bind.
  pose proof (@Adds_prelude username st st (grows_refl _ st)) as Hpre.
  unfold post in Hpre.
  destruct (prelude username st) as [[saved|e] s0] eqn:Ep;
    simpl in Hpre; destruct Hpre as [pre [Opre Fpre]].
  2: { exists pre. split; [destruct e; exact Opre |].
       assert (Hno : ~ In ContextClose pre).
       { apply Forall_not_In. eapply Forall_impl; [|exact Fpre].
         apply not_close_preludeEvent. }
       split; [intros H; now elim Hno |].
       split; [intros H; now elim Hno |].
       intros [_ [saved [s1 [H _]]]]. discriminate. }
  pose proof (guarded_closes_context username password (fst saved) (snd saved)
                s0) as Hg.
  destruct (flow username password (fst saved) (snd saved) s0)
    as [r0 s1] eqn:Ef.
  destruct (flow_alphabet _ _ _ _ _ Ef) as [[mid [Omid Fmid]] _].
  assert (Hmid : Forall (fun e => e <> ContextClose) mid).
  { eapply Forall_impl; [|exact Fmid]. apply not_close_flowEvent. }
  assert (Hprefix : Forall (fun e => e <> ContextClose) pre).
  { eapply Forall_impl; [|exact Fpre]. apply not_close_preludeEvent. }
  destruct (guarded username password (fst saved) (snd saved) s0)
    as [r st1].
  assert (Hcases :
            (r0 <> Throw Pending /\
             (forall code, fst (match r with
                                | Ok _ => (Resolved, st1)
                                | Throw (Raised e) => (Rejected e, st1)
                                | Throw Pending => (Unsettled, st1)
                                end) <> Exited code) /\
             exists rest,
               out st1 = (ContextClose :: rest ++ out st)%list /\
               ~ In ContextClose rest) \/
            (r0 = Throw Pending /\
             out st1 = ((mid ++ pre) ++ out st)%list)).
  { destruct r0 as [flags|[e|]].
    - left. destruct Hg as [Hout _]. split; [discriminate |].
      split; [intros code; destruct r as [u|[e|]]; discriminate |].
      exists (mid ++ pre)%list. split.
      + rewrite Hout, Omid, Opre, app_assoc. reflexivity.
      + apply Forall_not_In, Forall_app. auto.
    - left. destruct Hg as [Hout _]. split; [discriminate |].
      split; [intros code; destruct r as [u|[e'|]]; discriminate |].
      exists (ConsoleError [AStr e] :: mid ++ pre)%list. split.
      + rewrite Hout, Omid, Opre, app_assoc. reflexivity.
      + apply Forall_not_In. constructor; [discriminate |].
        apply Forall_app. auto.
    - right. destruct Hg as [_ ->]. split; [reflexivity |].
      now rewrite Omid, Opre, app_assoc. }
  assert (Hst1 : out (snd (match r with
                           | Ok _ => (Resolved, st1)
                           | Throw (Raised e) => (Rejected e, st1)
                           | Throw Pending => (Unsettled, st1)
                           end)) = out st1)
    by (destruct r as [u|[e|]]; reflexivity).
  rewrite Hst1.
  destruct Hcases as [[Hr0 [Hexit [rest [Hout Hrest]]]] | [Hr0 Hout]].
  - exists (ContextClose :: rest). split; [exact Hout |]. split.
    + intros _. eauto.
    + split.
      * intros _. split; [intros [code H]; exact (Hexit code H) |].
        exists saved, s0. split; [reflexivity | now rewrite Ef].
      * intros _. now left.
  - exists (mid ++ pre)%list. split; [exact Hout |].
    assert (Hno : ~ In ContextClose (mid ++ pre)%list)
      by (apply Forall_not_In, Forall_app; auto).
    split; [intros H; now elim Hno |].
    split; [intros H; now elim Hno |].
    intros [_ [saved' [s0' [H Hflow]]]]. inversion H; subst.
    elim Hflow. rewrite Ef. reflexivity.
Qed.

Lemma AUTH_DIR_not_BROWSER_PROFILE_DIR :
  String.eqb AUTH_DIR BROWSER_PROFILE_DIR = false.
Proof.
  apply String.eqb_neq. unfold BROWSER_PROFILE_DIR. intros H.
  apply (f_equal String.length) in H. rewrite string_length_append in H.
  simpl in H. lia.
Qed.

(** No launch so far. *)
Definition beforeLaunch (e : Event) : Prop :=
  match e with
  | Launch _ => False
  | _ => True
  end.

(** Both directories exist. *)
Definition directoriesExist (files : FS) : Prop :=
  existsSync files AUTH_DIR = true /\ existsSync files BROWSER_PROFILE_DIR = true.

(** The browser is only ever launched against a profile directory that
    exists: whenever the steps before the [try] block have attempted a
    launch, [.auth] and [.auth/browser-profile] both exist, made by the
    run if they were missing, and they do whenever those steps succeed. *)
Theorem directories_exist_before_launch :
  forall username st r s0,
    prelude username st = (r, s0) ->
    exists added,
      out s0 = (added ++ out st)%list /\
      ((exists channel, In (Launch channel) added) -> directoriesExist (fs s0)) /\
      (forall saved, r = Ok saved -> directoriesExist (fs s0)).
Proof.
  intros username st r s0 Hrun.
  set (Q := fun (r : Awaited (bool * option Artifact)) (s : State) =>
              exists added,
                out s = (added ++ out st)%list /\
                ((exists channel, In (Launch channel) added) ->
                 directoriesExist (fs s)) /\
                (forall saved, r = Ok saved -> directoriesExist (fs s))).
  assert (Hearly : forall (e : Abrupt) s,
             grows beforeLaunch st s -> Q (Throw e) s).
  { intros e s [added [O F]]. exists added. split; [exact O |]. split.
    - intros [channel Hin]. rewrite Forall_forall in F. elim (F _ Hin).
    - discriminate. }
  assert (Hlate : forall r' s s', directoriesExist (fs s) ->
             grows beforeLaunch st s -> steady s s' -> Q r' s').
  { intros r' s s' Hd [a1 [O1 _]] [Hfs [a2 [O2 _]]].
    exists (a2 ++ a1)%list. rewrite O2, O1, app_assoc, Hfs. auto. }
  enough (HQ : post (prelude username) Q st) by exact (post_run _ _ _ HQ Hrun).
  unfold prelude.
  apply post_bind, post_console_log. apply post_bind. unfold post at 1. simpl.
  set (s1 := emitS _ st).
  assert (G1 : grows beforeLaunch st s1) by (apply grows_emitS; exact I).
  assert (Hmk : forall path s,
             grows beforeLaunch st s ->
             post (when (negb (existsSync (fs s) path)) (mkdirSync path))
                  (fun r' s' => match r' with
                                | Ok _ =>
                                    grows beforeLaunch st s' /\
                                    existsSync (fs s') path = true /\
                                    (forall p, String.eqb p path = false ->
                                               fs s' p = fs s p)
                                | Throw _ => grows beforeLaunch st s'
                                end) s).
  { intros path s G. destruct (existsSync (fs s) path) eqn:Ex; simpl.
    - apply post_ret. auto.
    - unfold mkdirSync. apply post_bind, post_call. intros [u|e] w _.
      + unfold post. simpl.
        assert (G' : grows beforeLaunch st (setWorld w (emitS (MkdirSync path) s))).
        { eapply grows_trans; [exact G |].
          destruct (grows_emitS beforeLaunch (MkdirSync path) s I) as [a [O F]].
          exists a. auto. }
        split; [destruct G' as [a [O F]]; exists a; auto |].
        split.
        * unfold existsSync. simpl. now rewrite String.eqb_refl.
        * intros p Hp. simpl. now rewrite Hp.
      + simpl. eapply grows_trans; [exact G |].
        destruct (grows_emitS beforeLaunch (MkdirSync path) s I) as [a [O F]].
        exists a. auto. }
  apply post_bind.
  eapply post_conseq; [|apply (Hmk AUTH_DIR s1 G1)].
  intros [u|e] s2 H2; [|now apply Hearly].
  destruct H2 as [G2 [Ha Hkeep2]].
  apply post_bind. unfold post at 1. simpl. apply post_bind.
  eapply post_conseq; [|apply (Hmk BROWSER_PROFILE_DIR s2 G2)].
  intros [u'|e] s3 H3; [|now apply Hearly].
  destruct H3 as [G3 [Hb Hkeep3]].
  assert (Hd : directoriesExist (fs s3)).
  { split; [|exact Hb]. unfold existsSync.
    rewrite (Hkeep3 AUTH_DIR AUTH_DIR_not_BROWSER_PROFILE_DIR). exact Ha. }
  assert (Hrest : Quiet
    (hasSavedState <- fileExists STATE_FILE ;;
     launchBrowser ;;;
     savedStateData <- seedCookies hasSavedState ;;
     firstPage ;;;
     ret (hasSavedState, savedStateData))).
  { apply Quiet_bind; [apply Quiet_fileExists | intros h].
    apply Quiet_bind; [apply Quiet_launchBrowser | intros _].
    apply Quiet_bind; [apply Quiet_seedCookies | intros saved].
    apply Quiet_bind; [apply Quiet_firstPage | intros _].
    apply Quiet_ret. }
  eapply post_conseq; [|apply (Hrest s3 s3 (steady_refl s3))].
  intros r' s' Hs. exact (Hlate r' s3 s' Hd G3 Hs).
Qed.

(** The save at the end of the block that follows a submission, when
    [storageState] is called in world [w]: the call succeeds and the
    state file holds exactly the snapshot the browser handed over, every
    other file being as it was, and the last line printed says so; or
    the call rejects, the block throws its error and no file has
    changed. *)
Definition savedAt (st : State) (w : W) (r : Awaited unit) (st1 : State) : Prop :=
  match storageState rt w with
  | (Ok snapshot, w') =>
      r = Ok tt /\ world st1 = w' /\
      fs st1 = writeFile (fs st) STATE_FILE snapshot /\
      hd_error (out st1)
      = Some (ConsoleLog [AStr "Session saved to"; AStr STATE_FILE])
  | (Throw e, w') =>
      r = Throw (Raised e) /\ world st1 = w' /\ fs st1 = fs st
  end.

(** Once the form was submitted, nothing the two selector waits answer
    keeps the session from being saved. When [waitForLoadState] rejects,
    the block throws that error and no file has changed. Otherwise the
    block goes on to the save whether the selectors were found or the
    waits timed out, in the world the waits leave behind; a headed run
    first waits for the keyboard, and stops there with no file changed
    when the keyboard never answers. *)
Theorem session_saved_whatever_the_selectors_answer :
  forall isLoggedIn st r st1,
    persistSession true isLoggedIn st = (r, st1) ->
    match waitForLoadState rt (world st) with
    | (Throw e, _) => r = Throw (Raised e) /\ fs st1 = fs st
    | (Ok _, w1) =>
        let w2 := snd (waitForSelector rt otpSelectors 3000 w1) in
        if HEADED cfg then
          match enterPressed rt w2 with
          | Some w3 => savedAt st w3 r st1
          | None => r = Throw Pending /\ fs st1 = fs st
          end
        else
          savedAt st (snd (waitForSelector rt postLoginSelectors 120000 w2)) r st1
    end.
Proof.
  intros isLoggedIn st r st1.
  unfold persistSession, savedAt, swallow, when, saveStorageState, waitForEnter,
    try_catch, bind, call, console_log, ret, settle.
  cbn [world emitS setWorld setFs fs out fst snd].
  destruct (waitForLoadState rt (world st)) as [[u|e] w1];
    cbn [world emitS setWorld setFs fs out fst snd];
    [|intros H; inversion H; subst; cbn; auto].
  destruct (waitForSelector rt otpSelectors 3000 w1) as [[u2|e2] w2];
    cbn [world emitS setWorld setFs fs out fst snd].
  all: destruct (HEADED cfg);
    cbn [world emitS setWorld setFs fs out fst snd].
  1,3: destruct (enterPressed rt w2) as [w3|];
    cbn [world emitS setWorld setFs fs out fst snd];
    [|intros H; inversion H; subst; cbn; auto].
  3,4: destruct (waitForSelector rt postLoginSelectors 120000 w2)
         as [[u3|e3] w3];
    cbn [world emitS setWorld setFs fs out fst snd].
  all: destruct (storageState rt w3) as [[snapshot|e4] w4];
    cbn [world emitS setWorld setFs fs out fst snd];
    intros H; inversion H; subst; cbn; auto.
Qed.

(* ===================================================================== *)
(** * More properties: what the injected function touches *)
(* ===================================================================== *)

Lemma In_script_SetValue document u p username password e v :
  In (SetValue e v) (script document u p username password) ->
  (e = u /\ v = username) \/ (e = p /\ v = password).
Proof.
  unfold script, typing, submission. intros H. apply in_app_or in H.
  destruct H as [H | H].
  - simpl in H.
    repeat (destruct H as [H | H];
            [try discriminate H; inversion H; subst; auto |]).
    contradiction.
  - destruct (submitControl document) as [btn|];
      [|destruct (loginForm document u) as [form|]]; simpl in H.
    + destruct H as [H | []]. discriminate H.
    + destruct H as [H | []]. discriminate H.
    + contradiction.
Qed.

(** One run of the injected function touches the document only when
    it has found both fields. It then goes through its script in order:
    focus, value, [input] and [change] on the username field with the
    username, the same on the password field with the password, then the
    click on the submit control if there is one, or else the submit of
    the form if there is one. When it reports, it reports done and has
    performed the whole script, so both fields are set; when it throws,
    it has performed exactly the operations before the one that threw.
    It reports whenever no operation throws, and no value is ever set
    but the username on the username field and the password on the
    password field. *)
Theorem injection_performs_its_script_in_order :
  forall document username password,
    let returned := fst (loginPageFunction document username password) in
    let actions := snd (loginPageFunction document username password) in
    match usernameField document, passwordField document with
    | Some u, Some p =>
        (returned = Ok {| done := true; message := said document u |} /\
         actions = script document u p username password) \/
        exists e before a after,
          script document u p username password = (before ++ a :: after)%list /\
          raises document before a = Some e /\
          returned = Throw e /\ actions = before
    | _, _ =>
        (exists result, returned = Ok result /\ done result = false) /\
        actions = []
    end /\
    (answers document -> exists result, returned = Ok result) /\
    (forall e v,
        In (SetValue e v) actions ->
        (usernameField document = Some e /\ v = username) \/
        (passwordField document = Some e /\ v = password)).
Proof.
  intros document username password returned actions.
  unfold returned, actions. clear returned actions.
  pose proof (loginPageFunction_cases document username password) as Hc.
  destruct (usernameField document) as [u|];
    [destruct (passwordField document) as [p|] |].
  - destruct Hc as [Hc | [e [before [a [after [Hs [Hr Hc]]]]]]];
      rewrite Hc; simpl.
    + split; [left; auto |]. split; [eauto |].
      intros e v Hin. apply In_script_SetValue in Hin.
      destruct Hin as [[-> ->] | [-> ->]]; auto.
    + split; [right; exists e, before, a, after; auto |]. split.
      * intros Hno. rewrite (Hno before a) in Hr. discriminate.
      * intros e' v Hin.
        assert (Hin' : In (SetValue e' v) (script document u p username password))
          by (rewrite Hs; apply in_or_app; now left).
        apply In_script_SetValue in Hin'.
        destruct Hin' as [[-> ->] | [-> ->]]; auto.
  - rewrite Hc. simpl. split; [split; eauto |]. split; [eauto |].
    intros e v [].
  - rewrite Hc. simpl. split; [split; eauto |]. split; [eauto |].
    intros e v [].
Qed.

(* ===================================================================== *)
(** * More properties: how the [try] block ends *)
(* ===================================================================== *)

(** When the probe answers that no session is alive and no pass finds
    a form, the [try] block does not throw: the last line it prints is
    [Already logged in (session from cookies).], it has written no file,
    and it ends with both flags false. A headed run waits for the
    keyboard after that line, and does not end when the keyboard never
    answers. *)
Theorem no_form_is_reported_as_logged_in :
  forall username password hasSavedState savedStateData st s,
    checkSavedSession hasSavedState savedStateData st = (Ok false, s) ->
    fst (enterCredentials username password s) = false ->
    exists st1 rest,
      flow username password hasSavedState savedStateData st
      = (if HEADED cfg
         then match enterPressed rt
                      (world (snd (enterCredentials username password s))) with
              | Some _ => Ok {| isLoggedInUrl := false; loginFilled := false |}
              | None => Throw Pending
              end
         else Ok {| isLoggedInUrl := false; loginFilled := false |},
         st1) /\
      out st1
      = ((if HEADED cfg
          then [WaitForEnter "Press Enter to close the browser..."]
          else [])
         ++ ConsoleLog [AStr "Already logged in (session from cookies)."]
         :: rest)%list /\
      fs st1 = fs st.
Proof.
  intros username password hasSavedState savedStateData st s Hprobe Hf.
  pose proof (@Quiet_checkSavedSession hasSavedState savedStateData st st
                (steady_refl st)) as Hq.
  unfold post in Hq. rewrite Hprobe in Hq. simpl in Hq.
  pose proof (steady_enterCredentials username password s) as Henter.
  assert (Hfs : fs (snd (enterCredentials username password s)) = fs st)
    by (rewrite (steady_fs Henter); exact (steady_fs Hq)).
  unfold flow. unfold bind at 1. rewrite Hprobe. unfold bind at 1.
  cbn [negb].
  destruct (enterCredentials username password s) as [filled s2].
  simpl in Hf, Hfs. subst filled.
  unfold persistSession. cbn [negb].
  unfold bind, when, console_log, waitForEnter, page_url, ret.
  destruct (DEBUG cfg); destruct (HEADED cfg); cbn [fst snd world emitS].
  1,3: destruct (enterPressed rt (world s2)) as [w|].
  all: eexists; eexists; (split; [reflexivity |]);
    (split; [reflexivity | exact Hfs]).
Qed.

(** An error thrown in the [try] block does not come out of [main]:
    it is printed with [console.error], the exit code is set to 1, the
    context is closed after that, and [main] resolves; [main] rejects
    only with an error of the close itself. *)
Theorem try_block_error_is_reported :
  forall st saved s0 e s1,
    ~ blank (SF_USERNAME cfg) ->
    ~ blank (SF_PASSWORD cfg) ->
    prelude (trim (envOrEmpty (SF_USERNAME cfg))) st = (Ok saved, s0) ->
    flow (trim (envOrEmpty (SF_USERNAME cfg)))
         (trim (envOrEmpty (SF_PASSWORD cfg))) (fst saved) (snd saved) s0
    = (Throw (Raised e), s1) ->
    out (snd (main st)) = ContextClose :: ConsoleError [AStr e] :: out s1 /\
    exitCode (snd (main st)) = Some 1 /\
    fst (main st) = match fst (close rt (world s1)) with
                    | Ok _ => Resolved
                    | Throw e' => Rejected e'
                    end.
Proof.
  intros st saved s0 e s1 Hu Hp Hpre Hflow. unfold main.
  assert (Eu : String.eqb (trim (envOrEmpty (SF_USERNAME cfg))) "" = false)
    by (apply not_true_is_false; intros E; apply Hu; now apply blank_trim).
  assert (Ep : String.eqb (trim (envOrEmpty (SF_PASSWORD cfg))) "" = false)
    by (apply not_true_is_false; intros E; apply Hp; now apply blank_trim).
  rewrite Eu, Ep. simpl orb. cbv iota.
  unfold bind. rewrite Hpre.
  pose proof (guarded_closes_context (trim (envOrEmpty (SF_USERNAME cfg)))
                (trim (envOrEmpty (SF_PASSWORD cfg))) (fst saved) (snd saved) s0)
    as Hg.
  rewrite Hflow in Hg.
  destruct (guarded _ _ (fst saved) (snd saved) s0) as [r st1].
  destruct Hg as [Hout [Hexit Hr]].
  unfold closeContext, call in Hr. simpl in Hr.
  destruct (close rt (world s1)) as [rc w]. simpl in Hr. subst r.
  destruct rc as [u|e']; simpl; auto.
Qed.

(* ===================================================================== *)
(** * More properties: the exit code *)
(* ===================================================================== *)

(** A computation that leaves [process.exitCode] as it is. *)
Definition Calm {A} (c : M A) : Prop :=
  forall st, exitCode (snd (c st)) = exitCode st.

Lemma Calm_ret {A} (a : A) : Calm (ret a).
Proof. intros st. reflexivity. Qed.

Lemma Calm_bind {A B} (c : M A) (k : A -> M B) :
  Calm c -> (forall a, Calm (k a)) -> Calm (bind c k).
Proof.
  intros Hc Hk st. unfold bind. specialize (Hc st).
  destruct (c st) as [[a|e] s]; simpl in *; [rewrite Hk |]; exact Hc.
Qed.

Lemma Calm_try_catch {A} (body : M A) handler :
  Calm body -> (forall e, Calm (handler e)) -> Calm (try_catch body handler).
Proof.
  intros Hb Hh st. unfold try_catch. specialize (Hb st).
  destruct (body st) as [[a|[e|]] s]; simpl in *; [|rewrite Hh |]; exact Hb.
Qed.

Lemma Calm_call {A} e (op : W -> Outcome A * W) : Calm (call e op).
Proof. intros st. unfold call. now destruct (op (world st)). Qed.

Lemma Calm_console_log args : Calm (console_log args).
Proof. intros st. reflexivity. Qed.

Lemma exitCode_logS args st : exitCode (logS args st) = exitCode st.
Proof. unfold logS. now destruct (DEBUG cfg). Qed.

Lemma exitCode_delayS ms st : exitCode (delayS ms st) = exitCode st.
Proof. unfold delayS. now destruct (sleep rt ms (world st)). Qed.

Lemma Calm_log args : Calm (log args).
Proof. intros st. apply exitCode_logS. Qed.

Lemma Calm_delay ms : Calm (delay ms).
Proof. intros st. apply exitCode_delayS. Qed.

Lemma Calm_page_url : Calm page_url.
Proof. intros st. reflexivity. Qed.

Lemma Calm_waitForEnter msg : Calm (waitForEnter msg).
Proof.
  intros st. unfold waitForEnter.
  now destruct (enterPressed rt (world st)).
Qed.

Lemma Calm_when (b : bool) c : Calm c -> Calm (when b c).
Proof. intros H. destruct b; [exact H | apply Calm_ret]. Qed.

Lemma Calm_swallow c : Calm c -> Calm (swallow c).
Proof. intros H. apply Calm_try_catch; [exact H | intros; apply Calm_ret]. Qed.

Lemma Calm_navigate target waitUntil timeout :
  Calm (navigate target waitUntil timeout).
Proof. apply Calm_call. Qed.

Ltac calm :=
  repeat first
    [ apply Calm_bind; [|intros ?] | apply Calm_ret | apply Calm_page_url
    | apply Calm_console_log | apply Calm_log | apply Calm_delay
    | apply Calm_waitForEnter | apply Calm_swallow; [] | apply Calm_navigate
    | apply Calm_call | apply Calm_when; [] ].

Lemma Calm_checkSavedSession hasSavedState savedStateData :
  Calm (checkSavedSession hasSavedState savedStateData).
Proof.
  unfold checkSavedSession, probeSaved, probeDashboard, probeEntry,
    probeLoginPage.
  apply Calm_bind.
  - destruct (savedBaseUrl hasSavedState savedStateData); [calm |].
    destruct hasSavedState; calm.
  - intros [|]; simpl; calm.
Qed.

Lemma exitCode_fillLoginInFrame frame user pass st :
  exitCode (snd (fillLoginInFrame frame user pass st)) = exitCode st.
Proof.
  unfold fillLoginInFrame.
  destruct (evaluateEnter rt frame (world (emitS (Evaluate frame) st)))
    as [[[document|e] d] w]; [|reflexivity].
  destruct (loginPageFunction document user pass) as [result actions].
  now destruct (evaluateLeave rt frame actions w) as [[[u|e] d'] w'].
Qed.

Lemma exitCode_pollOnce frame user pass st :
  exitCode (snd (pollOnce frame user pass st)) = exitCode st.
Proof.
  unfold pollOnce.
  pose proof (exitCode_fillLoginInFrame frame user pass st) as H.
  destruct (fillLoginInFrame frame user pass st) as [[result|e] st1];
    simpl in *; [destruct (done result); simpl |];
    rewrite ?exitCode_logS; exact H.
Qed.

Lemma exitCode_waitLoop frame user pass start maxWaitMs st :
  exitCode (snd (waitLoop frame user pass start maxWaitMs st)) = exitCode st.
Proof.
  funelim (waitLoop frame user pass start maxWaitMs st); simpl;
    try reflexivity.
  all: pose proof (exitCode_pollOnce frame user pass st) as Hp.
  all: match goal with E : pollOnce _ _ _ _ = _ |- _ => rewrite E in Hp end.
  all: simpl in Hp; try exact Hp.
  match goal with IH : exitCode _ = _ |- _ => rewrite IH end.
  now rewrite exitCode_delayS.
Qed.

Lemma exitCode_waitAndFillFrame frame user pass maxWaitMs st :
  exitCode (snd (waitAndFillFrame frame user pass maxWaitMs st)) = exitCode st.
Proof. apply exitCode_waitLoop. Qed.

Lemma exitCode_pass1Iter user pass st :
  exitCode (snd (pass1Iter user pass st)) = exitCode st.
Proof.
  unfold pass1Iter.
  destruct (findSessionFrame (world st)) as [f|]; simpl;
    [|apply exitCode_delayS].
  set (st0 := logS _ st).
  pose proof (exitCode_waitAndFillFrame f user pass 20000 st0) as Hw.
  destruct (waitAndFillFrame f user pass 20000 st0) as [result st2].
  simpl in Hw. unfold st0 in Hw. rewrite exitCode_logS in Hw.
  destruct (done result); simpl;
    rewrite ?exitCode_logS, ?exitCode_delayS; exact Hw.
Qed.

Lemma exitCode_pass1Loop user pass pollStart st :
  exitCode (snd (pass1Loop user pass pollStart st)) = exitCode st.
Proof.
  funelim (pass1Loop user pass pollStart st); simpl; try reflexivity.
  all: pose proof (exitCode_pass1Iter user pass st) as Hp.
  all: match goal with E : pass1Iter _ _ _ = _ |- _ => rewrite E in Hp end.
  all: simpl in Hp; try exact Hp.
  match goal with IH : exitCode _ = _ |- _ => rewrite IH end. exact Hp.
Qed.

Lemma exitCode_pass2 user pass st :
  exitCode (snd (pass2 user pass st)) = exitCode st.
Proof.
  unfold pass2. set (st0 := logS _ st).
  pose proof (exitCode_waitAndFillFrame (mainFrame rt (world st0)) user pass
                15000 st0) as Hw.
  destruct (waitAndFillFrame (mainFrame rt (world st0)) user pass 15000 st0)
    as [result st1].
  simpl in Hw. unfold st0 in Hw. rewrite exitCode_logS in Hw.
  destruct (done result); simpl; rewrite ?exitCode_logS; exact Hw.
Qed.

Lemma exitCode_pass3Loop user pass remaining : forall st,
  exitCode (snd (pass3Loop user pass remaining st)) = exitCode st.
Proof.
  induction remaining as [|frame rest IH]; intros st; simpl; [reflexivity |].
  destruct (Nat.eqb frame (mainFrame rt (world st)) || hasMarker (world st) frame);
    [apply IH |].
  pose proof (exitCode_waitAndFillFrame frame user pass 8000 st) as Hw.
  destruct (waitAndFillFrame frame user pass 8000 st) as [result st1].
  simpl in Hw. destruct (done result); simpl.
  - now rewrite exitCode_logS.
  - now rewrite IH.
Qed.

Lemma exitCode_enterCredentials username password st :
  exitCode (snd (enterCredentials username password st)) = exitCode st.
Proof.
  unfold enterCredentials, pass1, pass3. set (st0 := emitS _ st).
  pose proof (exitCode_pass1Loop username password (clock st0) st0) as H1.
  destruct (pass1Loop username password (clock st0) st0) as [[|] st1];
    simpl in H1; [exact H1 |].
  pose proof (exitCode_pass2 username password st1) as H2.
  destruct (pass2 username password st1) as [[|] st2]; simpl in *.
  - now rewrite H2.
  - now rewrite exitCode_pass3Loop, H2.
Qed.

Lemma Calm_saveStorageState path : Calm (saveStorageState path).
Proof.
  intros st. unfold saveStorageState.
  now destruct (storageState rt (world st)) as [[snapshot|e] w].
Qed.

Lemma Calm_persistSession filled logged : Calm (persistSession filled logged).
Proof.
  unfold persistSession. destruct filled.
  - apply Calm_bind; [calm | intros _].
    apply Calm_bind; [calm | intros _].
    apply Calm_bind; [apply Calm_try_catch; [|intros ?]; calm | intros otp].
    apply Calm_bind; [calm | intros _].
    apply Calm_bind; [destruct (HEADED cfg); calm | intros _].
    apply Calm_bind; [apply Calm_saveStorageState | intros _]. calm.
  - destruct logged; simpl; calm.
Qed.

Lemma Calm_flow username password hasSavedState savedStateData :
  Calm (flow username password hasSavedState savedStateData).
Proof.
  unfold flow.
  apply Calm_bind; [apply Calm_checkSavedSession | intros logged].
  apply Calm_bind.
  - destruct logged; simpl; [apply Calm_ret |]. intros st.
    pose proof (exitCode_enterCredentials username password st) as H.
    now destruct (enterCredentials username password st).
  - intros filled.
    apply Calm_bind; [apply Calm_persistSession | intros _]. calm.
Qed.

Lemma Calm_launchBrowser : Calm launchBrowser.
Proof.
  unfold launchBrowser, launchNamed.
  apply Calm_bind.
  - apply Calm_try_catch; [calm | intros _].
    apply Calm_try_catch; [calm | intros _]. apply Calm_ret.
  - intros [|]; simpl; calm.
Qed.

Lemma Calm_mkdirSync path : Calm (mkdirSync path).
Proof.
  unfold mkdirSync. apply Calm_bind; [apply Calm_call | intros _].
  intros st. reflexivity.
Qed.

Lemma Calm_seedCookies hasSavedState : Calm (seedCookies hasSavedState).
Proof.
  unfold seedCookies. destruct hasSavedState; [|apply Calm_ret]. intros st.
  destruct (loadStateFile (fs st) STATE_FILE) as [a|e]; [|reflexivity].
  assert (H : Calm (when (Nat.ltb 0 (List.length (cookies a)))
                      (call (AddCookies (List.length (cookies a)))
                            (addCookies rt (cookies a)) ;;;
                       console_log [AStr "Loaded saved session from";
                                    AStr STATE_FILE]) ;;;
                    ret (Some a))) by calm.
  apply H.
Qed.

Lemma Calm_firstPage : Calm firstPage.
Proof.
  intros st. unfold firstPage.
  destruct (pages rt (world st)); [reflexivity | apply Calm_call].
Qed.

Lemma Calm_prelude username : Calm (prelude username).
Proof.
  unfold prelude.
  apply Calm_bind; [apply Calm_console_log | intros _].
  apply Calm_bind; [intros st; reflexivity | intros authDir].
  apply Calm_bind; [apply Calm_when, Calm_mkdirSync | intros _].
  apply Calm_bind; [intros st; reflexivity | intros profileDir].
  apply Calm_bind; [apply Calm_when, Calm_mkdirSync | intros _].
  apply Calm_bind; [intros st; reflexivity | intros hasSavedState].
  apply Calm_bind; [apply Calm_launchBrowser | intros _].
  apply Calm_bind; [apply Calm_seedCookies | intros saved].
  apply Calm_bind; [apply Calm_firstPage | intros _].
  apply Calm_ret.
Qed.

(** [process.exitCode] is written in one place only, the [catch] of
    the [try] block: a run of [main] leaves it as it was, unless the
    block was reached and threw, and then it is 1. *)
Theorem exit_code_untouched_unless_try_block_threw :
  forall st,
    exitCode (snd (main st)) = exitCode st \/
    (exitCode (snd (main st)) = Some 1 /\
     exists saved s0 e s1,
       prelude (trim (envOrEmpty (SF_USERNAME cfg))) st = (Ok saved, s0) /\
       flow (trim (envOrEmpty (SF_USERNAME cfg)))
            (trim (envOrEmpty (SF_PASSWORD cfg))) (fst saved) (snd saved) s0
       = (Throw (Raised e), s1)).
Proof.
  intros st. unfold main.
  set (username := trim (envOrEmpty (SF_USERNAME cfg))).
  set (password := trim (envOrEmpty (SF_PASSWORD cfg))).
  destruct (String.eqb username "" || String.eqb password "");
    [left; reflexivity |].
  unfold bind.
  pose proof (Calm_prelude username st) as Hpre.
  destruct (prelude username st) as [[saved|e] s0] eqn:Ep; simpl in Hpre;
    [|left; destruct e; exact Hpre].
  pose proof (guarded_closes_context username password (fst saved) (snd saved)
                s0) as Hg.
  pose proof (Calm_flow username password (fst saved) (snd saved) s0) as Hflow.
  destruct (flow username password (fst saved) (snd saved) s0)
    as [[flags|[e|]] s1] eqn:Ef; simpl in Hflow;
    destruct (guarded username password (fst saved) (snd saved) s0)
      as [r st1].
  - destruct Hg as [_ [Hexit _]].
    left. destruct r as [u|[e|]]; simpl; congruence.
  - destruct Hg as [_ [Hexit _]].
    right. split; [destruct r as [u|[e'|]]; exact Hexit |].
    exists saved, s0, e, s1. auto.
  - destruct Hg as [-> ->]. left. simpl. congruence.
Qed.

(* ===================================================================== *)
(** * More properties: the wait that never returns *)
(* ===================================================================== *)

(** The state of a run that stopped at a keyboard wait: the Enter key
    is never pressed, and one of the two prompts is the last thing the
    run did. *)
Definition atPrompt (s : State) : Prop :=
  enterPressed rt (world s) = None /\
  (hd_error (out s)
   = Some (WaitForEnter "Press Enter when you see the Salesforce dashboard (to save session for next run)...") \/
   hd_error (out s) = Some (WaitForEnter "Press Enter to close the browser...")).

(** A computation that fails to settle only in a headed run, and then
    at a keyboard wait. *)
Definition Stops {A} (c : M A) : Prop :=
  forall st, fst (c st) = Throw Pending ->
             HEADED cfg = true /\ atPrompt (snd (c st)).

Lemma Stops_settled {A} (c : M A) :
  (forall st, fst (c st) <> Throw Pending) -> Stops c.
Proof. intros H st Hp. now elim (H st). Qed.

Lemma Stops_ret {A} (a : A) : Stops (ret a).
Proof. apply Stops_settled. discriminate. Qed.

Lemma Stops_bind {A B} (c : M A) (k : A -> M B) :
  Stops c -> (forall a, Stops (k a)) -> Stops (bind c k).
Proof.
  intros Hc Hk st. unfold bind. specialize (Hc st).
  destruct (c st) as [[a|[e|]] s]; simpl in *;
    [apply Hk | discriminate | intros _; now apply Hc].
Qed.

Lemma Stops_try_catch {A} (body : M A) handler :
  Stops body -> (forall e, Stops (handler e)) -> Stops (try_catch body handler).
Proof.
  intros Hb Hh st. unfold try_catch. specialize (Hb st).
  destruct (body st) as [[a|[e|]] s]; simpl in *;
    [discriminate | apply Hh | exact Hb].
Qed.

Lemma Stops_call {A} e (op : W -> Outcome A * W) : Stops (call e op).
Proof.
  apply Stops_settled. intros st. unfold call.
  destruct (op (world st)) as [[a|e'] w]; discriminate.
Qed.

Lemma Stops_console_log args : Stops (console_log args).
Proof. apply Stops_settled. discriminate. Qed.

Lemma Stops_log args : Stops (log args).
Proof. apply Stops_settled. discriminate. Qed.

Lemma Stops_delay ms : Stops (delay ms).
Proof. apply Stops_settled. discriminate. Qed.

Lemma Stops_page_url : Stops page_url.
Proof. apply Stops_settled. discriminate. Qed.

Lemma Stops_fileExists path : Stops (fileExists path).
Proof. apply Stops_settled. discriminate. Qed.

Lemma Stops_when (b : bool) c : (b = true -> Stops c) -> Stops (when b c).
Proof. intros H. destruct b; [now apply H | apply Stops_ret]. Qed.

Lemma Stops_swallow c : Stops c -> Stops (swallow c).
Proof. intros H. apply Stops_try_catch; [exact H | intros; apply Stops_ret]. Qed.

Lemma Stops_navigate target waitUntil timeout :
  Stops (navigate target waitUntil timeout).
Proof. apply Stops_call. Qed.

Ltac stops :=
  repeat first
    [ apply Stops_bind; [|intros ?] | apply Stops_ret | apply Stops_page_url
    | apply Stops_console_log | apply Stops_log | apply Stops_delay
    | apply Stops_fileExists | apply Stops_swallow; [] | apply Stops_navigate
    | apply Stops_call | apply Stops_when; []; intros _ ].

(** The wait to save the session. *)
Lemma Stops_waitToSave :
  HEADED cfg = true ->
  Stops (waitForEnter "Press Enter when you see the Salesforce dashboard (to save session for next run)...").
Proof.
  intros Hh st. unfold waitForEnter.
  destruct (enterPressed rt (world st)) eqn:E; simpl; [discriminate |].
  intros _. split; [exact Hh |]. split; [exact E | now left].
Qed.

(** The wait to close the browser. *)
Lemma Stops_waitToClose :
  HEADED cfg = true -> Stops (waitForEnter "Press Enter to close the browser...").
Proof.
  intros Hh st. unfold waitForEnter.
  destruct (enterPressed rt (world st)) eqn:E; simpl; [discriminate |].
  intros _. split; [exact Hh |]. split; [exact E | now right].
Qed.

Lemma Stops_checkSavedSession hasSavedState savedStateData :
  Stops (checkSavedSession hasSavedState savedStateData).
Proof.
  unfold checkSavedSession, probeSaved, probeDashboard, probeEntry,
    probeLoginPage.
  apply Stops_bind.
  - destruct (savedBaseUrl hasSavedState savedStateData); [stops |].
    destruct hasSavedState; stops.
  - intros [|]; simpl; stops.
Qed.

Lemma Stops_saveStorageState path : Stops (saveStorageState path).
Proof.
  apply Stops_settled. intros st. unfold saveStorageState.
  destruct (storageState rt (world st)) as [[snapshot|e] w]; discriminate.
Qed.

Lemma Stops_persistSession filled logged : Stops (persistSession filled logged).
Proof.
  unfold persistSession. destruct filled.
  - apply Stops_bind; [stops | intros _].
    apply Stops_bind; [stops | intros _].
    apply Stops_bind; [apply Stops_try_catch; [|intros ?]; stops | intros otp].
    apply Stops_bind; [stops | intros _].
    apply Stops_bind.
    + destruct (HEADED cfg) eqn:Hh; [|stops].
      apply Stops_bind; [stops | intros _].
      apply Stops_bind; [stops | intros _].
      apply Stops_bind; [stops | intros _].
      now apply Stops_waitToSave.
    + intros _. apply Stops_bind; [apply Stops_saveStorageState | intros _].
      stops.
  - destruct logged; simpl; stops.
Qed.

Lemma Stops_flow username password hasSavedState savedStateData :
  Stops (flow username password hasSavedState savedStateData).
Proof.
  unfold flow.
  apply Stops_bind; [apply Stops_checkSavedSession | intros logged].
  apply Stops_bind.
  - destruct logged; simpl; [apply Stops_ret |].
    apply Stops_settled. intros st.
    now destruct (enterCredentials username password st).
  - intros filled.
    apply Stops_bind; [apply Stops_persistSession | intros _].
    apply Stops_bind; [|intros _; apply Stops_ret].
    apply Stops_when. exact Stops_waitToClose.
Qed.

Lemma Stops_launchBrowser : Stops launchBrowser.
Proof.
  unfold launchBrowser, launchNamed.
  apply Stops_bind.
  - apply Stops_try_catch; [stops | intros _].
    apply Stops_try_catch; [stops | intros _]. apply Stops_ret.
  - intros [|]; simpl; stops.
Qed.

Lemma Stops_mkdirSync path : Stops (mkdirSync path).
Proof.
  unfold mkdirSync. apply Stops_bind; [apply Stops_call | intros _].
  apply Stops_settled. discriminate.
Qed.

Lemma Stops_seedCookies hasSavedState : Stops (seedCookies hasSavedState).
Proof.
  unfold seedCookies. destruct hasSavedState; [|apply Stops_ret]. intros st.
  destruct (loadStateFile (fs st) STATE_FILE) as [a|e]; [|discriminate].
  assert (H : Stops (when (Nat.ltb 0 (List.length (cookies a)))
                       (call (AddCookies (List.length (cookies a)))
                             (addCookies rt (cookies a)) ;;;
                        console_log [AStr "Loaded saved session from";
                                     AStr STATE_FILE]) ;;;
                     ret (Some a))) by stops.
  apply H.
Qed.

Lemma Stops_firstPage : Stops firstPage.
Proof.
  intros st. unfold firstPage.
  destruct (pages rt (world st)); [discriminate | apply Stops_call].
Qed.

Lemma Stops_prelude username : Stops (prelude username).
Proof.
  unfold prelude.
  apply Stops_bind; [apply Stops_console_log | intros _].
  apply Stops_bind; [apply Stops_fileExists | intros authDir].
  apply Stops_bind; [apply Stops_when; intros _; apply Stops_mkdirSync | intros _].
  apply Stops_bind; [apply Stops_fileExists | intros profileDir].
  apply Stops_bind; [apply Stops_when; intros _; apply Stops_mkdirSync | intros _].
  apply Stops_bind; [apply Stops_fileExists | intros hasSavedState].
  apply Stops_bind; [apply Stops_launchBrowser | intros _].
  apply Stops_bind; [apply Stops_seedCookies | intros saved].
  apply Stops_bind; [apply Stops_firstPage | intros _].
  apply Stops_ret.
Qed.

(** The promise of [main] fails to settle only in a run started with
    [--headed] that is waiting for the Enter key, to save the session or
    to close the browser, where the key is never pressed. The prompt is
    then the last thing the run did: the context is not closed, as the
    [finally] has not run, and [process.exitCode] is as it was. *)
Theorem main_unsettled_only_at_keyboard_wait :
  forall st,
    fst (main st) = Unsettled ->
    HEADED cfg = true /\
    atPrompt (snd (main st)) /\
    exitCode (snd (main st)) = exitCode st.
Proof.
  intros st. unfold main.
  set (username := trim (envOrEmpty (SF_USERNAME cfg))).
  set (password := trim (envOrEmpty (SF_PASSWORD cfg))).
  destruct (String.eqb username "" || String.eqb password "");
    [discriminate |].
  unfold bind.
  pose proof (Stops_prelude username st) as Hstop.
  pose proof (Calm_prelude username st) as Hcalm.
  destruct (prelude username st) as [[saved|[e|]] s0]; simpl in *;
    [|discriminate | intros _; destruct (Hstop eq_refl); auto].
  clear Hstop.
  pose proof (guarded_closes_context username password (fst saved) (snd saved)
                s0) as Hg.
  pose proof (Stops_flow username password (fst saved) (snd saved) s0) as Hstop.
  pose proof (Calm_flow username password (fst saved) (snd saved) s0) as Hflow.
  destruct (flow username password (fst saved) (snd saved) s0)
    as [[flags|[e|]] s1]; simpl in *;
    destruct (guarded username password (fst saved) (snd saved) s0)
      as [r st1].
  - destruct Hg as [_ [_ ->]]. unfold closeContext, call.
    destruct (close rt (world s1)) as [[u|e] w]; discriminate.
  - destruct Hg as [_ [_ ->]]. unfold closeContext, call. simpl.
    destruct (close rt (world s1)) as [[u|e'] w]; discriminate.
  - destruct Hg as [Hr Hs]. subst r st1. intros _.
    destruct (Hstop eq_refl) as [Hh Hp].
    split; [exact Hh |]. split; [exact Hp |]. simpl. now rewrite Hflow.
Qed.

End Script.

(* ===================================================================== *)
(** * Concrete runs *)
(* ===================================================================== *)

Arguments JNull {num}.
Arguments JBool {num} b.
Arguments JStr {num} s.

Module Scenario.

(** Numbers are not needed in the runs below; integers stand in. *)
Definition numFalsy (n : Z) : bool := Z.eqb n 0.
Definition numToString (n : Z) : string := if Z.eqb n 0 then "0" else "1".

Definition quoted (s : string) : string := dq ++ s ++ dq.

(** [{"cookies":[]}] *)
Definition textNoCookies : string := "{" ++ quoted "cookies" ++ ":[]}".

(** [{"cookies":[{"domain":"foo.lightning.force.com"}]}] *)
Definition textOneCookie : string :=
  "{" ++ quoted "cookies" ++ ":[{" ++ quoted "domain" ++ ":"
  ++ quoted "foo.lightning.force.com" ++ "}]}".

(** A file cut short while it was written. *)
Definition textTruncated : string := "{" ++ quoted "cookies" ++ ":[".

Definition oneCookie : json Z := JObj [("domain", JStr "foo.lightning.force.com")].

(** [JSON.parse] on the texts above. *)
Definition parseJson (raw : string) : option (json Z) :=
  if String.eqb raw textNoCookies then Some (JObj [("cookies", JArr [])])
  else if String.eqb raw textOneCookie then Some (JObj [("cookies", JArr [oneCookie])])
  else None.

Definition statePath : string := "/work/.auth/salesforce-auth.json".

(** The files of a project at [/work] whose [.auth] directory and
    browser profile exist, with [state] at the state file's path. *)
Definition filesWith (state : FileState) : FS :=
  fun p => if String.eqb p statePath then state
           else if String.eqb p "/work/.auth" then Directory
           else if String.eqb p "/work/.auth/browser-profile" then Directory
           else Absent.

(** A document in which exactly the selectors listed match; the n-th
    selector matches element n. No operation on it throws. *)
Fixpoint position (sel : string) (present : list string) (n : nat) : option Element :=
  match present with
  | [] => None
  | s :: rest => if String.eqb s sel then Some n else position sel rest (S n)
  end.

Definition documentWith (present : list string) : Document :=
  {| querySelector := fun sel => position sel present 0;
     closest := fun _ _ => None;
     raises := fun _ _ => None |}.

Definition loginDocument : Document :=
  documentWith ["input#username"; "input#password"; "input#Login"].

Definition blankDocument : Document := documentWith [].

(** A site that always answers the same way: which launches succeed,
    whether cookies are accepted, where a navigation ends up, the frames
    under the main frame (frame 0) with their URLs, and the document of
    each frame. *)
Record Site : Type := mkSite {
  launchable : option string -> bool;
  cookiesAccepted : bool;
  landing : string -> string;
  subframes : list (Frame * string);
  documentOf : Frame -> Document
}.

Fixpoint urlOfFrame (f : Frame) (frames : list (Frame * string)) : string :=
  match frames with
  | [] => ""
  | (g, u) :: rest => if Nat.eqb f g then u else urlOfFrame f rest
  end.

(** The runtime of a site; the world is the URL the page shows. No
    call takes longer than asked, nobody answers the OTP prompt, the
    Enter key is pressed whenever it is waited for, and the storage state
    handed over is the one-cookie text. *)
Definition simulate (site : Site) : Runtime Z string :=
  {| mkdir := fun _ w => (Ok tt, w);
     launchPersistentContext := fun channel w =>
       (if launchable site channel then Ok tt
        else Throw "browserType.launchPersistentContext: browser is not installed", w);
     addCookies := fun _ w =>
       (if cookiesAccepted site then Ok tt
        else Throw "browserContext.addCookies: Cookie should have a url or a domain/path pair", w);
     pages := fun _ => true;
     newPage := fun w => (Ok tt, w);
     goto := fun target _ _ _ => (Ok tt, landing site target);
     url := fun w => w;
     frames := fun _ => 0%nat :: map fst (subframes site);
     mainFrame := fun _ => 0%nat;
     frameUrl := fun f w => if Nat.eqb f 0 then w else urlOfFrame f (subframes site);
     evaluateEnter := fun f w => (Ok (documentOf site f), 0%N, w);
     evaluateLeave := fun _ _ w => (Ok tt, 0%N, w);
     sleep := fun _ w => (0%N, w);
     waitForLoadState := fun w => (Ok tt, w);
     waitForSelector := fun _ _ w => (Throw "page.waitForSelector: Timeout exceeded", w);
     enterPressed := fun w => Some w;
     storageState := fun w => (Ok textOneCookie, w);
     close := fun w => (Ok tt, w) |}.

Definition config (password : string) : Config :=
  {| SF_USERNAME := Some "qa.user@example.com";
     SF_PASSWORD := Some password;
     HEADED := false;
     DEBUG := false;
     projectRoot := "/work" |}.

(** The process starts at time 0 with a blank page and nothing printed. *)
Definition start (state : FileState) : State string :=
  {| clock := 0; world := "about:blank"; fs := filesWith state;
     exitCode := None; out := [] |}.

Definition run (site : Site) (password : string) (state : FileState)
  : Completion * State string :=
  main numFalsy numToString parseJson (simulate site) (config password)
       (start state).

(** The login page stays where the run sends it; the form is in the
    main document. *)
Definition loginSite : Site :=
  {| launchable := fun _ => true;
     cookiesAccepted := true;
     landing := fun target => target;
     subframes := [];
     documentOf := fun _ => loginDocument |}.

(** Every navigation ends on the classic home page of a live session. *)
Definition homeSite : Site :=
  {| launchable := fun _ => true;
     cookiesAccepted := true;
     landing := fun _ => "https://test.salesforce.com/home/home.jsp";
     subframes := [];
     documentOf := fun _ => blankDocument |}.

(** Two frames carry the marker; only the second holds the form. *)
Definition twoMarkerSite : Site :=
  {| launchable := fun _ => true;
     cookiesAccepted := true;
     landing := fun target => target;
     subframes := [(1%nat, "https://test.salesforce.com/sessionserver/a");
                   (2%nat, "https://test.salesforce.com/sessionserver/b")];
     documentOf := fun f => if Nat.eqb f 2 then loginDocument else blankDocument |}.

(** The browser refuses the cookies of the saved state. *)
Definition strictCookieSite : Site :=
  {| launchable := fun _ => true;
     cookiesAccepted := false;
     landing := fun target => target;
     subframes := [];
     documentOf := fun _ => loginDocument |}.

Lemma derived_endpoint_of_cookies_witness :
  loadStateFile numFalsy numToString parseJson (filesWith (Content textOneCookie)) statePath
  = Ok {| cookies := [oneCookie];
          lightningBaseUrl := Some "https://foo.lightning.force.com" |}.
Proof.
  refine (proj1 (proj2 (@derived_endpoint_of_cookies Z numFalsy numToString parseJson
                          (filesWith (Content textOneCookie)) statePath [oneCookie] _))
                [("domain", JStr "foo.lightning.force.com")] eq_refl eq_refl).
  exists textOneCookie, [("cookies", JArr [oneCookie])].
  repeat split; reflexivity.
Defined.

Lemma load_state_file_never_raises_witness :
  loadStateFile numFalsy numToString parseJson (filesWith (Content textTruncated)) statePath
  = Ok (emptyArtifact Z).
Proof.
  refine (proj1 (proj2 (proj2 (@load_state_file_never_raises Z numFalsy numToString parseJson
                          (filesWith (Content textTruncated)) statePath)))
                textTruncated _ _); reflexivity.
Defined.

(** ** A state file that was cut short *)

Definition entryUrl : string := "https://test.salesforce.com/".
Definition homeUrl : string := "https://test.salesforce.com/lightning/page/home".

(** C1 fails as stated: with the truncated state file the run first
    probes the entry URL with the 3000 ms settle delay of the saved-state branch; with no
    file it does not. Both runs are on the same site, which shows the
    classic home page of a live session; that URL is also classified
    differently by the two tests. *)
Lemma truncated_state_file_probe_differs :
  navigation (snd (run homeSite "hunter2" (Content textTruncated)))
  = [Goto entryUrl DomContentLoaded 30000; Delay 3000;
     Goto entryUrl Load 60000; Delay 5000;
     Goto homeUrl DomContentLoaded 30000] /\
  navigation (snd (run homeSite "hunter2" Absent))
  = [Goto entryUrl Load 60000; Delay 5000;
     Goto homeUrl DomContentLoaded 30000] /\
  navigation (snd (run homeSite "hunter2" (Content textTruncated)))
  <> navigation (snd (run homeSite "hunter2" Absent)) /\
  isLoggedInSaved "https://test.salesforce.com/home/home.jsp" = false /\
  isLoggedInFresh "https://test.salesforce.com/home/home.jsp" = true.
Proof.
  vm_compute. repeat split. intros H. discriminate H.
Qed.

Lemma unusable_state_file_probes_entry_first_witness :
  seedCookies numFalsy numToString parseJson (simulate homeSite)
    (config "hunter2") true (start (Content textTruncated))
  = (Ok (Some (emptyArtifact Z)), start (Content textTruncated)).
Proof.
  refine (proj1 (proj2 (@unusable_state_file_probes_entry_first Z numFalsy
            numToString parseJson string (simulate homeSite) (config "hunter2")
            (start (Content textTruncated)) _))).
  right. right. exists textTruncated. split; reflexivity.
Defined.

(** ** Two frames with the marker *)

(** The state in which the login branch starts: the login page is
    showing. *)
Definition atLoginPage : State string :=
  {| clock := 0; world := entryUrl; fs := filesWith Absent;
     exitCode := None; out := [] |}.

Definition fillOn (site : Site) : bool * State string :=
  enterCredentials (simulate site) (config "hunter2")
    "qa.user@example.com" "hunter2" atLoginPage.

(** Pass 3 in the words of the claim: every frame is attempted except
    the main frame and the frames pass 1 tried. *)
Definition claimedPass3 (site : Site) (triedInPass1 : list Frame)
  (st : State string) : bool * State string :=
  firstDone
    (map (fun frame s =>
            if Nat.eqb frame (mainFrame (simulate site) (world s))
               || existsb (Nat.eqb frame) triedInPass1
            then (false, s)
            else attempt (simulate site) (config "hunter2")
                   "Login filled in frame:" 8000
                   "qa.user@example.com" "hunter2" frame s)
         (frames (simulate site) (world st)))
    st.

Definition afterPass1 : State string :=
  snd (pass1 (simulate twoMarkerSite) (config "hunter2")
         "qa.user@example.com" "hunter2"
         (emitS (ConsoleLog [AStr "Entering credentials in UI: username";
                             AStr "qa.user@example.com"; AStr "password";
                             AStr "hunter2"]) atLoginPage)).

Definition afterPass2 : State string :=
  snd (pass2 (simulate twoMarkerSite) (config "hunter2")
         "qa.user@example.com" "hunter2" afterPass1).

(** A run on that site with [--debug]. *)
Definition debugConfig : Config :=
  {| SF_USERNAME := Some "qa.user@example.com";
     SF_PASSWORD := Some "hunter2";
     HEADED := false;
     DEBUG := true;
     projectRoot := "/work" |}.

Definition debugRun : Completion * State string :=
  main numFalsy numToString parseJson (simulate twoMarkerSite) debugConfig
       (start Absent).

(** C2 does not hold of the script: pass 3 does not try every frame
    that is left. On a page with two frames whose URL carries the marker,
    pass 1 tries the first of them only; the second is neither the main
    frame nor the frame pass 1 tried, and it holds the form: the injected
    function reports [submitted] in its document, and pass 3 in the words
    of the claim attempts it and reports done. The script's pass 3 passes
    it over because its URL contains the marker, the login branch ends
    with no form found and frame 2 never evaluated, and a run with
    [--debug] prints that the form was not detected after checking all
    frames. *)
Lemma second_marker_frame_is_passed_over :
  nodup Nat.eq_dec (evaluated afterPass1) = [1%nat] /\
  mainFrame (simulate twoMarkerSite) (world afterPass2) = 0%nat /\
  frames (simulate twoMarkerSite) (world afterPass2) = [0%nat; 1%nat; 2%nat] /\
  fst (loginPageFunction (documentOf twoMarkerSite 2%nat)
         "qa.user@example.com" "hunter2")
  = Ok {| done := true; message := "submitted" |} /\
  fst (claimedPass3 twoMarkerSite [1%nat] afterPass2) = true /\
  fst (pass3 (simulate twoMarkerSite) (config "hunter2")
         "qa.user@example.com" "hunter2" afterPass2) = false /\
  fst (fillOn twoMarkerSite) = false /\
  existsb (Nat.eqb 2) (evaluated (snd (fillOn twoMarkerSite))) = false /\
  fst debugRun = Resolved /\
  existsb (Nat.eqb 2) (evaluated (snd debugRun)) = false /\
  In (ConsoleLog
        [AStr "[debug] Login form not detected after checking all frames. URL:";
         AStr entryUrl])
     (out (snd debugRun)).
Proof.
  vm_compute. repeat split. right. right. left. reflexivity.
Qed.

Lemma three_passes_in_order_witness :
  exists before after,
    frames (simulate twoMarkerSite) (world atLoginPage)
    = (before ++ 1%nat :: after)%list /\
    includes (frameUrl (simulate twoMarkerSite) 1%nat (world atLoginPage))
             "sessionserver" = true /\
    Forall (fun g => includes (frameUrl (simulate twoMarkerSite) g (world atLoginPage))
                       "sessionserver" = false) before.
Proof.
  refine (proj1 (proj2 (proj2 (proj2 (proj2
            (@three_passes_in_order Z string (simulate twoMarkerSite)
               (config "hunter2") "qa.user@example.com" "hunter2" atLoginPage)))))
            atLoginPage 1%nat _).
  reflexivity.
Defined.

(** ** One attempt on a form that does not take the value *)





(** ** The password on the console *)

(** C7 does not hold of the script: of two runs that differ only in the
    password, the two passwords being of the same length, each prints its
    password as it is, and what the two runs print differs. *)
Lemma password_is_printed_in_clear :
  In (ConsoleLog [AStr "Entering credentials in UI: username";
                  AStr "qa.user@example.com"; AStr "password"; AStr "hunter2"])
     (console (snd (run loginSite "hunter2" Absent))) /\
  In (ConsoleLog [AStr "Entering credentials in UI: username";
                  AStr "qa.user@example.com"; AStr "password"; AStr "hunter3"])
     (console (snd (run loginSite "hunter3" Absent))) /\
  String.length "hunter2" = String.length "hunter3" /\
  console (snd (run loginSite "hunter2" Absent))
  <> console (snd (run loginSite "hunter3" Absent)).
Proof.
  vm_compute. repeat split.
  - right. left. reflexivity.
  - right. left. reflexivity.
  - intros H. discriminate H.
Qed.

(** ** Cookies the browser refuses *)

(** C8 does not hold of the script: the saved state holds one cookie and
    the browser refuses it; the context had been opened, [main] rejects with the error of
    [addCookies], and the run ends without closing the context, without
    printing the error and without setting the exit code. *)
Lemma refused_cookies_skip_cleanup :
  let '(completion, final) := run strictCookieSite "hunter2" (Content textOneCookie) in
  completion = Rejected "browserContext.addCookies: Cookie should have a url or a domain/path pair" /\
  history final
  = [ConsoleLog [AStr "Using credentials from .env (username length:";
                 ANum 19; AStr ")"];
     Launch (Some "chrome");
     AddCookies 1] /\
  contextClosed final = false /\
  exitCode final = None.
Proof.
  vm_compute. repeat split.
Qed.

(** ** A session that is still alive *)

Lemma session_file_written_only_after_submission_witness :
  fs (snd (flow (simulate homeSite) (config "hunter2")
             "qa.user@example.com" "hunter2" false None (start Absent)))
  = fs (start Absent).
Proof.
  pose proof (proj1 (@session_file_written_only_after_submission Z numFalsy
                       numToString parseJson string (simulate homeSite)
                       (config "hunter2"))
                "qa.user@example.com" "hunter2" false None (start Absent)
                _ _ (surjective_pairing _)) as H.
  assert (E : fst (flow (simulate homeSite) (config "hunter2")
                     "qa.user@example.com" "hunter2" false None (start Absent))
              = Ok {| isLoggedInUrl := true; loginFilled := false |})
    by (vm_compute; reflexivity).
  rewrite E in H. destruct H as [_ [_ H]].
  destruct (H eq_refl) as [Hfs _]. exact Hfs.
Defined.

End Scenario.

(* ===================================================================== *)
(** * More concrete runs *)
(* ===================================================================== *)

Module Coverage.
Import Scenario.

(** A cookie of the login host, which is not a Lightning domain. *)
Definition otherCookie : json Z := JObj [("domain", JStr "login.salesforce.com")].

(** [{"cookies":[{"domain":"login.salesforce.com"}]}] *)
Definition textOtherCookie : string :=
  "{" ++ quoted "cookies" ++ ":[{" ++ quoted "domain" ++ ":"
  ++ quoted "login.salesforce.com" ++ "}]}".

(** [{"cookies":[{"domain":"login.salesforce.com"},null,{"domain":"foo.lightning.force.com"}]}] *)
Definition textNullCookie : string :=
  "{" ++ quoted "cookies" ++ ":[{" ++ quoted "domain" ++ ":"
  ++ quoted "login.salesforce.com" ++ "},null,{" ++ quoted "domain" ++ ":"
  ++ quoted "foo.lightning.force.com" ++ "}]}".

(** [JSON.parse] on these two texts as well. *)
Definition parseMore (raw : string) : option (json Z) :=
  if String.eqb raw textOtherCookie
  then Some (JObj [("cookies", JArr [otherCookie])])
  else if String.eqb raw textNullCookie
  then Some (JObj [("cookies", JArr [otherCookie; JNull; oneCookie])])
  else parseJson raw.

(** What [loadStateFile] makes of the one-cookie text. *)
Definition savedArtifact : Artifact Z :=
  {| cookies := [oneCookie];
     lightningBaseUrl := Some "https://foo.lightning.force.com" |}.

(** A project directory in which nothing exists yet. *)
Definition bareStart : State string :=
  {| clock := 0; world := "about:blank"; fs := fun _ => Absent;
     exitCode := None; out := [] |}.

(** The site of [loginSite] with the network down: every navigation
    fails. *)
Definition offline : Runtime Z string :=
  let online := simulate loginSite in
  {| mkdir := mkdir online;
     launchPersistentContext := launchPersistentContext online;
     addCookies := addCookies online;
     pages := pages online;
     newPage := newPage online;
     goto := fun _ _ _ w => (Throw "page.goto: net::ERR_INTERNET_DISCONNECTED", w);
     url := url online;
     frames := frames online;
     mainFrame := mainFrame online;
     frameUrl := frameUrl online;
     evaluateEnter := evaluateEnter online;
     evaluateLeave := evaluateLeave online;
     sleep := sleep online;
     waitForLoadState := waitForLoadState online;
     waitForSelector := waitForSelector online;
     enterPressed := enterPressed online;
     storageState := storageState online;
     close := close online |}.

Lemma cookies_without_lightning_domain_witness :
  loadStateFile numFalsy numToString parseMore
    (filesWith (Content textOtherCookie)) statePath
  = Ok {| cookies := [otherCookie]; lightningBaseUrl := None |}.
Proof.
  apply (@cookies_without_lightning_domain Z numFalsy numToString parseMore
           (filesWith (Content textOtherCookie)) statePath [otherCookie]).
  - exists textOtherCookie, [("cookies", JArr [otherCookie])].
    split; [reflexivity | split; reflexivity].
  - constructor; [|constructor].
    exists [("domain", JStr "login.salesforce.com")].
    split; [reflexivity |]. right. exists "login.salesforce.com".
    split; reflexivity.
Defined.

Lemma malformed_cookie_voids_state_file_witness :
  loadStateFile numFalsy numToString parseMore
    (filesWith (Content textNullCookie)) statePath
  = Ok (emptyArtifact Z).
Proof.
  apply (@malformed_cookie_voids_state_file Z numFalsy numToString parseMore
           (filesWith (Content textNullCookie)) statePath
           [otherCookie] JNull [oneCookie]).
  - exists textNullCookie, [("cookies", JArr [otherCookie; JNull; oneCookie])].
    split; [reflexivity | split; reflexivity].
  - constructor; [|constructor].
    exists [("domain", JStr "login.salesforce.com")].
    split; [reflexivity |]. right. exists "login.salesforce.com".
    split; reflexivity.
  - left. reflexivity.
Defined.

Lemma cookies_come_from_the_cookies_array_witness :
  holdsCookies parseJson (filesWith (Content textOneCookie)) statePath [oneCookie].
Proof.
  apply (@cookies_come_from_the_cookies_array Z numFalsy numToString parseJson
           (filesWith (Content textOneCookie)) statePath savedArtifact).
  - reflexivity.
  - discriminate.
Defined.

Lemma base_url_shape_witness :
  startsWith "https://foo.lightning.force.com" "https://" = true /\
  savedBaseUrl true (Some savedArtifact) = Some "https://foo.lightning.force.com" /\
  (exists c, In c (cookies savedArtifact) /\ isLightningCookie numFalsy c = Ok true) /\
  Nat.ltb 0 (List.length (cookies savedArtifact)) = true.
Proof.
  apply (@base_url_shape Z numFalsy numToString parseJson
           (filesWith (Content textOneCookie)) statePath savedArtifact
           "https://foo.lightning.force.com"); reflexivity.
Defined.

Lemma saved_classification_implies_fresh_witness :
  isLoggedInFresh "https://foo.lightning.force.com/lightning/page/home" = true.
Proof.
  apply (saved_classification_implies_fresh
           "https://foo.lightning.force.com/lightning/page/home").
  reflexivity.
Defined.

Lemma no_form_takes_fifty_seconds_witness :
  clock atLoginPage + 50000 <= clock (snd (fillOn twoMarkerSite)).
Proof.
  apply (@no_form_takes_fifty_seconds Z string (simulate twoMarkerSite)
           (config "hunter2") "qa.user@example.com" "hunter2" atLoginPage).
  vm_compute. reflexivity.
Defined.

(** The [try] block on the site with a live session, started with the
    saved state of the one-cookie text. *)
Definition savedRun : Awaited Flags * State string :=
  flow (simulate homeSite) (config "hunter2") "qa.user@example.com" "hunter2"
       true (Some savedArtifact) (start (Content textOneCookie)).

Lemma flow_navigates_to_known_urls_only_witness :
  exists added,
    out (snd savedRun) = (added ++ out (start (Content textOneCookie)))%list /\
    forall target waitUntil timeout,
      In (Goto target waitUntil timeout) added ->
      target = SALESFORCE_URL \/ target = SALESFORCE_HOME_URL \/
      exists base,
        savedBaseUrl true (Some savedArtifact) = Some base /\
        target = base ++ "/lightning/page/home".
Proof.
  exact (@flow_navigates_to_known_urls_only Z string (simulate homeSite)
           (config "hunter2") "qa.user@example.com" "hunter2" true
           (Some savedArtifact) (start (Content textOneCookie)) _ _
           (surjective_pairing _)).
Defined.



(** The steps before the [try] block in a project directory in which
    nothing exists yet. *)
Definition bareRun : Awaited (bool * option (Artifact Z)) * State string :=
  prelude numFalsy numToString parseJson (simulate loginSite) (config "hunter2")
          "qa.user@example.com" bareStart.

Lemma directories_exist_before_launch_witness :
  exists added,
    out (snd bareRun) = (added ++ out bareStart)%list /\
    ((exists channel, In (Launch channel) added) ->
     directoriesExist (config "hunter2") (fs (snd bareRun))) /\
    (forall saved, fst bareRun = Ok saved ->
                   directoriesExist (config "hunter2") (fs (snd bareRun))).
Proof.
  exact (@directories_exist_before_launch Z numFalsy numToString parseJson
           string (simulate loginSite) (config "hunter2")
           "qa.user@example.com" bareStart _ _ (surjective_pairing _)).
Defined.

(** The end of the block after a submission, on the login site, where
    both selector waits time out. *)
Definition savingRun : Awaited unit * State string :=
  persistSession (simulate loginSite) (config "hunter2") true false atLoginPage.

Lemma session_saved_whatever_the_selectors_answer_witness :
  fst (waitForSelector (simulate loginSite)
         (otpSelectors) 3000 (world atLoginPage))
  = Throw "page.waitForSelector: Timeout exceeded" /\
  fst savingRun = Ok tt /\
  fs (snd savingRun)
  = writeFile (fs atLoginPage) (STATE_FILE (config "hunter2")) textOneCookie.
Proof.
  pose proof (@session_saved_whatever_the_selectors_answer Z string
                (simulate loginSite) (config "hunter2") false atLoginPage
                _ _ (surjective_pairing savingRun)) as H.
  cbv beta iota zeta delta [simulate waitForLoadState waitForSelector
                            enterPressed HEADED config fst snd savedAt
                            storageState] in H.
  destruct H as [Hr [_ [Hfs _]]]. split; [reflexivity |].
  split; [exact Hr | exact Hfs].
Defined.

(** The [try] block on the site where no pass finds the form. *)
Definition formlessRun : Awaited Flags * State string :=
  flow (simulate twoMarkerSite) (config "hunter2") "qa.user@example.com"
       "hunter2" false None (start Absent).

(** The probe of that run. *)
Definition formlessProbe : Awaited bool * State string :=
  checkSavedSession (simulate twoMarkerSite) (config "hunter2") false None
    (start Absent).

Lemma no_form_is_reported_as_logged_in_witness :
  exists st1 rest,
    formlessRun = (Ok {| isLoggedInUrl := false; loginFilled := false |}, st1) /\
    out st1
    = ConsoleLog [AStr "Already logged in (session from cookies)."] :: rest /\
    fs st1 = fs (start Absent).
Proof.
  assert (Ep : formlessProbe = (Ok false, snd formlessProbe))
    by (vm_compute; reflexivity).
  assert (Ef : fst (enterCredentials (simulate twoMarkerSite) (config "hunter2")
                      "qa.user@example.com" "hunter2" (snd formlessProbe))
               = false) by (vm_compute; reflexivity).
  exact (@no_form_is_reported_as_logged_in Z string (simulate twoMarkerSite)
           (config "hunter2") "qa.user@example.com" "hunter2" false None
           (start Absent) (snd formlessProbe) Ep Ef).
Defined.

(** A run with the network down. *)
Definition offlineRun : Completion * State string :=
  main numFalsy numToString parseJson offline (config "hunter2") (start Absent).

Lemma try_block_error_is_reported_witness :
  exitCode (snd offlineRun) = Some 1 /\
  fst offlineRun = Resolved /\
  hd_error (tl (out (snd offlineRun)))
  = Some (ConsoleError [AStr "page.goto: net::ERR_INTERNET_DISCONNECTED"]).
Proof.
  pose (before := prelude numFalsy numToString parseJson offline
                    (config "hunter2") "qa.user@example.com" (start Absent)).
  pose (block := flow offline (config "hunter2") "qa.user@example.com"
                   "hunter2" false None (snd before)).
  assert (Ep : before = (Ok (false, None), snd before))
    by (vm_compute; reflexivity).
  assert (Ef : block
               = (Throw (Raised "page.goto: net::ERR_INTERNET_DISCONNECTED"),
                  snd block)) by (vm_compute; reflexivity).
  destruct (@try_block_error_is_reported Z numFalsy numToString parseJson
              string offline (config "hunter2") (start Absent)
              (false, None) (snd before)
              "page.goto: net::ERR_INTERNET_DISCONNECTED" (snd block)
              (fun H => Bool.diff_false_true H)
              (fun H => Bool.diff_false_true H) Ep Ef)
    as [Hout [Hexit Hend]].
  split; [exact Hexit |]. split; [exact Hend |].
  unfold offlineRun. rewrite Hout. reflexivity.
Defined.

(** The site of [loginSite] with standard input at its end: the Enter
    key is never pressed. *)
Definition unattended : Runtime Z string :=
  let attended := simulate loginSite in
  {| mkdir := mkdir attended;
     launchPersistentContext := launchPersistentContext attended;
     addCookies := addCookies attended;
     pages := pages attended;
     newPage := newPage attended;
     goto := goto attended;
     url := url attended;
     frames := frames attended;
     mainFrame := mainFrame attended;
     frameUrl := frameUrl attended;
     evaluateEnter := evaluateEnter attended;
     evaluateLeave := evaluateLeave attended;
     sleep := sleep attended;
     waitForLoadState := waitForLoadState attended;
     waitForSelector := waitForSelector attended;
     enterPressed := fun _ => None;
     storageState := storageState attended;
     close := close attended |}.

(** A run started with [--headed]. *)
Definition headedConfig : Config :=
  {| SF_USERNAME := Some "qa.user@example.com";
     SF_PASSWORD := Some "hunter2";
     HEADED := true;
     DEBUG := false;
     projectRoot := "/work" |}.

Definition unattendedRun : Completion * State string :=
  main numFalsy numToString parseJson unattended headedConfig (start Absent).

Lemma main_unsettled_only_at_keyboard_wait_witness :
  fst unattendedRun = Unsettled /\
  hd_error (out (snd unattendedRun))
  = Some (WaitForEnter "Press Enter when you see the Salesforce dashboard (to save session for next run)...") /\
  fs (snd unattendedRun) statePath = Absent /\
  exitCode (snd unattendedRun) = None.
Proof.
  assert (E : fst unattendedRun = Unsettled) by (vm_compute; reflexivity).
  destruct (@main_unsettled_only_at_keyboard_wait Z numFalsy numToString
              parseJson string unattended headedConfig (start Absent) E)
    as [_ [_ Hexit]].
  split; [exact E |]. split; [vm_compute; reflexivity |].
  split; [vm_compute; reflexivity | exact Hexit].
Defined.

End Coverage.
